(** * ai-code-reviewer: the diff-to-comment pipeline of [src/main.ts]

    A shallow embedding of the GitHub action's entry point.  The pure
    functions ([createPrompt], [createComment], the exclusion filter) are Rocq
    functions; the asynchronous ones ([getPRDetails], [getDiff],
    [getFullFileContent], [getAIResponse], [analyzeCode],
    [createReviewComment], [main]) run in a small trace-and-exception monad
    over a record [World] that answers every request the program sends out.
    Every [await] of the source waits for its promise before the next
    statement runs, so a run is one sequence of requests.

    Strings are Rocq strings read as the UTF-8 encoding of the JavaScript
    string.  Values that reach the program untyped (the event payload, the
    model's reply) are JSON values, and the operations the program applies to
    them ([JSON.parse], property access, truthiness, [Number], [trim]) are
    defined in the module [JS] after ECMA-262 and ECMA-404. *)

From Stdlib Require Import ZArith NArith Ascii String List Bool Lia.
From stdpp Require Import base option list strings pretty gmap.

Local Open Scope string_scope.
Local Open Scope list_scope.
Set Warnings "-register-all".

(* ===================================================================== *)
(** * The JavaScript operations the program relies on                     *)
(* ===================================================================== *)

Module JS.

(** ** Characters *)

Definition code (c : ascii) : N := N_of_ascii c.

Definition chr (n : N) : ascii := ascii_of_N n.

Definition is_code (n : N) (c : ascii) : bool := N.eqb (code c) n.

Definition in_range (lo hi : N) (c : ascii) : bool :=
  N.leb lo (code c) && N.leb (code c) hi.

Definition chars (s : string) : list ascii := list_ascii_of_string s.

Definition str (l : list ascii) : string := string_of_list_ascii l.

(** ** Number values

    A number is a binary64 value: NaN, an infinity, or [Finite s m e], which
    stands for [(-1)^s * m * 2^e] and is kept in one form: [e] is at most 0,
    and [m] is odd when [e] is negative.  So an integer [n] that binary64
    holds is [Finite s n 0], and two numbers are equal exactly when their
    values and signs are. *)

Inductive number : Type :=
| NaN
| Infinity (negative : bool)
| Finite (negative : bool) (mantissa : N) (exponent : Z).

Definition zero : number := Finite false 0 0.

(** The number [n], for an [n] that binary64 holds (every [n] up to 2^53). *)
Definition of_N (n : N) : number := Finite false n 0.

Definition is_zero (x : number) : bool :=
  match x with
  | Finite _ m _ => N.eqb m 0
  | _ => false
  end.

(** The integer a number denotes, when it denotes one. *)
Definition integer_value (x : number) : option Z :=
  match x with
  | Finite s m e =>
      if Z.eqb e 0 then Some (if s then Z.opp (Z.of_N m) else Z.of_N m) else None
  | _ => None
  end.

(** [q * 2^k] in the one form. *)
Definition canonical (neg : bool) (q : N) (k : Z) : number :=
  if Z.leb 0 k then Finite neg (q * 2 ^ Z.to_N k) 0
  else
    let g := N.gcd q (2 ^ Z.to_N (- k)) in
    Finite neg (q / g) (k + Z.of_N (N.log2 g)).

(** The Number value for [num / den] ([den] positive; ECMA-262, 6.1.6.1):
    the binary64 value nearest to it, the one with an even significand of
    two equally near, an infinity from 2^1024 on.  [k] is the exponent of
    the last of the 53 bits of the significand: [floor (log2 (num / den)) -
    52], and -1074 for the subnormal values. *)
Definition binary64 (neg : bool) (num den : N) : number :=
  if N.eqb num 0 then Finite neg 0 0
  else
    let lg :=
      if N.leb den num then Z.of_N (N.log2 (num / den))
      else (- Z.of_N (N.log2_up ((den + num - 1) / num)))%Z in
    let k := Z.max (lg - 52) (-1074) in
    let n := if Z.leb 0 k then num else (num * 2 ^ Z.to_N (- k))%N in
    let d := if Z.leb 0 k then (den * 2 ^ Z.to_N k)%N else den in
    let q := (n / d)%N in
    let r := (n mod d)%N in
    let up :=
      match N.compare (2 * r) d with
      | Lt => false
      | Gt => true
      | Eq => N.odd q
      end in
    let q' := if up then N.succ q else q in
    if Z.leb 0 k && N.leb (2 ^ 1024) (q' * 2 ^ Z.to_N k) then Infinity neg
    else canonical neg q' k.

(** The Number value for the decimal [m * 10^e]. *)
Definition of_decimal (neg : bool) (m : N) (e : Z) : number :=
  if Z.leb 0 e then binary64 neg (m * 10 ^ Z.to_N e) 1
  else binary64 neg m (10 ^ Z.to_N (- e)).

(** ** White space ([WhiteSpace] and [LineTerminator] of ECMA-262)

    TAB, LF, VT, FF, CR, SP; U+00A0; U+1680; U+2000..U+200A, U+2028, U+2029,
    U+202F; U+205F; U+3000; U+FEFF, each in its UTF-8 encoding. *)

Definition ws1 (a : ascii) : bool := in_range 9 13 a || is_code 32 a.

Definition ws2 (a b : ascii) : bool := is_code 194 a && is_code 160 b.

Definition ws3 (a b c : ascii) : bool :=
  (is_code 225 a && is_code 154 b && is_code 128 c)
  || (is_code 226 a && is_code 128 b
      && (in_range 128 138 c || is_code 168 c || is_code 169 c || is_code 175 c))
  || (is_code 226 a && is_code 129 b && is_code 159 c)
  || (is_code 227 a && is_code 128 b && is_code 128 c)
  || (is_code 239 a && is_code 187 b && is_code 191 c).

(** Drops the white space a list of bytes starts with.  [fwd = false] reads
    a reversed string, where the bytes of a character come last first. *)
Fixpoint skip_ws (fwd : bool) (s : list ascii) : list ascii :=
  match s with
  | a :: s1 =>
      if ws1 a then skip_ws fwd s1
      else
        match s1 with
        | b :: s2 =>
            if (if fwd then ws2 a b else ws2 b a) then skip_ws fwd s2
            else
              match s2 with
              | c :: s3 =>
                  if (if fwd then ws3 a b c else ws3 c b a) then skip_ws fwd s3
                  else s
              | [] => s
              end
        | [] => s
        end
  | [] => []
  end.

Definition trim_chars (s : list ascii) : list ascii :=
  rev (skip_ws false (rev (skip_ws true s))).

(** [String.prototype.trim]. *)
Definition trim (s : string) : string := str (trim_chars (chars s)).

(** ** [StringToNumber] (ECMA-262, 7.1.4.1.1) *)

Definition digit (c : ascii) : option N :=
  if in_range 48 57 c then Some (code c - 48)%N else None.

Definition hex_digit (c : ascii) : option N :=
  if in_range 48 57 c then Some (code c - 48)%N
  else if in_range 97 102 c then Some (code c - 87)%N
  else if in_range 65 70 c then Some (code c - 55)%N
  else None.

Definition radix_digit (radix : N) (c : ascii) : option N :=
  match hex_digit c with
  | Some d => if N.ltb d radix then Some d else None
  | None => None
  end.

(** The value of the longest run of digits [s] starts with, the number of
    digits read, and what follows them. *)
Fixpoint digits (radix : N) (acc : N) (n : nat) (s : list ascii)
  : N * nat * list ascii :=
  match s with
  | c :: s' =>
      match radix_digit radix c with
      | Some d => digits radix (radix * acc + d)%N (S n) s'
      | None => (acc, n, s)
      end
  | [] => (acc, n, [])
  end.

(** [ExponentPart], optional: the exponent and the rest, or [None] when an
    exponent indicator is followed by no digit. *)
Definition exponent_part (s : list ascii) : option (Z * list ascii) :=
  match s with
  | c :: s1 =>
      if is_code 101 c || is_code 69 c then
        let '(neg, s2) :=
          match s1 with
          | d :: s2 =>
              if is_code 43 d then (false, s2)
              else if is_code 45 d then (true, s2)
              else (false, s1)
          | [] => (false, s1)
          end in
        match digits 10 0 0 s2 with
        | (_, O, _) => None
        | (x, _, rest) => Some (if neg then (- Z.of_N x)%Z else Z.of_N x, rest)
        end
      else Some (0%Z, s)
  | [] => Some (0%Z, s)
  end.

(** [StrUnsignedDecimalLiteral], [Infinity] apart. *)
Definition unsigned_decimal (neg : bool) (s : list ascii) : number :=
  let '(ip, ni, s1) := digits 10 0 0 s in
  let after_fraction :=
    match s1 with
    | c :: s2 =>
        if is_code 46 c then
          let '(m, nf, s3) := digits 10 ip 0 s2 in
          match ni, nf with
          | O, O => None
          | _, _ => Some (m, Z.of_nat nf, s3)
          end
        else match ni with O => None | _ => Some (ip, 0%Z, s1) end
    | [] => match ni with O => None | _ => Some (ip, 0%Z, s1) end
    end in
  match after_fraction with
  | Some (m, nf, s3) =>
      match exponent_part s3 with
      | Some (e, []) => of_decimal neg m (e - nf)
      | _ => NaN
      end
  | None => NaN
  end.

Definition decimal_literal (s : list ascii) : number :=
  let '(neg, s1) :=
    match s with
    | c :: s' =>
        if is_code 43 c then (false, s')
        else if is_code 45 c then (true, s')
        else (false, s)
    | [] => (false, s)
    end in
  if String.eqb (str s1) "Infinity" then Infinity neg
  else unsigned_decimal neg s1.

(** [NonDecimalIntegerLiteral]: 0x, 0o, 0b in either case, unsigned. *)
Definition non_decimal_literal (s : list ascii) : option number :=
  match s with
  | z :: p :: s' =>
      if is_code 48 z then
        let radix :=
          if is_code 120 p || is_code 88 p then Some 16%N
          else if is_code 111 p || is_code 79 p then Some 8%N
          else if is_code 98 p || is_code 66 p then Some 2%N
          else None in
        match radix with
        | Some r =>
            match digits r 0 0 s' with
            | (_, O, _) => Some NaN
            | (x, _, []) => Some (binary64 false x 1)
            | _ => Some NaN
            end
        | None => None
        end
      else None
  | _ => None
  end.

Definition StringToNumber (s : string) : number :=
  match trim_chars (chars s) with
  | [] => zero
  | t =>
      match non_decimal_literal t with
      | Some x => x
      | None => decimal_literal t
      end
  end.

(** ** JSON values *)

Inductive json : Type :=
| JNull
| JBool (b : bool)
| JNum (x : number)
| JStr (s : string)
| JArr (elements : list json)
| JObj (fields : list (string * json)).

(** A JavaScript value as the program meets them: [None] is [undefined]. *)
Definition value : Type := option json.

Definition undefined : value := None.

(** ** [JSON.parse] (ECMA-404)

    The text is read one byte at a time by a scanner ([lexer]) that hands
    tokens to a pushdown recogniser ([parser]); both are total, so the parse
    needs no fuel. *)

Inductive token : Type :=
| TLBrace | TRBrace | TLBracket | TRBracket | TColon | TComma
| TScalar (v : json).

Inductive frame : Type :=
| FArr (rev_elements : list json)
| FObj (rev_fields : list (string * json)) (key : option string).

Inductive mode : Type :=
| PValue (may_close : bool)
| PKey (may_close : bool)
| PColon
| PAfter
| PDone (v : json).

Definition parser : Type := mode * list frame.

(** A value is complete: it is the result, or goes into the open array or
    object. *)
Definition complete (v : json) (stack : list frame) : option parser :=
  match stack with
  | [] => Some (PDone v, [])
  | FArr es :: st => Some (PAfter, FArr (v :: es) :: st)
  | FObj fs (Some k) :: st => Some (PAfter, FObj ((k, v) :: fs) None :: st)
  | FObj _ None :: _ => None
  end.

Definition feed (p : parser) (t : token) : option parser :=
  let '(m, stack) := p in
  match m, t with
  | PValue _, TScalar v => complete v stack
  | PValue _, TLBracket => Some (PValue true, FArr [] :: stack)
  | PValue _, TLBrace => Some (PKey true, FObj [] None :: stack)
  | PValue true, TRBracket =>
      match stack with
      | FArr [] :: st => complete (JArr []) st
      | _ => None
      end
  | PKey _, TScalar (JStr k) =>
      match stack with
      | FObj fs None :: st => Some (PColon, FObj fs (Some k) :: st)
      | _ => None
      end
  | PKey true, TRBrace =>
      match stack with
      | FObj [] None :: st => complete (JObj []) st
      | _ => None
      end
  | PColon, TColon => Some (PValue false, stack)
  | PAfter, TComma =>
      match stack with
      | FArr _ :: _ => Some (PValue false, stack)
      | FObj _ None :: _ => Some (PKey false, stack)
      | _ => None
      end
  | PAfter, TRBracket =>
      match stack with
      | FArr es :: st => complete (JArr (rev es)) st
      | _ => None
      end
  | PAfter, TRBrace =>
      match stack with
      | FObj fs None :: st => complete (JObj (rev fs)) st
      | _ => None
      end
  | _, _ => None
  end.

(** UTF-8 for a code point; a lone surrogate is written as a three-byte
    sequence like any other code point below U+10000. *)
Definition utf8 (cp : N) : list ascii :=
  (if cp <? 128 then [chr cp]
   else if cp <? 2048 then [chr (192 + cp / 64); chr (128 + cp mod 64)]
   else if cp <? 65536 then
     [chr (224 + cp / 4096); chr (128 + (cp / 64) mod 64); chr (128 + cp mod 64)]
   else
     [chr (240 + cp / 262144); chr (128 + (cp / 4096) mod 64);
      chr (128 + (cp / 64) mod 64); chr (128 + cp mod 64)])%N.

Definition is_high_surrogate (u : N) : bool := (55296 <=? u)%N && (u <=? 56319)%N.

Definition is_low_surrogate (u : N) : bool := (56320 <=? u)%N && (u <=? 57343)%N.

(** The bytes read so far in a string, last first, with the high surrogate of
    a \u escape held back until what follows it is known. *)
Definition flush (acc : list ascii) (pending : option N) : list ascii :=
  match pending with
  | Some u => rev (utf8 u) ++ acc
  | None => acc
  end.

Definition add_unit (acc : list ascii) (pending : option N) (u : N)
  : list ascii * option N :=
  match pending with
  | Some h =>
      if is_low_surrogate u then
        (rev (utf8 (65536 + (h - 55296) * 1024 + (u - 56320))%N) ++ acc, None)
      else if is_high_surrogate u then (flush acc pending, Some u)
      else (rev (utf8 u) ++ flush acc pending, None)
  | None =>
      if is_high_surrogate u then (acc, Some u) else (rev (utf8 u) ++ acc, None)
  end.

Inductive numstate : Type :=
| NMinus | NZero | NInt | NDot | NFrac | NExpMark | NExpSign | NExp.

Record numacc : Type := {
  n_negative : bool;
  n_mantissa : N;
  n_fraction : Z;
  n_exp_negative : bool;
  n_exp : N;
}.

Definition numacc_value (a : numacc) : number :=
  of_decimal (n_negative a) (n_mantissa a)
    ((if n_exp_negative a then - Z.of_N (n_exp a) else Z.of_N (n_exp a))
     - n_fraction a)%Z.

Definition push_int (a : numacc) (d : N) : numacc :=
  {| n_negative := n_negative a; n_mantissa := (10 * n_mantissa a + d)%N;
     n_fraction := n_fraction a; n_exp_negative := n_exp_negative a;
     n_exp := n_exp a |}.

Definition push_frac (a : numacc) (d : N) : numacc :=
  {| n_negative := n_negative a; n_mantissa := (10 * n_mantissa a + d)%N;
     n_fraction := (n_fraction a + 1)%Z; n_exp_negative := n_exp_negative a;
     n_exp := n_exp a |}.

Definition push_exp (a : numacc) (d : N) : numacc :=
  {| n_negative := n_negative a; n_mantissa := n_mantissa a;
     n_fraction := n_fraction a; n_exp_negative := n_exp_negative a;
     n_exp := (10 * n_exp a + d)%N |}.

Definition exp_negative (a : numacc) : numacc :=
  {| n_negative := n_negative a; n_mantissa := n_mantissa a;
     n_fraction := n_fraction a; n_exp_negative := true; n_exp := n_exp a |}.

Definition numacc_start (neg : bool) (d : N) : numacc :=
  {| n_negative := neg; n_mantissa := d; n_fraction := 0;
     n_exp_negative := false; n_exp := 0 |}.

(** One more byte of a number: the next state, or [None] when the byte is no
    part of the number. *)
Definition num_step (st : numstate) (a : numacc) (c : ascii)
  : option (numstate * numacc) :=
  let is_e := is_code 101 c || is_code 69 c in
  match st with
  | NMinus =>
      match digit c with
      | Some d => Some (if N.eqb d 0 then NZero else NInt, push_int a d)
      | None => None
      end
  | NZero =>
      if is_code 46 c then Some (NDot, a)
      else if is_e then Some (NExpMark, a) else None
  | NInt =>
      match digit c with
      | Some d => Some (NInt, push_int a d)
      | None =>
          if is_code 46 c then Some (NDot, a)
          else if is_e then Some (NExpMark, a) else None
      end
  | NDot =>
      match digit c with
      | Some d => Some (NFrac, push_frac a d)
      | None => None
      end
  | NFrac =>
      match digit c with
      | Some d => Some (NFrac, push_frac a d)
      | None => if is_e then Some (NExpMark, a) else None
      end
  | NExpMark =>
      match digit c with
      | Some d => Some (NExp, push_exp a d)
      | None =>
          if is_code 43 c then Some (NExpSign, a)
          else if is_code 45 c then Some (NExpSign, exp_negative a)
          else None
      end
  | NExpSign | NExp =>
      match digit c with
      | Some d => Some (NExp, push_exp a d)
      | None => None
      end
  end.

Definition num_complete (st : numstate) : bool :=
  match st with
  | NZero | NInt | NFrac | NExp => true
  | _ => false
  end.

Inductive lexer : Type :=
| LDefault
| LStr (acc : list ascii) (pending : option N)
| LEsc (acc : list ascii) (pending : option N)
| LUni (acc : list ascii) (pending : option N) (read : nat) (u : N)
| LNum (st : numstate) (a : numacc)
| LLit (expect : list ascii) (v : json).

(** A byte met between tokens. *)
Definition lex_default (p : parser) (c : ascii) : option (lexer * parser) :=
  let tok t := match feed p t with Some p' => Some (LDefault, p') | None => None end in
  if is_code 32 c || is_code 9 c || is_code 10 c || is_code 13 c then Some (LDefault, p)
  else if is_code 123 c then tok TLBrace
  else if is_code 125 c then tok TRBrace
  else if is_code 91 c then tok TLBracket
  else if is_code 93 c then tok TRBracket
  else if is_code 58 c then tok TColon
  else if is_code 44 c then tok TComma
  else if is_code 34 c then Some (LStr [] None, p)
  else if is_code 45 c then Some (LNum NMinus (numacc_start true 0), p)
  else if is_code 116 c then Some (LLit (chars "rue") (JBool true), p)
  else if is_code 102 c then Some (LLit (chars "alse") (JBool false), p)
  else if is_code 110 c then Some (LLit (chars "ull") JNull, p)
  else
    match digit c with
    | Some d => Some (LNum (if N.eqb d 0 then NZero else NInt) (numacc_start false d), p)
    | None => None
    end.

Definition lex_step (s : lexer * parser) (c : ascii) : option (lexer * parser) :=
  let '(l, p) := s in
  match l with
  | LDefault => lex_default p c
  | LStr acc pending =>
      if is_code 34 c then
        match feed p (TScalar (JStr (str (rev (flush acc pending))))) with
        | Some p' => Some (LDefault, p')
        | None => None
        end
      else if is_code 92 c then Some (LEsc acc pending, p)
      else if N.ltb (code c) 32 then None
      else Some (LStr (c :: flush acc pending) None, p)
  | LEsc acc pending =>
      let plain (n : N) := Some (LStr (chr n :: flush acc pending) None, p) in
      if is_code 34 c then plain 34%N
      else if is_code 92 c then plain 92%N
      else if is_code 47 c then plain 47%N
      else if is_code 98 c then plain 8%N
      else if is_code 102 c then plain 12%N
      else if is_code 110 c then plain 10%N
      else if is_code 114 c then plain 13%N
      else if is_code 116 c then plain 9%N
      else if is_code 117 c then Some (LUni acc pending 0 0, p)
      else None
  | LUni acc pending k u =>
      match hex_digit c with
      | Some d =>
          let u' := (16 * u + d)%N in
          match k with
          | 3%nat => let '(acc', pending') := add_unit acc pending u' in
                     Some (LStr acc' pending', p)
          | _ => Some (LUni acc pending (S k) u', p)
          end
      | None => None
      end
  | LNum st a =>
      match num_step st a c with
      | Some (st', a') => Some (LNum st' a', p)
      | None =>
          if num_complete st then
            match feed p (TScalar (JNum (numacc_value a))) with
            | Some p' => lex_default p' c
            | None => None
            end
          else None
      end
  | LLit expect v =>
      match expect with
      | e :: rest =>
          if Ascii.eqb e c then
            match rest with
            | [] => match feed p (TScalar v) with
                    | Some p' => Some (LDefault, p')
                    | None => None
                    end
            | _ => Some (LLit rest v, p)
            end
          else None
      | [] => None
      end
  end.

Fixpoint lex_all (s : lexer * parser) (text : list ascii) : option (lexer * parser) :=
  match text with
  | c :: text' =>
      match lex_step s c with
      | Some s' => lex_all s' text'
      | None => None
      end
  | [] => Some s
  end.

(** The end of the text: a number may end there, nothing else may be open. *)
Definition lex_end (s : lexer * parser) : option json :=
  let '(l, p) := s in
  let final :=
    match l with
    | LDefault => Some p
    | LNum st a =>
        if num_complete st then feed p (TScalar (JNum (numacc_value a))) else None
    | _ => None
    end in
  match final with
  | Some (PDone v, []) => Some v
  | _ => None
  end.

(** [JSON.parse text]: the value, or [None] where it throws a SyntaxError. *)
Definition JSON_parse (text : string) : option json :=
  match lex_all (LDefault, (PValue false, [])) (chars text) with
  | Some s => lex_end s
  | None => None
  end.

(** ** Exceptions *)

Inductive error : Type :=
| TypeError
| SyntaxError
| RequestError
| MissingContent (path : string).

Inductive completion (A : Type) : Type :=
| Normal (a : A)
| Throw (e : error).

Arguments Normal {A} a.
Arguments Throw {A} e.

(** ** Property access, truthiness, [Number] *)

(** The own property [k] of an object read by [JSON.parse]: of two members
    with one name the later one stands. *)
Fixpoint lookup_field (k : string) (fs : list (string * json)) : value :=
  match fs with
  | [] => None
  | (k', v) :: fs' =>
      match lookup_field k fs' with
      | Some v' => Some v'
      | None => if String.eqb k' k then Some v else None
      end
  end.

(** [v.k], for a name [k] that no built-in prototype defines (every name the
    program reads is one): a TypeError on [undefined] and [null], the own
    property of an object, [undefined] on any other value. *)
Definition get (v : value) (k : string) : completion value :=
  match v with
  | None | Some JNull => Throw TypeError
  | Some (JObj fs) => Normal (lookup_field k fs)
  | Some _ => Normal undefined
  end.

(** [ToBoolean]. *)
Definition truthy (v : value) : bool :=
  match v with
  | None | Some JNull => false
  | Some (JBool b) => b
  | Some (JNum x) => match x with NaN => false | _ => negb (is_zero x) end
  | Some (JStr s) => negb (String.eqb s "")
  | Some (JArr _) | Some (JObj _) => true
  end.

(** [ToString] of a parsed value throws a TypeError exactly when it meets, at
    the top or inside arrays, an object with an own member [toString] (which
    cannot be called, and hides [Object.prototype.toString]). *)
Fixpoint to_string_throws (v : json) : bool :=
  match v with
  | JObj fs => match lookup_field "toString" fs with Some _ => true | None => false end
  | JArr l => existsb to_string_throws l
  | _ => false
  end.

(** [StringToNumber (ToString v)] where [ToString v] does not throw.  An
    array prints its elements separated by commas ([null] as the empty
    string), so only an array of at most one element can print a numeric
    literal; a number prints a literal of its own value ([-0] prints as 0);
    an object without [toString] of its own prints [[object Object]]. *)
Fixpoint primitive_number (v : json) : number :=
  match v with
  | JNull => zero
  | JBool b => if b then of_N 1 else zero
  | JNum x => x
  | JStr s => StringToNumber s
  | JObj _ => NaN
  | JArr [] => zero
  | JArr [e] =>
      match e with
      | JNull => zero
      | JBool _ => NaN
      | JNum x => if is_zero x then zero else x
      | JStr s => StringToNumber s
      | JObj _ => NaN
      | JArr _ => primitive_number e
      end
  | JArr _ => NaN
  end.

(** [Number(v)]. *)
Definition Number (v : value) : completion number :=
  match v with
  | None => Normal NaN
  | Some j => if to_string_throws j then Throw TypeError else Normal (primitive_number j)
  end.

(** [text.split(",")]: the pieces between the separators, at least one. *)
Fixpoint split_chars (sep : ascii) (cur : list ascii) (s : list ascii) : list string :=
  match s with
  | [] => [str (rev cur)]
  | c :: s' =>
      if Ascii.eqb c sep then str (rev cur) :: split_chars sep [] s'
      else split_chars sep (c :: cur) s'
  end.

Definition split (sep : ascii) (s : string) : list string :=
  split_chars sep [] (chars s).

(** [lines.join(sep)]. *)
Definition join (sep : string) (l : list string) : string := String.concat sep l.

End JS.

(* ===================================================================== *)
(** * Data model                                                          *)
(* ===================================================================== *)

(** ** The records of parse-diff ([File], [Chunk], [Change])

    An added or deleted line carries [ln]; an unchanged line carries [ln1]
    (old side) and [ln2] (new side).  The line parse-diff adds for a
    [\ No newline at end of file] marker copies [type], [ln], [ln1] and [ln2]
    from the change before it.  Line numbers are the non-negative integers
    parse-diff counts, which a template literal prints in decimal (as it
    does every integer below 10^21). *)

Inductive ChangeType : Type := add | del | normal.

Module Change.
Record t : Type := mk {
  type : ChangeType;
  ln : option N;
  ln1 : option N;
  ln2 : option N;
  content : string;
}.
End Change.

Module Chunk.
Record t : Type := mk {
  content : string;
  changes : list Change.t;
}.
End Chunk.

Module File.
Record t : Type := mk {
  from : option string;
  to : option string;
  chunks : list Chunk.t;
}.
End File.

(** ** [PRDetails]

    [owner], [repo] and [pull_number] are read from the event payload and
    passed on as they are. *)
Record PRDetails : Type := {
  owner : JS.value;
  repo : JS.value;
  pull_number : JS.value;
  title : string;
  description : string;
  headSha : string;
}.

(** ** A review comment [{ body, path, line }] *)
Record Comment : Type := {
  body : JS.value;
  path : string;
  line : JS.number;
}.

(* ===================================================================== *)
(** * The pure functions                                                  *)
(* ===================================================================== *)

Definition LF : string := String (JS.chr 10) EmptyString.

Definition QUOTE : string := String (JS.chr 34) EmptyString.

(** [`${x}`] for an optional string. *)
Definition template_of (x : option string) : string :=
  match x with
  | Some s => s
  | None => "undefined"
  end.

(** The callback of [chunk.changes.map] in [createPrompt]. *)
Definition change_line (c : Change.t) : string :=
  match Change.ln c with
  | Some n => pretty n +:+ " " +:+ Change.content c
  | None =>
      match Change.ln2 c with
      | Some n => pretty n +:+ " " +:+ Change.content c
      | None => Change.content c
      end
  end.

Definition diff_body (chunk : Chunk.t) : string :=
  JS.join LF (map change_line (Chunk.changes chunk)).

(** The template literal of [createPrompt], its six substitutions named. *)
Definition prompt_template (file_to title description fullFile chunk_content
    changes : string) : string :=
  JS.join LF [
    "Your task is to review pull requests. Instructions:";
    "- Provide the response in following JSON format:  {" +:+ QUOTE +:+ "reviews"
      +:+ QUOTE +:+ ": [{" +:+ QUOTE +:+ "lineNumber" +:+ QUOTE
      +:+ ":  <line_number>, " +:+ QUOTE +:+ "reviewComment" +:+ QUOTE +:+ ": "
      +:+ QUOTE +:+ "<review comment>" +:+ QUOTE +:+ "}]}";
    "- Do not give positive comments or compliments.";
    "- Provide comments and suggestions ONLY if there is something to improve, otherwise "
      +:+ QUOTE +:+ "reviews" +:+ QUOTE +:+ " should be an empty array.";
    "- Write the comment in GitHub Markdown format.";
    "- Use the given description only for the overall context and only comment the code.";
    "- IMPORTANT: NEVER suggest adding comments to the code.";
    "";
    "You are reviewing changes in file: " +:+ file_to;
    "";
    "Pull request title: " +:+ title;
    "Pull request description:";
    "---";
    description;
    "---";
    "";
    "Here is the full content of the file after the changes:";
    "```ts";
    fullFile;
    "```";
    "";
    "And here is the diff to focus on:";
    "```diff";
    chunk_content;
    changes;
    "";
    "```";
    ""
  ].

(** [createPrompt] (lines 131-175). *)
Definition createPrompt (file : File.t) (chunk : Chunk.t) (prDetails : PRDetails)
    (fullFile : string) : string :=
  prompt_template (template_of (File.to file)) (title prDetails)
    (description prDetails) fullFile (Chunk.content chunk) (diff_body chunk).

Definition bind_completion {A B : Type} (m : JS.completion A)
    (k : A -> JS.completion B) : JS.completion B :=
  match m with
  | JS.Normal a => k a
  | JS.Throw e => JS.Throw e
  end.

Declare Scope completion_scope.
Delimit Scope completion_scope with completion.
Notation "'let!' x ':=' m 'in' k" := (bind_completion m (fun x => k))
  (at level 10, x name, m at level 100, k at level 200) : completion_scope.

(** [!file.to]. *)
Definition truthy_path (p : option string) : option string :=
  match p with
  | Some s => if String.eqb s "" then None else Some s
  | None => None
  end.

(** [file.to === "/dev/null"]. *)
Definition is_dev_null (p : option string) : bool :=
  match p with
  | Some s => String.eqb s "/dev/null"
  | None => false
  end.

(** The callback of [aiResponses.flatMap] in [createComment]. *)
Definition comment_of (file : File.t) (aiResponse : JS.json)
  : JS.completion (list Comment) :=
  match truthy_path (File.to file) with
  | None => JS.Normal []
  | Some p =>
      (let! b := JS.get (Some aiResponse) "reviewComment" in
       let! l := JS.get (Some aiResponse) "lineNumber" in
       let! n := JS.Number l in
       JS.Normal [ {| body := b; path := p; line := n |} ])%completion
  end.

Fixpoint flatMap {A B : Type} (f : A -> JS.completion (list B)) (l : list A)
  : JS.completion (list B) :=
  match l with
  | [] => JS.Normal []
  | a :: l' =>
      (let! bs := f a in
       let! rest := flatMap f l' in
       JS.Normal (bs ++ rest))%completion
  end.

(** [createComment] (lines 195-208): [aiResponses.flatMap] is a function
    only on an array. *)
Definition createComment (file : File.t) (chunk : Chunk.t) (aiResponses : JS.value)
  : JS.completion (list Comment) :=
  match aiResponses with
  | Some (JS.JArr l) => flatMap (comment_of file) l
  | _ => JS.Throw JS.TypeError
  end.

(* ===================================================================== *)
(** * The world outside the program                                       *)
(* ===================================================================== *)

(** What the GitHub client answers to [pulls.get]. *)
Record PullRequest : Type := {
  pr_title : option string;
  pr_body : option string;
  pr_head_sha : string;
}.

(** What the completion client answers: [choices[i].message.content]. *)
Record Message : Type := { message_content : option string }.

Record Choice : Type := { choice_message : option Message }.

Record ChatCompletion : Type := { choices : list Choice }.

Inductive level : Type := Log | Warn | Error.

Inductive message : Type :=
| UnsupportedEvent (name : option string)
| NoDiffFound
| UnableToFetch (path : string) (e : JS.error)
| AIError (e : JS.error)
| UnhandledError (e : JS.error).

(** What a run does that can be seen from outside, in the order it does it. *)
Inductive event : Type :=
| ReadFile (path : string)
| PullsGet (owner repo pull_number : JS.value)
| PullsGetDiff (owner repo pull_number : JS.value)
| CompareCommits (owner repo base head : JS.value)
| GetContent (owner repo : JS.value) (path ref : string)
| ChatCreate (prompt : string)
| CreateReview (owner repo pull_number : JS.value) (comments : list Comment)
    (disposition : string)
| Console (l : level) (m : message)
| Exit (status : Z).

Definition trace : Type := list event.

(** The environment, the services and the libraries of a run.  A service
    answers from the request and from all that happened before it; [None] is
    a rejected promise (or a thrown exception, for the file read).

    - [GITHUB_EVENT_PATH], [GITHUB_EVENT_NAME]: [process.env];
    - [exclude]: [core.getInput("exclude")];
    - [readFileSync path]: the text of the file;
    - [pulls_get]: [data] of [octokit.pulls.get];
    - [pulls_get_diff]: [data] of the same request in diff format, [None]
      inside when it is [null];
    - [compareCommits]: [String(response.data)] of [octokit.repos.compareCommits];
    - [getContent]: [data.content] of [octokit.repos.getContent], [None]
      inside when [data] has no [content];
    - [chat_create]: the completion of [client.chat.completions.create];
    - [createReview]: whether [octokit.pulls.createReview] resolves;
    - [parseDiff], [minimatch]: the libraries' functions, not modelled
      further;
    - [base64_decode s]: [Buffer.from(s, "base64").toString("utf8")];
    - [inherited_text k]: what a template literal prints for the member [k]
      of [Object.prototype]. *)
Record World : Type := {
  GITHUB_EVENT_PATH : option string;
  GITHUB_EVENT_NAME : option string;
  exclude : string;
  readFileSync : trace -> string -> option string;
  pulls_get : trace -> JS.value -> JS.value -> JS.value -> option PullRequest;
  pulls_get_diff : trace -> JS.value -> JS.value -> JS.value -> option (option string);
  compareCommits : trace -> JS.value -> JS.value -> JS.value -> JS.value -> option string;
  getContent : trace -> JS.value -> JS.value -> string -> string -> option (option string);
  chat_create : trace -> string -> option ChatCompletion;
  createReview : trace -> JS.value -> JS.value -> JS.value -> list Comment -> bool;
  parseDiff : string -> list File.t;
  minimatch : string -> string -> bool;
  base64_decode : string -> string;
  inherited_text : string -> string;
}.

(** ** Computations: a trace and an exception *)

Definition M (A : Type) : Type := trace -> trace * JS.completion A.

Definition ret {A : Type} (a : A) : M A := fun tr => (tr, JS.Normal a).

Definition throw {A : Type} (e : JS.error) : M A := fun tr => (tr, JS.Throw e).

Definition bind {A B : Type} (m : M A) (k : A -> M B) : M B :=
  fun tr =>
    match m tr with
    | (tr', JS.Normal a) => k a tr'
    | (tr', JS.Throw e) => (tr', JS.Throw e)
    end.

(** [try { m } catch (e) { handler e }]. *)
Definition try_catch {A : Type} (m : M A) (handler : JS.error -> M A) : M A :=
  fun tr =>
    match m tr with
    | (tr', JS.Normal a) => (tr', JS.Normal a)
    | (tr', JS.Throw e) => handler e tr'
    end.

Definition lift {A : Type} (c : JS.completion A) : M A := fun tr => (tr, c).

Definition emit (e : event) : M unit := fun tr => (tr ++ [e], JS.Normal tt).

(** A request: it is recorded, and the world answers from what came before. *)
Definition request {A : Type} (e : event) (answer : trace -> option A) : M A :=
  fun tr =>
    (tr ++ [e],
     match answer tr with
     | Some a => JS.Normal a
     | None => JS.Throw JS.RequestError
     end).

Declare Scope M_scope.
Delimit Scope M_scope with M.
Notation "'let*' x ':=' m 'in' k" := (bind m (fun x => k))
  (at level 10, x name, m at level 100, k at level 200) : M_scope.
Notation "m ';;' k" := (bind m (fun _ => k))
  (at level 100, k at level 200, right associativity) : M_scope.

(* ===================================================================== *)
(** * The program                                                         *)
(* ===================================================================== *)

Section Program.

Variable w : World.

Local Open Scope M_scope.

(** [JSON.parse(text)]. *)
Definition parse (text : string) : M JS.json :=
  match JS.JSON_parse text with
  | Some v => ret v
  | None => throw JS.SyntaxError
  end.

(** [getPRDetails] (lines 36-53): the payload is read and parsed, its
    members are read in the order the request's arguments name them, and the
    pull request is fetched. *)
Definition getPRDetails : M PRDetails :=
  let* text := request (ReadFile (default "" (truthy_path (GITHUB_EVENT_PATH w))))
                 (fun tr => readFileSync w tr (default "" (truthy_path (GITHUB_EVENT_PATH w)))) in
  let* payload := parse text in
  let* repository := lift (JS.get (Some payload) "repository") in
  let* number := lift (JS.get (Some payload) "number") in
  let* repository_owner := lift (JS.get repository "owner") in
  let* login := lift (JS.get repository_owner "login") in
  let* name := lift (JS.get repository "name") in
  let* prResponse := request (PullsGet login name number)
                       (fun tr => pulls_get w tr login name number) in
  ret {| owner := login;
         repo := name;
         pull_number := number;
         title := default "" (pr_title prResponse);
         description := default "" (pr_body prResponse);
         headSha := pr_head_sha prResponse |}.

(** [getDiff] (lines 55-68). *)
Definition getDiff (owner repo pull_number : JS.value) : M (option string) :=
  request (PullsGetDiff owner repo pull_number)
    (fun tr => pulls_get_diff w tr owner repo pull_number).

(** [getFullFileContent] (lines 70-88). *)
Definition getFullFileContent (owner repo : JS.value) (path ref : string) : M string :=
  let* data := request (GetContent owner repo path ref)
                 (fun tr => getContent w tr owner repo path ref) in
  match data with
  | None => throw (JS.MissingContent path)
  | Some encoded => ret (base64_decode w encoded)
  end.

(** [response.choices[0].message?.content?.trim() || "{}"]. *)
Definition reply_text (response : ChatCompletion) : JS.completion string :=
  match choices response with
  | [] => JS.Throw JS.TypeError
  | choice :: _ =>
      let trimmed :=
        match choice_message choice with
        | Some m => JS.trim <$> message_content m
        | None => None
        end in
      JS.Normal (default "{}" (truthy_path trimmed))
  end.

(** [getAIResponse] (lines 177-193): [null] after a caught error, else the
    member [reviews] of the parsed reply, whatever it is. *)
Definition getAIResponse (prompt : string) : M JS.value :=
  try_catch
    (let* response := request (ChatCreate prompt) (fun tr => chat_create w tr prompt) in
     let* res := lift (reply_text response) in
     let* parsed := parse res in
     lift (JS.get (Some parsed) "reviews"))
    (fun error => emit (Console Error (AIError error)) ;; ret (Some JS.JNull)).

(** ** [fileCache]: an object literal used as a map from path to text

    A name that [Object.prototype] defines reads as that member, which is
    truthy, so such a path is never fetched nor stored. *)

Definition Object_prototype : list string :=
  [ "constructor"; "__defineGetter__"; "__defineSetter__"; "hasOwnProperty";
    "__lookupGetter__"; "__lookupSetter__"; "isPrototypeOf";
    "propertyIsEnumerable"; "toString"; "valueOf"; "__proto__"; "toLocaleString" ].

Definition inherited (k : string) : bool := existsb (String.eqb k) Object_prototype.

(** [!fileCache[k]] is false. *)
Definition cache_hit (fileCache : gmap string string) (k : string) : bool :=
  match fileCache !! k with
  | Some s => negb (String.eqb s "")
  | None => inherited k
  end.

(** [`${fileCache[k]}`]. *)
Definition cache_text (fileCache : gmap string string) (k : string) : string :=
  match fileCache !! k with
  | Some s => s
  | None => if inherited k then inherited_text w k else "undefined"
  end.

(** The body of [for (const chunk of file.chunks)]. *)
Definition analyzeChunk (file : File.t) (prDetails : PRDetails) (fullFile : string)
    (comments : list Comment) (chunk : Chunk.t) : M (list Comment) :=
  let prompt := createPrompt file chunk prDetails fullFile in
  let* aiResponse := getAIResponse prompt in
  if JS.truthy aiResponse then
    let* newComments := lift (createComment file chunk aiResponse) in
    ret (comments ++ newComments)
  else ret comments.

Fixpoint analyzeChunks (file : File.t) (prDetails : PRDetails) (fullFile : string)
    (comments : list Comment) (chunks : list Chunk.t) : M (list Comment) :=
  match chunks with
  | [] => ret comments
  | chunk :: rest =>
      let* comments' := analyzeChunk file prDetails fullFile comments chunk in
      analyzeChunks file prDetails fullFile comments' rest
  end.

(** The [if (!fileCache[file.to])] block: the cache after it. *)
Definition fillCache (prDetails : PRDetails) (fileCache : gmap string string)
    (to : string) : M (gmap string string) :=
  if cache_hit fileCache to then ret fileCache
  else
    try_catch
      (let* text := getFullFileContent (owner prDetails) (repo prDetails) to
                      (headSha prDetails) in
       ret (<[to := text]> fileCache))
      (fun e => emit (Console Warn (UnableToFetch to e)) ;;
                ret (<[to := ""]> fileCache)).

(** The [for (const file of parsedDiff)] loop, from the state ([fileCache],
    [comments]) it has reached. *)
Fixpoint analyzeFiles (prDetails : PRDetails) (fileCache : gmap string string)
    (comments : list Comment) (files : list File.t) : M (list Comment) :=
  match files with
  | [] => ret comments
  | file :: rest =>
      if is_dev_null (File.to file) then analyzeFiles prDetails fileCache comments rest
      else
        match truthy_path (File.to file) with
        | None => analyzeFiles prDetails fileCache comments rest
        | Some p =>
            let* fileCache' := fillCache prDetails fileCache p in
            let* comments' :=
              analyzeChunks file prDetails (cache_text fileCache' p) comments
                (File.chunks file) in
            analyzeFiles prDetails fileCache' comments' rest
        end
  end.

(** [analyzeCode] (lines 90-129): the loop from an empty cache and no
    comment. *)
Definition analyzeCode (parsedDiff : list File.t) (prDetails : PRDetails)
  : M (list Comment) :=
  analyzeFiles prDetails ∅ [] parsedDiff.

(** [createReviewComment] (lines 210-223). *)
Definition createReviewComment (owner repo pull_number : JS.value)
    (comments : list Comment) : M unit :=
  request (CreateReview owner repo pull_number comments "COMMENT")
    (fun tr => if createReview w tr owner repo pull_number comments then Some tt else None).

(** [core.getInput("exclude").split(",").map((s) => s.trim())]. *)
Definition excludePatterns : list string := map JS.trim (JS.split "," (exclude w)).

(** The exclusion filter of [main]. *)
Definition filteredDiff (patterns : list string) (parsedDiff : list File.t)
  : list File.t :=
  List.filter
    (fun file => negb (existsb (fun pattern => minimatch w (default "" (File.to file)) pattern) patterns))
    parsedDiff.

(** [eventData.action === name]. *)
Definition is_action (action : JS.value) (name : string) : bool :=
  match action with
  | Some (JS.JStr s) => String.eqb s name
  | _ => false
  end.

(** [main] from [if (!diff)] on. *)
Definition main_with_diff (prDetails : PRDetails) (diff : option string) : M unit :=
  match truthy_path diff with
  | None => emit (Console Log NoDiffFound)
  | Some d =>
      let parsedDiff := parseDiff w d in
      let filtered := filteredDiff excludePatterns parsedDiff in
      let* comments := analyzeCode filtered prDetails in
      match comments with
      | [] => ret tt
      | _ :: _ =>
          createReviewComment (owner prDetails) (repo prDetails)
            (pull_number prDetails) comments
      end
  end.

(** [main] (lines 225-276), up to the choice of the diff. *)
Definition main : M unit :=
  let* prDetails := getPRDetails in
  let* text := request (ReadFile (default "" (GITHUB_EVENT_PATH w)))
                 (fun tr => readFileSync w tr (default "" (GITHUB_EVENT_PATH w))) in
  let* eventData := parse text in
  let* action := lift (JS.get (Some eventData) "action") in
  if is_action action "opened" then
    let* diff := getDiff (owner prDetails) (repo prDetails) (pull_number prDetails) in
    main_with_diff prDetails diff
  else if is_action action "synchronize" then
    let* before := lift (JS.get (Some eventData) "before") in
    let* after := lift (JS.get (Some eventData) "after") in
    let* data := request (CompareCommits (owner prDetails) (repo prDetails) before after)
                   (fun tr => compareCommits w tr (owner prDetails) (repo prDetails)
                                before after) in
    main_with_diff prDetails (Some data)
  else emit (Console Log (UnsupportedEvent (GITHUB_EVENT_NAME w))).

(** [main().catch(...)]: what the process does from start to exit. *)
Definition run : trace :=
  match main [] with
  | (tr, JS.Normal _) => tr
  | (tr, JS.Throw e) => tr ++ [Console Error (UnhandledError e); Exit 1]
  end.

End Program.

(* ===================================================================== *)
(** * Specification vocabulary                                            *)
(* ===================================================================== *)

(** The spec gives a line a [newLineNumber] (added and context lines) and an
    [oldLineNumber] (removed and context lines).  In parse-diff's records the
    new-side number of an added line and the old-side number of a removed
    line are both the field [ln]; a context line has them in [ln2] and
    [ln1]. *)
Definition newLineNumber (c : Change.t) : option N :=
  match Change.type c with
  | add => Change.ln c
  | normal => Change.ln2 c
  | del => None
  end.

Definition oldLineNumber (c : Change.t) : option N :=
  match Change.type c with
  | del => Change.ln c
  | normal => Change.ln1 c
  | add => None
  end.

(** The spec's words: the new number if present, else the old one, else no
    prefix. *)
Definition numbered_line (c : Change.t) : string :=
  match newLineNumber c with
  | Some n => pretty n +:+ " " +:+ Change.content c
  | None =>
      match oldLineNumber c with
      | Some n => pretty n +:+ " " +:+ Change.content c
      | None => Change.content c
      end
  end.

(** The fields parse-diff sets per kind of change: [ln] alone on an added or
    deleted line; [ln1] and [ln2], together, on an unchanged one. *)
Definition parse_diff_shape (c : Change.t) : Prop :=
  match Change.type c with
  | add | del => Change.ln1 c = None /\ Change.ln2 c = None
  | normal => Change.ln c = None /\ (Change.ln2 c = None -> Change.ln1 c = None)
  end.

(** The diff block of a prompt in the spec's words: the opening fence, the
    header of the hunk, the lines of the hunk, each numbered as
    [numbered_line] says, joined by newlines, then an empty line and the
    closing fence. *)
Definition numbered_diff_block (chunk : Chunk.t) : string :=
  "```diff" +:+ LF +:+ Chunk.content chunk +:+ LF
  +:+ JS.join LF (map numbered_line (Chunk.changes chunk))
  +:+ LF +:+ LF +:+ "```" +:+ LF.

Definition decimal_digit (c : ascii) : Prop := (48 <= JS.code c <= 57)%N.

Definition decimal_step (a : N) (c : ascii) : N := (10 * a + (JS.code c - 48))%N.

(** A finding as a completion returns one: an object, with [l] and [b] its
    members [lineNumber] and [reviewComment] ([undefined] when missing). *)
Definition finding (e : JS.json) (l b : JS.value) : Prop :=
  exists fs, e = JS.JObj fs
             /\ JS.lookup_field "lineNumber" fs = l
             /\ JS.lookup_field "reviewComment" fs = b.

(** [c] is the anchor of finding [e] on path [p]: its line is
    [Number(lineNumber)], which is the line number itself when that is a
    number, what [StringToNumber] reads when it is a string, and so the
    integer [n] when the line number is the number [n] or its decimal numeral
    ([n] at most 2^53, where a number is its own binary64 value). *)
Definition anchor_of (p : string) (e : JS.json) (c : Comment) : Prop :=
  exists l b, finding e l b
              /\ path c = p
              /\ body c = b
              /\ JS.Number l = JS.Normal (line c)
              /\ (forall n : N,
                    (n <= 2 ^ 53)%N ->
                    l = Some (JS.JNum (JS.of_N n)) \/ l = Some (JS.JStr (pretty n)) ->
                    line c = JS.of_N n)
              /\ (forall x, l = Some (JS.JNum x) -> line c = x)
              /\ (forall s, l = Some (JS.JStr s) -> line c = JS.StringToNumber s).

(** [Number(lineNumber)] does not throw: the line number is no object with a
    [toString] member of its own, nor an array holding one. *)
Definition coercible_finding (e : JS.json) : Prop :=
  exists l b n, finding e l b /\ JS.Number l = JS.Normal n.

(** What [getAIResponse] returns after logging a caught error. *)
Definition logged_failure (tr : trace) (prompt : string) (e : JS.error)
  : trace * JS.completion JS.value :=
  (tr ++ [ChatCreate prompt; Console Error (AIError e)], JS.Normal (Some JS.JNull)).

(** The content of the first choice is absent, empty, or white space only. *)
Definition blank_content (choice : Choice) : Prop :=
  match choice_message choice with
  | None => True
  | Some m =>
      match message_content m with
      | None => True
      | Some s => JS.trim s = ""
      end
  end.

(** [emits m P Q]: from any trace, [m] only appends events, all of which
    satisfy [P], and a value it returns satisfies [Q]. *)
Definition emits {A : Type} (m : M A) (P : event -> Prop) (Q : A -> Prop) : Prop :=
  forall tr, exists d,
    (m tr).1 = tr ++ d
    /\ Forall P d
    /\ match (m tr).2 with JS.Normal a => Q a | JS.Throw _ => True end.

Definition anything {A : Type} (_ : A) : Prop := True.

(** The spec's words: the target of the file change is null or the deletion
    sentinel. *)
Definition deleted_or_absent (file : File.t) : Prop :=
  File.to file = None \/ File.to file = Some "/dev/null".

(** The file changes [analyzeCode] goes into: those that pass both guards at
    the head of its loop. *)
Definition reviewed (file : File.t) : bool :=
  negb (is_dev_null (File.to file)) && bool_decide (is_Some (truthy_path (File.to file))).

Definition good_path (c : Comment) : Prop := path c <> "/dev/null" /\ path c <> "".

(** What the review loop over [files0] may do: fetch the content of a
    reviewed file's target, send the prompt of a hunk of a reviewed file, and
    write to the console. *)
Definition review_event (prDetails : PRDetails) (files0 : list File.t) (e : event)
  : Prop :=
  match e with
  | ChatCreate prompt =>
      exists file chunk fullFile,
        file ∈ files0 /\ reviewed file = true /\ chunk ∈ File.chunks file
        /\ prompt = createPrompt file chunk prDetails fullFile
  | GetContent _ _ p _ =>
      exists file, file ∈ files0 /\ reviewed file = true /\ File.to file = Some p
  | Console _ _ => True
  | _ => False
  end.

(** The anchors it may produce: on the target of a reviewed file. *)
Definition review_anchor (files0 : list File.t) (c : Comment) : Prop :=
  exists file, file ∈ files0 /\ reviewed file = true /\ File.to file = Some (path c).

Definition is_review (e : event) : bool :=
  match e with
  | CreateReview _ _ _ _ _ => true
  | _ => false
  end.

(** The review-creation requests of a trace. *)
Definition submissions (tr : trace) : list event := List.filter is_review tr.

Definition quiet (e : event) : Prop := is_review e = false.

(** No submission, or exactly one: a review of disposition COMMENT with at
    least one anchor, none of them on a deleted or absent path. *)
Definition one_review_at_most (l : list event) : Prop :=
  l = [] \/ exists o r n cs,
              cs <> [] /\ Forall good_path cs /\ l = [CreateReview o r n cs "COMMENT"].

Definition submits_once {A : Type} (m : M A) : Prop :=
  forall tr, submissions tr = [] -> one_review_at_most (submissions (m tr).1).

(** The events of a run that ends at the routing of the event: reads of the
    payload, the pull-request request, console output, the exit. *)
Definition routing_only (e : event) : Prop :=
  match e with
  | ReadFile _ | PullsGet _ _ _ | Console _ _ | Exit _ => True
  | _ => False
  end.

Definition is_completion_request (e : event) : bool :=
  match e with
  | ChatCreate _ => true
  | _ => false
  end.

Definition is_content_request (e : event) : bool :=
  match e with
  | GetContent _ _ _ _ => true
  | _ => false
  end.

(** ** The order of a run

    Where a run stands, by what it has asked for so far. *)
Inductive stage : Type :=
| Start
| PayloadRead
| PullRequestKnown
| EventRead
| Analysing
| Submitted
| Exited.

(** The one event a stage allows next, and the stage after it.  Console
    output is allowed anywhere before the exit. *)
Definition advance (s : stage) (e : event) : option stage :=
  match s, e with
  | Exited, _ => None
  | _, Exit _ => Some Exited
  | _, Console _ _ => Some s
  | Start, ReadFile _ => Some PayloadRead
  | PayloadRead, PullsGet _ _ _ => Some PullRequestKnown
  | PullRequestKnown, ReadFile _ => Some EventRead
  | EventRead, PullsGetDiff _ _ _ => Some Analysing
  | EventRead, CompareCommits _ _ _ _ => Some Analysing
  | Analysing, GetContent _ _ _ _ => Some Analysing
  | Analysing, ChatCreate _ => Some Analysing
  | Analysing, CreateReview _ _ _ _ _ => Some Submitted
  | _, _ => None
  end.

Fixpoint advance_all (s : stage) (tr : trace) : option stage :=
  match tr with
  | [] => Some s
  | e :: tr' =>
      match advance s e with
      | Some s' => advance_all s' tr'
      | None => None
      end
  end.

(** [leads s m T]: run after a trace that stands at stage [s], [m] keeps the
    trace in order, does not exit, and returns at a stage and with a value
    that [T] relates. *)
Definition leads {A : Type} (s : stage) (m : M A) (T : stage -> A -> Prop) : Prop :=
  forall s0 tr,
    advance_all s0 tr = Some s ->
    exists s', advance_all s0 (m tr).1 = Some s'
               /\ s' <> Exited
               /\ match (m tr).2 with JS.Normal a => T s' a | JS.Throw _ => True end.

(** The events of the review loop, each content request in the repository
    and at the head commit of the pull request. *)
Definition analysis_event (prDetails : PRDetails) (e : event) : Prop :=
  match e with
  | GetContent o r _ ref =>
      o = owner prDetails /\ r = repo prDetails /\ ref = headSha prDetails
  | ChatCreate _ | Console _ _ => True
  | _ => False
  end.

(** The events from [if (!diff)] on: those of the review loop and the
    submission of a review to the pull request. *)
Definition review_or_analysis (prDetails : PRDetails) (e : event) : Prop :=
  match e with
  | CreateReview o r n _ disposition =>
      o = owner prDetails /\ r = repo prDetails /\ n = pull_number prDetails
      /\ disposition = "COMMENT"
  | _ => analysis_event prDetails e
  end.

(** [repository.owner.login], [repository.name] and [number] of a payload, as
    [getPRDetails] reads them. *)
Definition payload_coordinates (payload : JS.json)
  : JS.completion (JS.value * JS.value * JS.value) :=
  (let! repository := JS.get (Some payload) "repository" in
   let! number := JS.get (Some payload) "number" in
   let! repository_owner := JS.get repository "owner" in
   let! login := JS.get repository_owner "login" in
   let! name := JS.get repository "name" in
   JS.Normal (login, name, number))%completion.

(** What a run on an [opened] event with the given payload may do: every
    request names the repository and the pull request of the payload, and the
    diff is that of the pull request. *)
Definition opened_event (payload : JS.json) (e : event) : Prop :=
  match e with
  | PullsGet o r n | PullsGetDiff o r n | CreateReview o r n _ _ =>
      payload_coordinates payload = JS.Normal (o, r, n)
  | GetContent o r _ _ => exists n, payload_coordinates payload = JS.Normal (o, r, n)
  | CompareCommits _ _ _ _ => False
  | ReadFile _ | ChatCreate _ | Console _ _ | Exit _ => True
  end.

(** The same on a [synchronize] event: the diff is that of the commit range
    from [before] to [after]. *)
Definition synchronize_event (payload : JS.json) (e : event) : Prop :=
  match e with
  | PullsGet o r n | CreateReview o r n _ _ =>
      payload_coordinates payload = JS.Normal (o, r, n)
  | GetContent o r _ _ => exists n, payload_coordinates payload = JS.Normal (o, r, n)
  | CompareCommits o r base head =>
      (exists n, payload_coordinates payload = JS.Normal (o, r, n))
      /\ JS.get (Some payload) "before" = JS.Normal base
      /\ JS.get (Some payload) "after" = JS.Normal head
  | PullsGetDiff _ _ _ => False
  | ReadFile _ | ChatCreate _ | Console _ _ | Exit _ => True
  end.

(** The paths of the content requests of a trace, in order. *)
Definition requested_paths (tr : trace) : list string :=
  omap (fun e => match e with GetContent _ _ p _ => Some p | _ => None end) tr.

(** A text the cache block may store under [p]: the empty string, or what
    some answer of the world to the content request for [p] decodes to. *)
Definition stored_text (w : World) (prDetails : PRDetails) (p text : string) : Prop :=
  text = ""
  \/ exists pre encoded,
       getContent w pre (owner prDetails) (repo prDetails) p (headSha prDetails)
       = Some (Some encoded)
       /\ text = base64_decode w encoded.

(** What the cache block stores for a content request sent after the trace
    [pre]: the path, and the text the answer decodes to, or the empty string
    when the request fails or the answer has no content. *)
Definition answered_text (w : World) (pre : trace) (e : event) : option (string * string) :=
  match e with
  | GetContent o r p ref =>
      Some (p, match getContent w pre o r p ref with
               | Some (Some encoded) => base64_decode w encoded
               | _ => ""
               end)
  | _ => None
  end.

(** The texts stored by the content requests among the events [d] that
    follow the trace [pre], by path; of two requests for one path the later
    one stands. *)
Fixpoint stored_texts (w : World) (pre d : trace) (stored : gmap string string)
  : gmap string string :=
  match d with
  | [] => stored
  | e :: d' =>
      stored_texts w (pre ++ [e]) d'
        match answered_text w pre e with
        | Some (p, text) => <[p := text]> stored
        | None => stored
        end
  end.

(** [prompt], sent after the events [before] that follow the trace [tr], is
    the prompt of a hunk of a file change of [files0], and its full file is
    the text that the last content request before it for the target of that
    file change stored.  For a target that names a member of
    [Object.prototype] no text is stored, and the full file is the text of
    the inherited member. *)
Definition carries_stored_text (w : World) (prDetails : PRDetails) (files0 : list File.t)
    (tr before : trace) (prompt : string) : Prop :=
  exists file chunk p,
    file ∈ files0 /\ chunk ∈ File.chunks file /\ File.to file = Some p
    /\ if inherited p
       then stored_texts w tr before ∅ !! p = None
            /\ prompt = createPrompt file chunk prDetails (inherited_text w p)
       else exists text,
              stored_texts w tr before ∅ !! p = Some text
              /\ prompt = createPrompt file chunk prDetails text.

(** Among the events [d] that follow the trace [tr], no content request is
    for a path that names a member of [Object.prototype], and every prompt
    carries the text stored for its file. *)
Definition full_files_are_stored_texts (w : World) (prDetails : PRDetails)
    (files0 : list File.t) (tr d : trace) : Prop :=
  Forall (fun e => match e with
                   | GetContent _ _ p _ => inherited p = false
                   | _ => True
                   end) d
  /\ forall d1 prompt d2,
       d = d1 ++ ChatCreate prompt :: d2 ->
       carries_stored_text w prDetails files0 tr d1 prompt.

(** [e], sent after the trace [pre], is a content request for [p] that the
    world answers with a text that decodes to a non-empty string. *)
Definition fetched (w : World) (pre : trace) (e : event) (p : string) : Prop :=
  exists o r ref encoded,
    e = GetContent o r p ref
    /\ getContent w pre o r p ref = Some (Some encoded)
    /\ base64_decode w encoded <> "".

(** In the events [d] that follow the trace [tr], no path is requested again
    after a request that fetched a non-empty text for it. *)
Definition memoised (w : World) (tr d : trace) : Prop :=
  forall d1 e d2 p,
    d = d1 ++ e :: d2 -> fetched w (tr ++ d1) e p -> p ∉ requested_paths d2.

(** The target paths of the reviewed file changes, in order. *)
Definition reviewed_targets (files : list File.t) : list string :=
  omap (fun file => if reviewed file then File.to file else None) files.

(** The hunks of the reviewed file changes, in the order of the diff. *)
Definition hunks (files : list File.t) : list (File.t * Chunk.t) :=
  flat_map (fun file => map (pair file) (File.chunks file)) (List.filter reviewed files).

(** An entry of [reviews] on which the callback of [createComment] throws:
    [null], or an entry whose line number [Number] cannot convert. *)
Definition unreadable_entry (e : JS.json) : Prop :=
  e = JS.JNull
  \/ exists l, JS.get (Some e) "lineNumber" = JS.Normal l
               /\ JS.Number l = JS.Throw JS.TypeError.

(** A file change that is reviewed under the given exclusion patterns. *)
Definition selected (w : World) (patterns : list string) (file : File.t) : bool :=
  reviewed file
  && negb (existsb (fun pattern => minimatch w (default "" (File.to file)) pattern) patterns).

(** What [main] may do from [if (!diff)] on, given the parsed diff: every
    content request, completion request and anchor of the review is for a
    file change that is reviewed and that no exclusion pattern matches. *)
Definition selected_event (w : World) (prDetails : PRDetails) (parsed : list File.t)
    (e : event) : Prop :=
  match e with
  | CreateReview _ _ _ comments _ =>
      Forall (review_anchor (List.filter (selected w (excludePatterns w)) parsed)) comments
  | _ => review_event prDetails (List.filter (selected w (excludePatterns w)) parsed) e
  end.

(* ===================================================================== *)
(** * Sample data for closed runs                                         *)
(* ===================================================================== *)

Definition quoted (s : string) : string := QUOTE +:+ s +:+ QUOTE.

(** The payload of a pull-request event with the given action. *)
Definition sample_payload (action : string) : string :=
  "{" +:+ quoted "action" +:+ ":" +:+ quoted action +:+ ","
  +:+ quoted "number" +:+ ":7,"
  +:+ quoted "repository" +:+ ":{" +:+ quoted "name" +:+ ":" +:+ quoted "repo" +:+ ","
  +:+ quoted "owner" +:+ ":{" +:+ quoted "login" +:+ ":" +:+ quoted "octo" +:+ "}}}".

Definition sample_event_path : string := "/github/workflow/event.json".

(** A finding [{"lineNumber": l, "reviewComment": b}] with two strings. *)
Definition sample_finding (l b : string) : JS.json :=
  JS.JObj [("lineNumber", JS.JStr l); ("reviewComment", JS.JStr b)].

Definition sample_chunk : Chunk.t :=
  Chunk.mk "@@ -41,2 +41,2 @@"
    [ Change.mk normal None (Some 41%N) (Some 41%N) " const a = 1;";
      Change.mk del (Some 42%N) None None "-const b = 2;";
      Change.mk add (Some 42%N) None None "+const b = 42;" ].

(** A hunk with a line of each kind: unchanged, deleted, added, and the
    marker parse-diff keeps without any line number. *)
Definition marked_chunk : Chunk.t :=
  Chunk.mk "@@ -41,2 +41,2 @@"
    [ Change.mk normal None (Some 41%N) (Some 41%N) " const a = 1;";
      Change.mk del (Some 42%N) None None "-const b = 2;";
      Change.mk add (Some 42%N) None None "+const b = 42;";
      Change.mk normal None None None "\ No newline at end of file" ].

Definition sample_file : File.t := File.mk (Some "src/a.ts") (Some "src/a.ts") [sample_chunk].

Definition deleted_file : File.t := File.mk (Some "src/old.ts") (Some "/dev/null") [sample_chunk].

Definition absent_file : File.t := File.mk (Some "src/gone.ts") None [sample_chunk].

Definition sample_details : PRDetails :=
  {| owner := Some (JS.JStr "octo"); repo := Some (JS.JStr "repo");
     pull_number := Some (JS.JNum (JS.of_N 7)); title := "Fix b";
     description := ""; headSha := "abc123" |}.

(** A glob matcher for patterns without wildcards, standing in for
    [minimatch] where a closed run needs one: the path must be the pattern
    (so the empty pattern matches the empty path only). *)
Definition literal_minimatch (p pattern : string) : bool := String.eqb p pattern.

(** The base64 decoder on the one encoded text the sample runs use. *)
Definition sample_decode (encoded : string) : string :=
  if String.eqb encoded "Y29uc3QgYiA9IDQyOw==" then "const b = 42;" else "".

(** A world in which the event has the given action, content requests fail,
    every completion has the given content, and the diff parses to the given
    file changes. *)
Definition sample_world (action : string) (content : option string)
    (parsed : list File.t) : World :=
  {| GITHUB_EVENT_PATH := Some sample_event_path;
     GITHUB_EVENT_NAME := Some "pull_request";
     exclude := "";
     readFileSync := fun _ _ => Some (sample_payload action);
     pulls_get := fun _ _ _ _ =>
       Some {| pr_title := Some "Fix b"; pr_body := None; pr_head_sha := "abc123" |};
     pulls_get_diff := fun _ _ _ _ => Some (Some "diff --git a/src/a.ts b/src/a.ts");
     compareCommits := fun _ _ _ _ _ => Some "diff --git a/src/a.ts b/src/a.ts";
     getContent := fun _ _ _ _ _ => None;
     chat_create := fun _ _ =>
       Some {| choices := [ {| choice_message := Some {| message_content := content |} |} ] |};
     createReview := fun _ _ _ _ _ => true;
     parseDiff := fun _ => parsed;
     minimatch := literal_minimatch;
     base64_decode := sample_decode;
     inherited_text := fun _ => "" |}.

(** The same world, with the pull-request request failing. *)
Definition without_pull_request (w : World) : World :=
  {| GITHUB_EVENT_PATH := GITHUB_EVENT_PATH w;
     GITHUB_EVENT_NAME := GITHUB_EVENT_NAME w;
     exclude := exclude w;
     readFileSync := readFileSync w;
     pulls_get := fun _ _ _ _ => None;
     pulls_get_diff := pulls_get_diff w;
     compareCommits := compareCommits w;
     getContent := getContent w;
     chat_create := chat_create w;
     createReview := createReview w;
     parseDiff := parseDiff w;
     minimatch := minimatch w;
     base64_decode := base64_decode w;
     inherited_text := inherited_text w |}.

(** The same world, with every content request answered by [text]. *)
Definition with_content (text : string) (w : World) : World :=
  {| GITHUB_EVENT_PATH := GITHUB_EVENT_PATH w;
     GITHUB_EVENT_NAME := GITHUB_EVENT_NAME w;
     exclude := exclude w;
     readFileSync := readFileSync w;
     pulls_get := pulls_get w;
     pulls_get_diff := pulls_get_diff w;
     compareCommits := compareCommits w;
     getContent := fun _ _ _ _ _ => Some (Some text);
     chat_create := chat_create w;
     createReview := createReview w;
     parseDiff := parseDiff w;
     minimatch := minimatch w;
     base64_decode := base64_decode w;
     inherited_text := inherited_text w |}.

(** The reply [{"reviews": reviews}]. *)
Definition sample_reply (reviews : string) : string :=
  "{" +:+ quoted "reviews" +:+ ":" +:+ reviews +:+ "}".

(** The finding [{"lineNumber": "l", "reviewComment": "b"}] as text. *)
Definition sample_finding_text (l b : string) : string :=
  "{" +:+ quoted "lineNumber" +:+ ":" +:+ quoted l +:+ ","
  +:+ quoted "reviewComment" +:+ ":" +:+ quoted b +:+ "}".

Definition blank_response : ChatCompletion :=
  {| choices := [ {| choice_message := Some {| message_content := Some "   " |} |} ] |}.

(* ===================================================================== *)
(** * The JavaScript operations on examples                               *)
(* ===================================================================== *)

Example StringToNumber_examples :
  JS.StringToNumber "42" = JS.of_N 42
  /\ JS.StringToNumber "  42 " = JS.of_N 42
  /\ JS.StringToNumber "" = JS.zero
  /\ JS.StringToNumber "0x1F" = JS.of_N 31
  /\ JS.StringToNumber "4.5e1" = JS.Finite false 45 0
  /\ JS.StringToNumber "-Infinity" = JS.Infinity true
  /\ JS.StringToNumber "abc" = JS.NaN
  /\ JS.StringToNumber "12px" = JS.NaN
  /\ JS.StringToNumber "1 2" = JS.NaN
  /\ JS.StringToNumber "." = JS.NaN.
Proof. repeat split. Qed.

(** Numbers are binary64 values: a numeral is rounded to the nearest one,
    ties to the even significand, and however an integer is written it is
    the same number. *)
Example binary64_examples :
  JS.StringToNumber "9007199254740993" = JS.of_N 9007199254740992
  /\ JS.StringToNumber "9007199254740995" = JS.of_N 9007199254740996
  /\ JS.StringToNumber "1e400" = JS.Infinity false
  /\ JS.StringToNumber "-1e400" = JS.Infinity true
  /\ JS.StringToNumber "1.7976931348623159e308" = JS.Infinity false
  /\ JS.StringToNumber "0.1" = JS.Finite false 3602879701896397 (-55)
  /\ JS.StringToNumber "5e-324" = JS.Finite false 1 (-1074)
  /\ JS.StringToNumber "2e-324" = JS.zero
  /\ JS.StringToNumber "42.0" = JS.of_N 42
  /\ JS.StringToNumber "420e-1" = JS.of_N 42
  /\ JS.StringToNumber "0x20000000000001" = JS.of_N 9007199254740992
  /\ JS.JSON_parse "[42, 42.0, 4.2e1, 9007199254740993, 1e400, -0]"
     = Some (JS.JArr [JS.JNum (JS.of_N 42); JS.JNum (JS.of_N 42); JS.JNum (JS.of_N 42);
                      JS.JNum (JS.of_N 9007199254740992); JS.JNum (JS.Infinity false);
                      JS.JNum (JS.Finite true 0 0)]).
Proof. repeat split; vm_compute; reflexivity. Qed.

Example integer_value_examples :
  JS.integer_value (JS.StringToNumber "4.5e1") = Some 45%Z
  /\ JS.integer_value (JS.StringToNumber "-420e-1") = Some (-42)%Z
  /\ JS.integer_value (JS.StringToNumber "42.5") = None
  /\ JS.integer_value (JS.StringToNumber "abc") = None.
Proof. repeat split. Qed.

Example trim_examples :
  JS.trim "  {} " = "{}" /\ JS.trim (LF +:+ " " +:+ LF) = "" /\ JS.trim "a b" = "a b".
Proof. repeat split. Qed.

Example split_examples :
  JS.split "," "" = [""]
  /\ JS.split "," "*.md, dist/**" = ["*.md"; " dist/**"]
  /\ JS.split "," "a," = ["a"; ""].
Proof. repeat split. Qed.

Example JSON_parse_examples :
  JS.JSON_parse "{}" = Some (JS.JObj [])
  /\ JS.JSON_parse " [1, -2.50e1, true, null, [], {}] "
     = Some (JS.JArr [JS.JNum (JS.of_N 1); JS.JNum (JS.Finite true 25 0);
                      JS.JBool true; JS.JNull; JS.JArr []; JS.JObj []])
  /\ JS.JSON_parse (sample_reply ("[" +:+ sample_finding_text "42" "avoid magic number" +:+ "]"))
     = Some (JS.JObj [("reviews", JS.JArr [sample_finding "42" "avoid magic number"])])
  /\ JS.JSON_parse "not json" = None
  /\ JS.JSON_parse "" = None
  /\ JS.JSON_parse "[1,]" = None
  /\ JS.JSON_parse "01" = None
  /\ JS.JSON_parse "{} {}" = None.
Proof. repeat split. Qed.

Example Number_examples :
  JS.Number JS.undefined = JS.Normal JS.NaN
  /\ JS.Number (Some JS.JNull) = JS.Normal JS.zero
  /\ JS.Number (Some (JS.JNum (JS.of_N 42))) = JS.Normal (JS.of_N 42)
  /\ JS.Number (Some (JS.JStr "42")) = JS.Normal (JS.of_N 42)
  /\ JS.Number (Some (JS.JArr [JS.JStr "42"])) = JS.Normal (JS.of_N 42)
  /\ JS.Number (Some (JS.JArr [JS.JNum (JS.of_N 4); JS.JNum (JS.of_N 2)])) = JS.Normal JS.NaN
  /\ JS.Number (Some (JS.JObj [])) = JS.Normal JS.NaN
  /\ JS.Number (Some (JS.JObj [("toString", JS.JNull)])) = JS.Throw JS.TypeError.
Proof. repeat split. Qed.

Example truthy_examples :
  JS.truthy JS.undefined = false
  /\ JS.truthy (Some JS.JNull) = false
  /\ JS.truthy (Some (JS.JStr "")) = false
  /\ JS.truthy (Some (JS.JNum JS.zero)) = false
  /\ JS.truthy (Some (JS.JArr [])) = true
  /\ JS.truthy (Some (JS.JObj [])) = true
  /\ JS.truthy (Some (JS.JStr "none")) = true.
Proof. repeat split. Qed.

(* ===================================================================== *)
(** * Theorems: the prompt                                                *)
(* ===================================================================== *)

Lemma change_line_numbered (c : Change.t) :
  parse_diff_shape c -> change_line c = numbered_line c.
Proof.
  unfold parse_diff_shape, change_line, numbered_line, newLineNumber, oldLineNumber.
  destruct (Change.type c); intros [H1 H2].
  - rewrite H2. destruct (Change.ln c); reflexivity.
  - rewrite H2. destruct (Change.ln c); reflexivity.
  - rewrite H1. destruct (Change.ln2 c) as [n|]; [reflexivity|].
    rewrite H2 by reflexivity. reflexivity.
Qed.

Lemma append_assoc (a b c : string) : (a +:+ b) +:+ c = a +:+ (b +:+ c).
Proof.
  induction a as [|x a IH]; [reflexivity|].
  change (String x ((a +:+ b) +:+ c) = String x (a +:+ (b +:+ c))).
  rewrite IH. reflexivity.
Qed.

Lemma concat_split (n : nat) (sep : string) (l : list string) :
  firstn n l <> [] -> skipn n l <> [] ->
  String.concat sep l
  = String.concat sep (firstn n l) +:+ sep +:+ String.concat sep (skipn n l).
Proof.
  revert n. induction l as [|x l IH]; intros [|n] H1 H2; simpl in *; try contradiction.
  destruct l as [|y l]; [destruct n; contradiction|].
  destruct n as [|n].
  - reflexivity.
  - rewrite (IH (S n)) by (simpl; auto; discriminate).
    cbn [firstn skipn String.concat]. rewrite !append_assoc. reflexivity.
Qed.

(** C8: every prompt [createPrompt] builds ends with the diff block of its
    hunk, and what comes before the block is the same for all hunks of a file
    change.  In the block, after the header of the hunk, stand the lines of
    the hunk, one per line and in order, each prefixed with its new line
    number if it has one, else with its old line number if it has one, else
    left as it is. *)
Theorem createPrompt_numbers_lines (file : File.t) (prDetails : PRDetails)
    (fullFile : string) :
  exists head,
    forall chunk,
      Forall parse_diff_shape (Chunk.changes chunk) ->
      createPrompt file chunk prDetails fullFile = head +:+ numbered_diff_block chunk.
Proof.
  eexists. intros chunk Hshape.
  unfold createPrompt, prompt_template, JS.join.
  rewrite (concat_split 22) by (cbn [firstn skipn]; discriminate).
  cbn [firstn skipn]. rewrite <- append_assoc. f_equal.
  unfold numbered_diff_block, diff_body, JS.join.
  assert (map change_line (Chunk.changes chunk) = map numbered_line (Chunk.changes chunk))
    as ->.
  { induction Hshape as [|c l Hc _ IH]; [reflexivity|].
    simpl. rewrite IH, (change_line_numbered c Hc). reflexivity. }
  reflexivity.
Qed.

(** X14: the prompt depends on the file change through its target path only,
    on the hunk through its header and printed lines, and on the
    pull-request details through title and description: not on the
    repository, the pull-request number or the head commit. *)
Lemma createPrompt_reads (file file' : File.t) (chunk chunk' : Chunk.t)
    (prDetails prDetails' : PRDetails) (fullFile : string) :
  File.to file = File.to file' ->
  Chunk.content chunk = Chunk.content chunk' ->
  map change_line (Chunk.changes chunk) = map change_line (Chunk.changes chunk') ->
  title prDetails = title prDetails' ->
  description prDetails = description prDetails' ->
  createPrompt file chunk prDetails fullFile = createPrompt file' chunk' prDetails' fullFile.
Proof.
  intros Hto Hcontent Hlines Htitle Hdescription. unfold createPrompt, diff_body.
  rewrite Hto, Hcontent, Hlines, Htitle, Hdescription. reflexivity.
Qed.

(* ===================================================================== *)
(** * Facts about the JavaScript operations                               *)
(* ===================================================================== *)

Section NumberFacts.

Import JS.

Lemma in_range_spec lo hi c : in_range lo hi c = true <-> (lo <= code c <= hi)%N.
Proof.
  unfold in_range. rewrite andb_true_iff, !N.leb_le. reflexivity.
Qed.

Lemma in_range_false lo hi c :
  (code c < lo \/ hi < code c)%N -> in_range lo hi c = false.
Proof.
  intros H. apply not_true_is_false. rewrite in_range_spec. lia.
Qed.

Lemma is_code_false n c : code c <> n -> is_code n c = false.
Proof. intros H. unfold is_code. apply N.eqb_neq, H. Qed.

Lemma radix_digit_decimal c :
  decimal_digit c -> radix_digit 10 c = Some (code c - 48)%N.
Proof.
  intros H. unfold radix_digit, hex_digit.
  rewrite (proj2 (in_range_spec 48 57 c)) by exact H.
  destruct (N.ltb_spec (code c - 48) 10); [reflexivity|]. unfold decimal_digit in H. lia.
Qed.

Lemma digits_decimal l : forall acc k,
  Forall decimal_digit l ->
  digits 10 acc k l = (fold_left decimal_step l acc, (k + length l)%nat, []).
Proof.
  induction l as [|c l IH]; intros acc k Hl; simpl.
  - rewrite Nat.add_0_r. reflexivity.
  - inversion Hl as [|? ? Hc Hl']; subst.
    rewrite (radix_digit_decimal c Hc), IH by assumption.
    f_equal. f_equal. lia.
Qed.

Lemma pretty_N_char_digit y :
  (y < 10)%N -> decimal_digit (pretty_N_char y) /\ (code (pretty_N_char y) - 48 = y)%N.
Proof.
  intros Hy.
  assert (y = 0 \/ y = 1 \/ y = 2 \/ y = 3 \/ y = 4 \/ y = 5 \/ y = 6 \/ y = 7
          \/ y = 8 \/ y = 9)%N as Hcases by lia.
  unfold decimal_digit.
  repeat (destruct Hcases as [-> | Hcases]; [vm_compute; split; [split; discriminate | reflexivity] |]).
  subst. vm_compute. split; [split; discriminate | reflexivity].
Qed.

Lemma pretty_N_go_digits x : forall s,
  exists l, chars (pretty_N_go x s) = l ++ chars s
            /\ Forall decimal_digit l
            /\ fold_left decimal_step l 0%N = x
            /\ ((0 < x)%N -> l <> []).
Proof.
  induction (N.lt_wf_0 x) as [x _ IH]; intros s.
  destruct (N.eq_dec x 0%N) as [-> | Hx].
  - exists []. rewrite pretty_N_go_0. split; [reflexivity|]. split; [constructor|].
    split; [reflexivity | lia].
  - rewrite pretty_N_go_step by lia.
    destruct (IH (x `div` 10)%N) with (s := String (pretty_N_char (x `mod` 10)) s)
      as (l & Hl & Hd & Hv & _).
    { apply N.div_lt; lia. }
    destruct (pretty_N_char_digit (x `mod` 10)%N) as [Hc Hcv].
    { apply N.mod_lt. lia. }
    exists (l ++ [pretty_N_char (x `mod` 10)]). split; [|split; [|split]].
    + rewrite Hl. simpl. rewrite <- app_assoc. reflexivity.
    + apply Forall_app. split; [assumption | constructor; [assumption | constructor]].
    + rewrite fold_left_app, Hv. simpl. unfold decimal_step. rewrite Hcv.
      symmetry. apply N.div_mod. lia.
    + intros _ Hnil. destruct l; discriminate.
Qed.

Lemma pretty_digits (n : N) :
  exists c l, chars (pretty n) = c :: l
              /\ Forall decimal_digit (c :: l)
              /\ fold_left decimal_step (c :: l) 0%N = n.
Proof.
  unfold pretty, pretty_N. destruct (decide (n = 0%N)) as [-> | Hn].
  - exists "0"%char, []. split; [reflexivity|]. split; [|reflexivity].
    constructor; [|constructor]. vm_compute. split; discriminate.
  - destruct (pretty_N_go_digits n "") as (l & Hl & Hd & Hv & Hne).
    simpl in Hl. rewrite app_nil_r in Hl.
    destruct l as [|c l]; [exfalso; apply Hne; [lia | reflexivity]|].
    exists c, l. auto.
Qed.

(** A character below U+0080 that is no white space stops [skip_ws], from
    either end. *)
Lemma skip_ws_plain fwd c l :
  (code c < 128)%N -> ws1 c = false -> skip_ws fwd (c :: l) = c :: l.
Proof.
  intros Hc Hws. simpl. rewrite Hws.
  assert (forall n, (128 <= n)%N -> is_code n c = false) as Hno.
  { intros n Hn. apply is_code_false. lia. }
  assert (in_range 128 138 c = false) as Hr by (apply in_range_false; lia).
  destruct l as [|b [|d l]]; try reflexivity.
  - unfold ws2. rewrite !Hno by lia. rewrite andb_false_r. destruct fwd; reflexivity.
  - unfold ws2, ws3. rewrite !Hno by lia. rewrite Hr. simpl.
    rewrite !andb_false_r. simpl. destruct fwd; reflexivity.
Qed.

Lemma decimal_digit_plain c : decimal_digit c -> (code c < 128)%N /\ ws1 c = false.
Proof.
  unfold decimal_digit. intros H. split; [lia|].
  unfold ws1. rewrite in_range_false, is_code_false by lia. reflexivity.
Qed.

Lemma trim_chars_decimal c l :
  Forall decimal_digit (c :: l) -> trim_chars (c :: l) = c :: l.
Proof.
  intros H. unfold trim_chars.
  inversion H as [|? ? Hc _]; subst.
  destruct (decimal_digit_plain c Hc) as [? ?].
  rewrite skip_ws_plain by assumption.
  assert (Forall decimal_digit (rev (c :: l))) as Hr by (apply Forall_rev; exact H).
  destruct (rev (c :: l)) as [|d r] eqn:E.
  { apply (f_equal (@length _)) in E. rewrite length_rev in E. discriminate. }
  inversion Hr as [|? ? Hd _]; subst.
  destruct (decimal_digit_plain d Hd) as [? ?].
  rewrite skip_ws_plain by assumption.
  rewrite <- E. apply rev_involutive.
Qed.

Lemma non_decimal_literal_decimal l :
  Forall decimal_digit l -> non_decimal_literal l = None.
Proof.
  intros H. destruct l as [|z [|p l]]; try reflexivity. simpl.
  inversion H as [|? ? _ H']; subst. inversion H' as [|? ? Hp _]; subst.
  unfold decimal_digit in Hp.
  rewrite !(is_code_false _ p) by lia. simpl. destruct (is_code 48 z); reflexivity.
Qed.

(** An integer up to 2^53 is a binary64 value: nothing is rounded. *)
Lemma binary64_integer (n : N) : (n <= 2 ^ 53)%N -> binary64 false n 1 = of_N n.
Proof.
  intros Hn. unfold binary64, of_N.
  destruct (N.eqb_spec n 0) as [-> | H0]; [reflexivity|].
  destruct (N.eq_dec n (2 ^ 53)%N) as [-> | H53]; [vm_compute; reflexivity|].
  assert (n < 2 ^ 53)%N as Hlt by lia.
  assert (N.log2 n < 53)%N as Hlog by (apply N.log2_lt_pow2; lia).
  rewrite (proj2 (N.leb_le 1 n)) by lia. rewrite N.div_1_r.
  rewrite Z.max_l by lia. cbv zeta.
  destruct (Z.leb_spec 0 (Z.of_N (N.log2 n) - 52)) as [Hk | Hk].
  - replace (Z.of_N (N.log2 n) - 52)%Z with 0%Z by lia.
    change (Z.to_N 0) with 0%N. rewrite N.pow_0_r, !N.mul_1_r, N.div_1_r, N.mod_1_r.
    change (2 * 0 ?= 1)%N with Lt. cbv iota.
    rewrite (proj2 (N.leb_gt (2 ^ 1024) n)).
    + unfold canonical. change (0 <=? 0)%Z with true. cbv iota.
      change (Z.to_N 0) with 0%N. rewrite N.pow_0_r, N.mul_1_r. reflexivity.
    + eapply N.lt_trans; [exact Hlt|]. apply N.pow_lt_mono_r; lia.
  - rewrite N.div_1_r, N.mod_1_r. change (2 * 0 ?= 1)%N with Lt. cbv iota.
    unfold canonical. rewrite (proj2 (Z.leb_gt 0 _) Hk). cbv iota.
    set (j := Z.to_N (- (Z.of_N (N.log2 n) - 52))).
    assert (N.gcd (n * 2 ^ j) (2 ^ j) = 2 ^ j)%N as ->.
    { rewrite N.gcd_comm, N.mul_comm. apply N.gcd_mul_diag_l. }
    rewrite N.div_mul by (apply N.pow_nonzero; lia).
    rewrite N.log2_pow2 by lia. f_equal. lia.
Qed.

Lemma of_decimal_integer (n : N) : (n <= 2 ^ 53)%N -> of_decimal false n 0 = of_N n.
Proof.
  intros Hn. unfold of_decimal. change (0 <=? 0)%Z with true. cbv iota.
  change (Z.to_N 0) with 0%N. rewrite N.pow_0_r, N.mul_1_r.
  apply binary64_integer, Hn.
Qed.

(** The decimal numeral of [n] reads back as [n], up to 2^53. *)
Lemma StringToNumber_pretty (n : N) :
  (n <= 2 ^ 53)%N -> StringToNumber (pretty n) = of_N n.
Proof.
  intros Hn.
  destruct (pretty_digits n) as (c & l & Hchars & Hd & Hv).
  unfold StringToNumber. rewrite Hchars, (trim_chars_decimal c l Hd).
  rewrite (non_decimal_literal_decimal _ Hd).
  pose proof (Forall_inv Hd) as Hc. unfold decimal_digit in Hc.
  unfold decimal_literal. rewrite !(is_code_false _ c) by lia.
  assert (String.eqb (str (c :: l)) "Infinity" = false) as ->.
  { apply String.eqb_neq. simpl. intros [= E _]. subst c. vm_compute in Hc. 
    destruct Hc as [_ Hc]. apply Hc. reflexivity. }
  unfold unsigned_decimal. rewrite (digits_decimal _ 0%N 0%nat Hd), Hv.
  cbn [exponent_part Z.of_nat Z.sub Z.opp Z.add].
  apply of_decimal_integer, Hn.
Qed.

End NumberFacts.

(* ===================================================================== *)
(** * Theorems: the comment projector                                     *)
(* ===================================================================== *)

Lemma Number_numeral (n : N) :
  (n <= 2 ^ 53)%N -> JS.Number (Some (JS.JStr (pretty n))) = JS.Normal (JS.of_N n).
Proof.
  intros Hn. cbn [JS.Number JS.to_string_throws JS.primitive_number].
  rewrite StringToNumber_pretty by exact Hn. reflexivity.
Qed.

Lemma comment_of_finding (file : File.t) (p : string) (e : JS.json) :
  truthy_path (File.to file) = Some p ->
  coercible_finding e ->
  exists c, comment_of file e = JS.Normal [c] /\ anchor_of p e c.
Proof.
  intros Hp (l & b & n & (fs & -> & Hl & Hb) & Hn).
  exists {| body := b; path := p; line := n |}. split.
  - unfold comment_of. rewrite Hp. simpl. rewrite Hb, Hl. simpl. rewrite Hn. reflexivity.
  - exists l, b. split; [exists fs; auto|]. simpl.
    split; [reflexivity|]. split; [reflexivity|]. split; [exact Hn|].
    split; [|split].
    + intros k Hk [-> | ->].
      * simpl in Hn. congruence.
      * rewrite (Number_numeral k Hk) in Hn. congruence.
    + intros x ->. simpl in Hn. congruence.
    + intros s ->. simpl in Hn. congruence.
Qed.

Lemma flatMap_absent_path (file : File.t) (es : list JS.json) :
  truthy_path (File.to file) = None -> flatMap (comment_of file) es = JS.Normal [].
Proof.
  intros Hp. induction es as [|e es IH]; [reflexivity|].
  simpl. unfold comment_of at 1. rewrite Hp. simpl. rewrite IH. reflexivity.
Qed.

(** C1, as the code has it: when the file change has a target path,
    [createComment] produces exactly one anchor per finding, in order, with
    the target path, the finding's [reviewComment] as body and
    [Number(lineNumber)] as line: the integer when the line number is one,
    and whatever [Number] gives otherwise (NaN for text that is no numeric
    literal); the finding is not dropped.  Without a target path it produces
    no anchor. *)
Theorem createComment_projects (file : File.t) (chunk : Chunk.t) (es : list JS.json) :
  Forall coercible_finding es ->
  match truthy_path (File.to file) with
  | Some p =>
      exists cs, createComment file chunk (Some (JS.JArr es)) = JS.Normal cs
                 /\ Forall2 (anchor_of p) es cs
  | None => createComment file chunk (Some (JS.JArr es)) = JS.Normal []
  end.
Proof.
  intros Hes. destruct (truthy_path (File.to file)) as [p|] eqn:Hp.
  - unfold createComment. induction Hes as [|e es He _ IH].
    + exists []. split; [reflexivity | constructor].
    + destruct (comment_of_finding file p e Hp He) as (c & Hc & Ha).
      destruct IH as (cs & Hcs & Hall).
      exists (c :: cs). split; [|constructor; assumption].
      simpl. rewrite Hc. simpl. rewrite Hcs. reflexivity.
  - apply flatMap_absent_path, Hp.
Qed.

(* ===================================================================== *)
(** * Theorems: the review requester                                      *)
(* ===================================================================== *)

Section Requester.

Variable w : World.

Lemma app_two {A : Type} (l : list A) (a b : A) : (l ++ [a]) ++ [b] = l ++ [a; b].
Proof. rewrite <- app_assoc. reflexivity. Qed.

Lemma getAIResponse_request_fails (prompt : string) (tr : trace) :
  chat_create w tr prompt = None ->
  getAIResponse w prompt tr = logged_failure tr prompt JS.RequestError.
Proof.
  intros H. unfold getAIResponse, try_catch, bind, request, emit, ret, logged_failure.
  rewrite H. rewrite app_two. reflexivity.
Qed.

Lemma getAIResponse_reply (prompt : string) (tr : trace) (response : ChatCompletion) :
  chat_create w tr prompt = Some response ->
  getAIResponse w prompt tr =
  match (let! res := reply_text response in
         let! parsed := match JS.JSON_parse res with
                        | Some v => JS.Normal v
                        | None => JS.Throw JS.SyntaxError
                        end in
         JS.get (Some parsed) "reviews")%completion with
  | JS.Normal v => (tr ++ [ChatCreate prompt], JS.Normal v)
  | JS.Throw e => logged_failure tr prompt e
  end.
Proof.
  intros H.
  unfold getAIResponse, try_catch, bind, request, lift, parse.
  unfold emit, ret, throw, logged_failure.
  rewrite H. cbv beta iota delta [bind_completion].
  destruct (reply_text response) as [res|e]; [|rewrite app_two; reflexivity].
  destruct (JS.JSON_parse res) as [parsed|]; [|rewrite app_two; reflexivity].
  destruct (JS.get (Some parsed) "reviews"); [reflexivity|].
  rewrite app_two. reflexivity.
Qed.

(** [getAIResponse] completes normally, whatever the world answers. *)
Lemma getAIResponse_never_throws (prompt : string) (tr : trace) :
  exists v, (getAIResponse w prompt tr).2 = JS.Normal v.
Proof.
  destruct (chat_create w tr prompt) as [response|] eqn:H.
  - rewrite (getAIResponse_reply prompt tr response H).
    match goal with |- context [match ?c with _ => _ end] => destruct c end;
      simpl; eauto.
  - rewrite (getAIResponse_request_fails prompt tr H). simpl. eauto.
Qed.

(** A hunk whose response is falsy adds no comment, and the loop goes on to
    the next hunk. *)
Lemma analyzeChunks_falsy (file : File.t) (prDetails : PRDetails) (fullFile : string)
    (comments : list Comment) (chunk : Chunk.t) (rest : list Chunk.t)
    (tr tr' : trace) (v : JS.value) :
  getAIResponse w (createPrompt file chunk prDetails fullFile) tr = (tr', JS.Normal v) ->
  JS.truthy v = false ->
  analyzeChunks w file prDetails fullFile comments (chunk :: rest) tr =
  analyzeChunks w file prDetails fullFile comments rest tr'.
Proof.
  intros H Hv. simpl. unfold bind at 1. unfold analyzeChunk, bind at 1.
  rewrite H, Hv. reflexivity.
Qed.

(** C4, as the code has it: [getAIResponse] never throws.  When the request
    fails (transport or provider error), when the response has no choice, and
    when the reply is not JSON or is the JSON [null], it logs the error and
    returns [null].  On every other reply it logs nothing and returns the
    member [reviews] of the parsed value: [undefined] when the reply is an
    object without [reviews], and when it is JSON but no object (an array, a
    number, a string, a boolean).  Whenever what it returns is falsy, which
    covers [null] and [undefined], the hunk adds no comment and
    [analyzeCode] goes on with the next hunk. *)
Theorem getAIResponse_isolates_failures (tr : trace) :
  (forall prompt, exists v, (getAIResponse w prompt tr).2 = JS.Normal v)
  /\ (forall prompt,
        chat_create w tr prompt = None ->
        getAIResponse w prompt tr = logged_failure tr prompt JS.RequestError)
  /\ (forall prompt response,
        chat_create w tr prompt = Some response ->
        choices response = [] ->
        getAIResponse w prompt tr = logged_failure tr prompt JS.TypeError)
  /\ (forall prompt response res,
        chat_create w tr prompt = Some response ->
        reply_text response = JS.Normal res ->
        (JS.JSON_parse res = None ->
         getAIResponse w prompt tr = logged_failure tr prompt JS.SyntaxError)
        /\ (JS.JSON_parse res = Some JS.JNull ->
            getAIResponse w prompt tr = logged_failure tr prompt JS.TypeError)
        /\ (forall parsed,
              JS.JSON_parse res = Some parsed ->
              parsed <> JS.JNull ->
              getAIResponse w prompt tr
              = (tr ++ [ChatCreate prompt],
                 JS.Normal match parsed with
                           | JS.JObj fs => JS.lookup_field "reviews" fs
                           | _ => JS.undefined
                           end))
        /\ (forall parsed,
              JS.JSON_parse res = Some parsed ->
              parsed <> JS.JNull ->
              (forall fs, parsed = JS.JObj fs -> JS.lookup_field "reviews" fs = None) ->
              getAIResponse w prompt tr = (tr ++ [ChatCreate prompt], JS.Normal JS.undefined)))
  /\ (forall file prDetails fullFile comments chunk rest tr' v,
        getAIResponse w (createPrompt file chunk prDetails fullFile) tr = (tr', JS.Normal v) ->
        JS.truthy v = false ->
        analyzeChunks w file prDetails fullFile comments (chunk :: rest) tr =
        analyzeChunks w file prDetails fullFile comments rest tr'
        /\ (v = Some JS.JNull \/ v = JS.undefined -> JS.truthy v = false)).
Proof.
  split; [intros prompt; apply getAIResponse_never_throws|].
  split; [intros prompt; apply getAIResponse_request_fails|].
  split.
  { intros prompt response H Hc. rewrite (getAIResponse_reply _ _ _ H).
    unfold reply_text. rewrite Hc. reflexivity. }
  split.
  { intros prompt response res H Hres. rewrite (getAIResponse_reply _ _ _ H), Hres.
    simpl. split; [|split; [|split]].
    - intros ->. reflexivity.
    - intros ->. reflexivity.
    - intros parsed -> Hnull. destruct parsed; try reflexivity. contradiction.
    - intros parsed -> Hnull Hfs. destruct parsed; try reflexivity; [contradiction|].
      simpl. rewrite (Hfs _ eq_refl). reflexivity. }
  intros file prDetails fullFile comments chunk rest tr' v H Hv.
  split; [exact (analyzeChunks_falsy _ _ _ _ _ _ _ _ v H Hv)|].
  intros [-> | ->]; reflexivity.
Qed.

Lemma reply_text_blank (response : ChatCompletion) (choice : Choice) (others : list Choice) :
  choices response = choice :: others ->
  blank_content choice ->
  reply_text response = JS.Normal "{}".
Proof.
  intros Hc Hb. unfold reply_text. rewrite Hc. unfold blank_content in Hb.
  destruct (choice_message choice) as [m|]; [|reflexivity].
  destruct (message_content m) as [s|]; [|reflexivity].
  simpl. rewrite Hb. reflexivity.
Qed.

(** C10: when the completion request succeeds and the content of the first
    choice is absent, empty or white space only, [getAIResponse] parses the
    string [{}] instead and returns [undefined], the [reviews] member of the
    empty object, without logging; the hunk then adds no comment and the run
    goes on without error. *)
Theorem getAIResponse_blank_content (prompt : string) (tr : trace)
    (response : ChatCompletion) (choice : Choice) (others : list Choice) :
  chat_create w tr prompt = Some response ->
  choices response = choice :: others ->
  blank_content choice ->
  reply_text response = JS.Normal "{}"
  /\ JS.JSON_parse "{}" = Some (JS.JObj [])
  /\ getAIResponse w prompt tr = (tr ++ [ChatCreate prompt], JS.Normal JS.undefined)
  /\ (forall file chunk prDetails fullFile comments,
        prompt = createPrompt file chunk prDetails fullFile ->
        analyzeChunk w file prDetails fullFile comments chunk tr =
        (tr ++ [ChatCreate prompt], JS.Normal comments)).
Proof.
  intros H Hc Hb.
  pose proof (reply_text_blank response choice others Hc Hb) as Hres.
  assert (getAIResponse w prompt tr = (tr ++ [ChatCreate prompt], JS.Normal JS.undefined))
    as Hget.
  { rewrite (getAIResponse_reply _ _ _ H), Hres. reflexivity. }
  split; [exact Hres|]. split; [reflexivity|]. split; [exact Hget|].
  intros file chunk prDetails fullFile comments ->.
  unfold analyzeChunk, bind. rewrite Hget. reflexivity.
Qed.

End Requester.

(* ===================================================================== *)
(** * What a computation adds to the trace                                *)
(* ===================================================================== *)

Section Emits.

Context {A B : Type} (P : event -> Prop).

Lemma emits_ret (a : A) (Q : A -> Prop) : Q a -> emits (ret a) P Q.
Proof. intros H tr. exists []. simpl. rewrite app_nil_r. auto. Qed.

Lemma emits_throw (e : JS.error) (Q : A -> Prop) : emits (throw e) P Q.
Proof. intros tr. exists []. simpl. rewrite app_nil_r. auto. Qed.

Lemma emits_lift (c : JS.completion A) (Q : A -> Prop) :
  (forall a, c = JS.Normal a -> Q a) -> emits (lift c) P Q.
Proof.
  intros H tr. exists []. simpl. rewrite app_nil_r.
  split; [reflexivity|]. split; [constructor|]. destruct c; auto.
Qed.

Lemma emits_emit (e : event) (Q : unit -> Prop) : P e -> Q tt -> emits (emit e) P Q.
Proof. intros He HQ tr. exists [e]. simpl. auto. Qed.

Lemma emits_request (e : event) (answer : trace -> option A) (Q : A -> Prop) :
  P e -> (forall tr a, answer tr = Some a -> Q a) -> emits (request e answer) P Q.
Proof.
  intros He HQ tr. exists [e]. simpl. split; [reflexivity|]. split; [auto|].
  destruct (answer tr) eqn:E; eauto.
Qed.

Lemma emits_bind (m : M A) (k : A -> M B) (Q1 : A -> Prop) (Q2 : B -> Prop) :
  emits m P Q1 -> (forall a, Q1 a -> emits (k a) P Q2) -> emits (bind m k) P Q2.
Proof.
  intros Hm Hk tr. destruct (Hm tr) as (d1 & Ht & Hd & Hq). unfold bind.
  destruct (m tr) as [tr1 [a|e]]; simpl in *; subst tr1.
  - destruct (Hk a Hq (tr ++ d1)) as (d2 & Ht2 & Hd2 & Hq2).
    exists (d1 ++ d2). rewrite Ht2, app_assoc. split; [reflexivity|].
    split; [apply Forall_app; auto | exact Hq2].
  - exists d1. auto.
Qed.

Lemma emits_try_catch (m : M A) (h : JS.error -> M A) (Q : A -> Prop) :
  emits m P Q -> (forall e, emits (h e) P Q) -> emits (try_catch m h) P Q.
Proof.
  intros Hm Hh tr. destruct (Hm tr) as (d1 & Ht & Hd & Hq). unfold try_catch.
  destruct (m tr) as [tr1 [a|e]]; simpl in *; subst tr1.
  - exists d1. auto.
  - destruct (Hh e (tr ++ d1)) as (d2 & Ht2 & Hd2 & Hq2).
    exists (d1 ++ d2). rewrite Ht2, app_assoc. split; [reflexivity|].
    split; [apply Forall_app; auto | exact Hq2].
Qed.

Lemma emits_weaken (m : M A) (P' : event -> Prop) (Q Q' : A -> Prop) :
  emits m P' Q' -> (forall e, P' e -> P e) -> (forall a, Q' a -> Q a) -> emits m P Q.
Proof.
  intros Hm HP HQ tr. destruct (Hm tr) as (d & Ht & Hd & Hq).
  exists d. split; [exact Ht|]. split.
  - eapply Forall_impl; eauto.
  - destruct ((m tr).2); auto.
Qed.

End Emits.

Lemma emits_parse (P : event -> Prop) (text : string) : emits (parse text) P anything.
Proof.
  unfold parse. destruct (JS.JSON_parse text); [apply emits_ret | apply emits_throw].
  exact I.
Qed.

Lemma getPRDetails_emits (w : World) (P : event -> Prop) :
  (forall p, P (ReadFile p)) -> (forall o r n, P (PullsGet o r n)) ->
  emits (getPRDetails w) P anything.
Proof.
  intros Hread Hget. unfold getPRDetails.
  eapply emits_bind with (Q1 := anything); [apply emits_request; [apply Hread | constructor]|].
  intros text _. eapply emits_bind with (Q1 := anything); [apply emits_parse|].
  intros payload _.
  repeat (eapply emits_bind with (Q1 := anything);
          [apply emits_lift; constructor | intros ? _]).
  eapply emits_bind with (Q1 := anything); [apply emits_request; [apply Hget | constructor]|].
  intros prResponse _. apply emits_ret. constructor.
Qed.

(* ===================================================================== *)
(** * Theorems: the review loop                                           *)
(* ===================================================================== *)

Lemma truthy_path_Some (o : option string) (p : string) :
  truthy_path o = Some p -> o = Some p /\ p <> "".
Proof.
  destruct o as [s|]; simpl; [|discriminate].
  destruct (String.eqb_spec s ""); [discriminate|]. intros [= ->]. auto.
Qed.

Lemma reviewed_spec (file : File.t) :
  reviewed file = true <->
  exists p, File.to file = Some p /\ p <> "/dev/null" /\ p <> "".
Proof.
  unfold reviewed. rewrite andb_true_iff, negb_true_iff, bool_decide_eq_true. split.
  - intros [Hd [p Hp]]. apply truthy_path_Some in Hp as [Hto Hne].
    exists p. rewrite Hto in Hd. simpl in Hd. apply String.eqb_neq in Hd. auto.
  - intros (p & -> & Hd & Hne). simpl. split; [apply String.eqb_neq, Hd|].
    destruct (String.eqb_spec p ""); [contradiction | eauto].
Qed.

Lemma deleted_or_absent_not_reviewed (file : File.t) :
  deleted_or_absent file -> reviewed file = false.
Proof.
  intros H. apply not_true_is_false. rewrite reviewed_spec.
  intros (p & Hp & Hd & _). destruct H as [H | H]; congruence.
Qed.

Lemma flatMap_paths (file : File.t) (p : string) (es : list JS.json) :
  truthy_path (File.to file) = Some p ->
  forall cs, flatMap (comment_of file) es = JS.Normal cs -> Forall (fun c => path c = p) cs.
Proof.
  intros Hp. induction es as [|e es IH]; intros cs; cbn [flatMap].
  - intros [= <-]. constructor.
  - unfold comment_of at 1. rewrite Hp. unfold bind_completion.
    destruct (JS.get (Some e) "reviewComment") as [b|]; [|discriminate].
    destruct (JS.get (Some e) "lineNumber") as [l|]; [|discriminate].
    destruct (JS.Number l) as [n|]; [|discriminate].
    destruct (flatMap (comment_of file) es) as [rest|]; [|discriminate].
    intros [= <-]. constructor; [reflexivity | apply IH; reflexivity].
Qed.

Lemma createComment_paths (file : File.t) (chunk : Chunk.t) (p : string)
    (v : JS.value) (cs : list Comment) :
  truthy_path (File.to file) = Some p ->
  createComment file chunk v = JS.Normal cs -> Forall (fun c => path c = p) cs.
Proof.
  intros Hp. unfold createComment.
  destruct v as [[| | | |es|]|]; try discriminate. apply flatMap_paths, Hp.
Qed.

Section Loop.

Variable w : World.
Variable prDetails : PRDetails.
Variable files0 : list File.t.

Lemma getAIResponse_emits (file : File.t) (chunk : Chunk.t) (fullFile : string) :
  file ∈ files0 -> reviewed file = true -> chunk ∈ File.chunks file ->
  emits (getAIResponse w (createPrompt file chunk prDetails fullFile))
    (review_event prDetails files0) anything.
Proof.
  intros Hf Hr Hc. unfold getAIResponse.
  apply emits_try_catch.
  - eapply emits_bind with (Q1 := anything).
    { apply emits_request; [|constructor]. simpl. eauto 10. }
    intros response _. eapply emits_bind with (Q1 := anything).
    { apply emits_lift. constructor. }
    intros res _. eapply emits_bind with (Q1 := anything); [apply emits_parse|].
    intros parsed _. apply emits_lift. constructor.
  - intros e. eapply emits_bind with (Q1 := anything).
    { apply emits_emit; constructor. }
    intros _ _. apply emits_ret. constructor.
Qed.

Lemma analyzeChunk_emits (file : File.t) (fullFile : string)
    (comments : list Comment) (chunk : Chunk.t) :
  file ∈ files0 -> reviewed file = true -> chunk ∈ File.chunks file ->
  Forall (review_anchor files0) comments ->
  emits (analyzeChunk w file prDetails fullFile comments chunk)
    (review_event prDetails files0) (Forall (review_anchor files0)).
Proof.
  intros Hf Hr Hc Hcs. unfold analyzeChunk.
  eapply emits_bind with (Q1 := anything).
  { apply getAIResponse_emits; assumption. }
  intros v _. destruct (JS.truthy v); [|apply emits_ret; exact Hcs].
  eapply emits_bind with (Q1 := Forall (review_anchor files0)).
  - apply emits_lift. intros cs Hcreate.
    destruct (proj1 (reviewed_spec file) Hr) as (p & Hto & Hd & Hne).
    assert (truthy_path (File.to file) = Some p) as Hp.
    { rewrite Hto. simpl. destruct (String.eqb_spec p ""); [contradiction | reflexivity]. }
    eapply Forall_impl; [apply (createComment_paths _ _ _ _ _ Hp Hcreate)|].
    intros c Hpath. exists file. rewrite Hpath. auto.
  - intros cs Hnew. apply emits_ret. apply Forall_app. auto.
Qed.

Lemma analyzeChunks_emits (file : File.t) (fullFile : string) (chunks : list Chunk.t) :
  file ∈ files0 -> reviewed file = true ->
  (forall chunk, chunk ∈ chunks -> chunk ∈ File.chunks file) ->
  forall comments, Forall (review_anchor files0) comments ->
  emits (analyzeChunks w file prDetails fullFile comments chunks)
    (review_event prDetails files0) (Forall (review_anchor files0)).
Proof.
  intros Hf Hr. induction chunks as [|chunk rest IH]; intros Hsub comments Hcs; simpl.
  - apply emits_ret, Hcs.
  - eapply emits_bind.
    + apply analyzeChunk_emits; try assumption. apply Hsub. constructor.
    + intros comments' Hcs'. apply IH; [|exact Hcs'].
      intros c Hc. apply Hsub. constructor. exact Hc.
Qed.

Lemma fillCache_emits (file : File.t) (p : string) (fileCache : gmap string string) :
  file ∈ files0 -> reviewed file = true -> File.to file = Some p ->
  emits (fillCache w prDetails fileCache p) (review_event prDetails files0) anything.
Proof.
  intros Hf Hr Hto. unfold fillCache.
  destruct (cache_hit fileCache p); [apply emits_ret; constructor|].
  apply emits_try_catch.
  - eapply emits_bind with (Q1 := anything); [|intros; apply emits_ret; constructor].
    unfold getFullFileContent. eapply emits_bind with (Q1 := anything).
    { apply emits_request; [|constructor]. simpl. eauto. }
    intros [encoded|] _; [apply emits_ret | apply emits_throw]; constructor.
  - intros e. eapply emits_bind with (Q1 := anything).
    { apply emits_emit; constructor. }
    intros _ _. apply emits_ret. constructor.
Qed.

Lemma analyzeFiles_emits (files : list File.t) :
  (forall file, file ∈ files -> file ∈ files0) ->
  forall fileCache comments, Forall (review_anchor files0) comments ->
  emits (analyzeFiles w prDetails fileCache comments files)
    (review_event prDetails files0) (Forall (review_anchor files0)).
Proof.
  induction files as [|file rest IH]; intros Hsub fileCache comments Hcs; simpl.
  - apply emits_ret, Hcs.
  - assert (forall f, f ∈ rest -> f ∈ files0) as Hrest.
    { intros f Hf. apply Hsub. constructor. exact Hf. }
    destruct (is_dev_null (File.to file)) eqn:Hd; [apply IH; assumption|].
    destruct (truthy_path (File.to file)) as [p|] eqn:Hp; [|apply IH; assumption].
    assert (reviewed file = true) as Hr.
    { unfold reviewed. rewrite Hd, Hp. reflexivity. }
    apply truthy_path_Some in Hp as [Hto _].
    eapply emits_bind with (Q1 := anything).
    { eapply fillCache_emits; eauto. apply Hsub. constructor. }
    intros fileCache' _. eapply emits_bind.
    { apply analyzeChunks_emits; auto. apply Hsub. constructor. }
    intros comments' Hcs'. apply IH; assumption.
Qed.

End Loop.

(* ===================================================================== *)
(** * Theorems: the file content cache                                    *)
(* ===================================================================== *)

(** The [if (!fileCache[file.to])] block of [analyzeCode] never throws
    and sends at most one content request: none on a hit; on a miss one request, and the decoded
    text is stored, or the empty string after a warning when the request
    fails or the answer has no content. *)
Lemma fillCache_outcome (w : World) (prDetails : PRDetails)
    (fileCache : gmap string string) (p : string) (tr : trace) :
  fillCache w prDetails fileCache p tr =
  let asked := GetContent (owner prDetails) (repo prDetails) p (headSha prDetails) in
  if cache_hit fileCache p then (tr, JS.Normal fileCache)
  else
    match getContent w tr (owner prDetails) (repo prDetails) p (headSha prDetails) with
    | Some (Some encoded) =>
        (tr ++ [asked], JS.Normal (<[p := base64_decode w encoded]> fileCache))
    | Some None =>
        (tr ++ [asked; Console Warn (UnableToFetch p (JS.MissingContent p))],
         JS.Normal (<[p := ""]> fileCache))
    | None =>
        (tr ++ [asked; Console Warn (UnableToFetch p JS.RequestError)],
         JS.Normal (<[p := ""]> fileCache))
    end.
Proof.
  unfold fillCache. destruct (cache_hit fileCache p); [reflexivity|].
  unfold try_catch, bind, getFullFileContent, bind, request, emit, ret, throw.
  destruct (getContent w tr _ _ p _) as [[encoded|]|]; cbv zeta;
    rewrite ?app_two; reflexivity.
Qed.

(** A stored text is a hit exactly when it is not the empty string. *)
Lemma cache_hit_insert (fileCache : gmap string string) (p text : string) :
  cache_hit (<[p := text]> fileCache) p = negb (String.eqb text "").
Proof. unfold cache_hit. rewrite lookup_insert_eq. reflexivity. Qed.

(* ===================================================================== *)
(** * Theorems: one completion request per hunk                           *)
(* ===================================================================== *)

Lemma completion_requests_app (tr d : trace) :
  List.filter is_completion_request (tr ++ d)
  = List.filter is_completion_request tr ++ List.filter is_completion_request d.
Proof. apply List.filter_app. Qed.

Lemma getAIResponse_one_request (w : World) (prompt : string) (tr : trace) :
  exists d, (getAIResponse w prompt tr).1 = tr ++ d
            /\ List.filter is_completion_request d = [ChatCreate prompt].
Proof.
  destruct (chat_create w tr prompt) as [response|] eqn:H.
  - rewrite (getAIResponse_reply w prompt tr response H).
    match goal with |- context [match ?c with _ => _ end] => destruct c end;
      simpl; eauto.
  - rewrite (getAIResponse_request_fails w prompt tr H). simpl. eauto.
Qed.

(** When the hunks of a file are all analysed, exactly one completion
    request was sent per hunk, in the order of the diff, each with the prompt
    of its hunk. *)
Lemma analyzeChunks_requests (w : World) (file : File.t) (prDetails : PRDetails)
    (fullFile : string) (chunks : list Chunk.t) :
  forall comments tr tr' result,
    analyzeChunks w file prDetails fullFile comments chunks tr = (tr', JS.Normal result) ->
    exists d, tr' = tr ++ d
              /\ List.filter is_completion_request d
                 = map (fun chunk => ChatCreate (createPrompt file chunk prDetails fullFile))
                     chunks.
Proof.
  induction chunks as [|chunk rest IH]; intros comments tr tr' result; simpl.
  - intros [= <- _]. exists []. rewrite app_nil_r. auto.
  - unfold bind at 1. unfold analyzeChunk, bind at 1.
    destruct (getAIResponse_one_request w (createPrompt file chunk prDetails fullFile) tr)
      as (d1 & Ht1 & Hd1).
    destruct (getAIResponse w (createPrompt file chunk prDetails fullFile) tr)
      as [tr1 [v|e]]; simpl in Ht1; subst tr1; [|discriminate].
    assert (forall cs, analyzeChunks w file prDetails fullFile cs rest (tr ++ d1)
                       = (tr', JS.Normal result) ->
                       exists d, tr' = tr ++ d
                                 /\ List.filter is_completion_request d
                                    = ChatCreate (createPrompt file chunk prDetails fullFile)
                                      :: map (fun chunk =>
                                                ChatCreate (createPrompt file chunk prDetails fullFile))
                                           rest) as Hrest.
    { intros cs Hcs. destruct (IH _ _ _ _ Hcs) as (d2 & -> & Hd2).
      exists (d1 ++ d2). rewrite app_assoc. split; [reflexivity|].
      rewrite completion_requests_app, Hd1, Hd2. reflexivity. }
    destruct (JS.truthy v); [|apply Hrest].
    unfold lift, ret. destruct (createComment file chunk v) as [newComments|e];
      [apply Hrest | discriminate].
Qed.


Lemma analyzeFiles_skips (w : World) (prDetails : PRDetails) (files : list File.t) :
  forall fileCache comments tr,
    analyzeFiles w prDetails fileCache comments files tr =
    analyzeFiles w prDetails fileCache comments (List.filter reviewed files) tr.
Proof.
  induction files as [|file rest IH]; intros fileCache comments tr; [reflexivity|].
  cbn [analyzeFiles List.filter]. unfold reviewed at 1.
  destruct (is_dev_null (File.to file)) eqn:Hd; cbn [negb andb]; [apply IH|].
  destruct (truthy_path (File.to file)) as [p|] eqn:Hp.
  - rewrite bool_decide_eq_true_2 by eauto. cbn [analyzeFiles]. rewrite Hd, Hp.
    unfold bind. destruct (fillCache w prDetails fileCache p tr) as [tr1 [fileCache'|e]];
      [|reflexivity].
    destruct (analyzeChunks w file prDetails (cache_text w fileCache' p) comments
                (File.chunks file) tr1) as [tr2 [comments'|e]]; [apply IH | reflexivity].
  - rewrite bool_decide_eq_false_2 by (intros [? ?]; discriminate). apply IH.
Qed.

(* ===================================================================== *)
(** * Theorems: submission                                                *)
(* ===================================================================== *)

Lemma submissions_app (tr d : trace) : submissions (tr ++ d) = submissions tr ++ submissions d.
Proof. apply List.filter_app. Qed.

Lemma submissions_quiet (d : trace) : Forall quiet d -> submissions d = [].
Proof.
  induction 1 as [|e d He _ IH]; [reflexivity|].
  unfold submissions in *. simpl. rewrite He. exact IH.
Qed.

Lemma review_event_quiet prDetails files0 (e : event) :
  review_event prDetails files0 e -> quiet e.
Proof. destruct e; simpl; intros H; try reflexivity; contradiction. Qed.

Lemma review_anchor_good files0 (c : Comment) : review_anchor files0 c -> good_path c.
Proof.
  intros (file & _ & Hr & Hto). apply reviewed_spec in Hr as (p & Hp & Hd & Hne).
  rewrite Hp in Hto. injection Hto as Hto. unfold good_path. rewrite <- Hto. auto.
Qed.

Section Submission.

Variable w : World.

Lemma submits_once_quiet {A : Type} (m : M A) (Q : A -> Prop) :
  emits m quiet Q -> submits_once m.
Proof.
  intros Hm tr Htr. destruct (Hm tr) as (d & -> & Hd & _).
  left. rewrite submissions_app, Htr, (submissions_quiet d Hd). reflexivity.
Qed.

Lemma submits_once_bind {A B : Type} (m : M A) (k : A -> M B) (Q : A -> Prop) :
  emits m quiet Q -> (forall a, Q a -> submits_once (k a)) -> submits_once (bind m k).
Proof.
  intros Hm Hk tr Htr. destruct (Hm tr) as (d & Ht & Hd & Hq). unfold bind.
  assert (submissions (tr ++ d) = []) as Hquiet.
  { rewrite submissions_app, Htr, (submissions_quiet d Hd). reflexivity. }
  destruct (m tr) as [tr1 [a|e]]; simpl in *; subst tr1.
  - apply (Hk a Hq), Hquiet.
  - left. exact Hquiet.
Qed.

Lemma analyzeCode_emits (files : list File.t) (prDetails : PRDetails) :
  emits (analyzeCode w files prDetails) (review_event prDetails files)
    (Forall (review_anchor files)).
Proof. apply analyzeFiles_emits; [auto | constructor]. Qed.

Lemma analyzeCode_quiet (files : list File.t) (prDetails : PRDetails) :
  emits (analyzeCode w files prDetails) quiet (Forall good_path).
Proof.
  eapply emits_weaken; [apply analyzeCode_emits | apply review_event_quiet |].
  intros cs Hcs. eapply Forall_impl; [exact Hcs | apply review_anchor_good].
Qed.

Lemma main_with_diff_analysis (prDetails : PRDetails) (d : string) (tr : trace) :
  truthy_path (Some d) = Some d ->
  main_with_diff w prDetails (Some d) tr =
  match analyzeCode w (filteredDiff w (excludePatterns w) (parseDiff w d)) prDetails tr with
  | (tr', JS.Normal []) => (tr', JS.Normal tt)
  | (tr', JS.Normal (c :: cs)) =>
      createReviewComment w (owner prDetails) (repo prDetails) (pull_number prDetails)
        (c :: cs) tr'
  | (tr', JS.Throw e) => (tr', JS.Throw e)
  end.
Proof.
  intros Hd. unfold main_with_diff. rewrite Hd. unfold bind.
  destruct (analyzeCode _ _ _ tr) as [tr' [[|c cs]|e]]; reflexivity.
Qed.

Lemma main_with_diff_once (prDetails : PRDetails) (diff : option string) :
  submits_once (main_with_diff w prDetails diff).
Proof.
  unfold main_with_diff. destruct (truthy_path diff) as [d|].
  - eapply submits_once_bind; [apply analyzeCode_quiet|].
    intros [|c cs] Hcs.
    + eapply submits_once_quiet with (Q := anything), emits_ret. exact I.
    + intros tr Htr. right.
      exists (owner prDetails), (repo prDetails), (pull_number prDetails), (c :: cs).
      split; [discriminate|]. split; [exact Hcs|].
      unfold createReviewComment, request. simpl.
      rewrite submissions_app, Htr. reflexivity.
  - eapply submits_once_quiet with (Q := anything), emits_emit; constructor.
Qed.

Lemma main_once : submits_once (main w).
Proof.
  unfold main.
  eapply submits_once_bind; [apply getPRDetails_emits; reflexivity|]. intros prDetails _.
  eapply submits_once_bind with (Q := anything); [apply emits_request; constructor|].
  intros text _. eapply submits_once_bind with (Q := anything); [apply emits_parse|].
  intros eventData _.
  eapply submits_once_bind with (Q := anything); [apply emits_lift; constructor|].
  intros action _. destruct (is_action action "opened").
  { eapply submits_once_bind with (Q := anything).
    - unfold getDiff. apply emits_request; constructor.
    - intros diff _. apply main_with_diff_once. }
  destruct (is_action action "synchronize").
  { repeat (eapply submits_once_bind with (Q := anything);
            [apply emits_lift; constructor | intros ? _]).
    eapply submits_once_bind with (Q := anything); [apply emits_request; constructor|].
    intros data _. apply main_with_diff_once. }
  eapply submits_once_quiet with (Q := anything), emits_emit; constructor.
Qed.

End Submission.

(** C7: when the aggregated anchors are empty no review is submitted and the
    run ends normally; when they are not, exactly one review-creation request
    follows the analysis, carrying all of them with disposition COMMENT; and
    nothing else in a run submits a review. *)
Theorem review_submitted_once (w : World) :
  (forall prDetails diff tr,
     match truthy_path diff with
     | None =>
         main_with_diff w prDetails diff tr = (tr ++ [Console Log NoDiffFound], JS.Normal tt)
     | Some d =>
         let analysis :=
           analyzeCode w (filteredDiff w (excludePatterns w) (parseDiff w d)) prDetails tr in
         submissions analysis.1 = submissions tr
         /\ match analysis.2 with
            | JS.Normal [] => main_with_diff w prDetails diff tr = (analysis.1, JS.Normal tt)
            | JS.Normal (c :: cs) =>
                (main_with_diff w prDetails diff tr).1 =
                analysis.1 ++ [CreateReview (owner prDetails) (repo prDetails)
                                 (pull_number prDetails) (c :: cs) "COMMENT"]
            | JS.Throw e => main_with_diff w prDetails diff tr = (analysis.1, JS.Throw e)
            end
     end)
  /\ (submissions (main w []).1 = []
      \/ exists o r n cs,
           cs <> [] /\ submissions (main w []).1 = [CreateReview o r n cs "COMMENT"]).
Proof.
  split.
  - intros prDetails diff tr. destruct (truthy_path diff) as [d|] eqn:Hd.
    + apply truthy_path_Some in Hd as Hd'. destruct Hd' as [-> _].
      cbv zeta. split.
      * destruct (analyzeCode_quiet w (filteredDiff w (excludePatterns w) (parseDiff w d))
                    prDetails tr) as (dl & -> & Hq & _).
        rewrite submissions_app, (submissions_quiet dl Hq). apply app_nil_r.
      * rewrite (main_with_diff_analysis w prDetails d tr Hd).
        destruct (analyzeCode _ _ _ tr) as [tr' [[|c cs]|e]]; reflexivity.
    + unfold main_with_diff. rewrite Hd. reflexivity.
  - destruct (main_once w [] eq_refl) as [H | (o & r & n & cs & Hne & _ & H)].
    + left. exact H.
    + right. exists o, r, n, cs. auto.
Qed.

(** C6: a file change whose target is null or the deletion sentinel is not
    reviewed.  [analyzeCode] behaves as if the file changes that fail its two
    guards were not in the list; every content request and every prompt it
    sends belongs to a reviewed file of the list, every anchor it returns is
    on the target of one, and a review that a run submits holds no anchor on
    the deletion sentinel or on an empty path. *)
Theorem deleted_files_never_reviewed (w : World) :
  (forall file, deleted_or_absent file -> reviewed file = false)
  /\ (forall files prDetails tr,
        analyzeCode w files prDetails tr =
        analyzeCode w (List.filter reviewed files) prDetails tr)
  /\ (forall files prDetails tr,
        exists d,
          (analyzeCode w files prDetails tr).1 = tr ++ d
          /\ Forall (review_event prDetails files) d
          /\ match (analyzeCode w files prDetails tr).2 with
             | JS.Normal cs => Forall (review_anchor files) cs
             | JS.Throw _ => True
             end)
  /\ (forall o r n cs disposition,
        CreateReview o r n cs disposition ∈ (main w []).1 -> Forall good_path cs).
Proof.
  split; [apply deleted_or_absent_not_reviewed|].
  split; [intros files prDetails tr; apply analyzeFiles_skips|].
  split; [intros files prDetails tr; apply analyzeCode_emits|].
  intros o r n cs disposition Hin.
  assert (In (CreateReview o r n cs disposition) (submissions (main w []).1)) as Hsub.
  { apply List.filter_In. split; [apply list_elem_of_In, Hin | reflexivity]. }
  destruct (main_once w [] eq_refl) as [H | (o' & r' & n' & cs' & _ & Hgood & H)];
    rewrite H in Hsub.
  - destruct Hsub.
  - destruct Hsub as [[= _ _ _ -> _] | []]. exact Hgood.
Qed.

(* ===================================================================== *)
(** * Theorems: event routing                                             *)
(* ===================================================================== *)

Lemma is_action_false (action : JS.value) (name : string) :
  action <> Some (JS.JStr name) -> is_action action name = false.
Proof.
  intros H. destruct action as [[| | |s| |]|]; try reflexivity.
  simpl. apply String.eqb_neq. congruence.
Qed.

Lemma event_path_default (o : option string) : default "" (truthy_path o) = default "" o.
Proof.
  destruct o as [s|]; [|reflexivity]. simpl.
  destruct (String.eqb_spec s ""); [subst|]; reflexivity.
Qed.

(** A run of [getPRDetails] that returns has read the payload and asked for
    the pull request, in that order and nothing else. *)
Lemma getPRDetails_trace (w : World) (tr tr1 : trace) (prDetails : PRDetails) :
  getPRDetails w tr = (tr1, JS.Normal prDetails) ->
  tr1 = tr ++ [ReadFile (default "" (GITHUB_EVENT_PATH w));
               PullsGet (owner prDetails) (repo prDetails) (pull_number prDetails)].
Proof.
  unfold getPRDetails. rewrite event_path_default.
  unfold bind, request, parse, lift. unfold ret, throw.
  destruct (readFileSync w tr _) as [text|]; [|discriminate].
  destruct (JS.JSON_parse text) as [payload|]; [|discriminate].
  destruct (JS.get (Some payload) "repository") as [repository|]; [|discriminate].
  destruct (JS.get (Some payload) "number") as [number|]; [|discriminate].
  destruct (JS.get repository "owner") as [repository_owner|]; [|discriminate].
  destruct (JS.get repository_owner "login") as [login|]; [|discriminate].
  destruct (JS.get repository "name") as [name|]; [|discriminate].
  destruct (pulls_get w _ login name number) as [prResponse|]; [|discriminate].
  intros [= <- <-]. simpl. rewrite <- app_assoc. reflexivity.
Qed.

(** [main] on an event whose action is neither opened nor synchronize. *)
Lemma main_unsupported (w : World) (text : string) (eventData : JS.json)
    (action : JS.value) :
  (forall tr, readFileSync w tr (default "" (GITHUB_EVENT_PATH w)) = Some text) ->
  JS.JSON_parse text = Some eventData ->
  JS.get (Some eventData) "action" = JS.Normal action ->
  action <> Some (JS.JStr "opened") ->
  action <> Some (JS.JStr "synchronize") ->
  main w [] =
  match getPRDetails w [] with
  | (tr1, JS.Normal _) =>
      (tr1 ++ [ReadFile (default "" (GITHUB_EVENT_PATH w));
               Console Log (UnsupportedEvent (GITHUB_EVENT_NAME w))], JS.Normal tt)
  | (tr1, JS.Throw e) => (tr1, JS.Throw e)
  end.
Proof.
  intros Hread Hparse Haction Hopened Hsync.
  unfold main. unfold bind at 1. destruct (getPRDetails w []) as [tr1 [prDetails|e]];
    [|reflexivity].
  unfold bind at 1. unfold request at 1. rewrite Hread.
  unfold bind at 1. unfold parse. rewrite Hparse. unfold ret at 1.
  unfold bind at 1. unfold lift at 1. rewrite Haction.
  rewrite (is_action_false _ _ Hopened), (is_action_false _ _ Hsync).
  unfold emit. rewrite app_two. reflexivity.
Qed.

(** On an opened event, once the pull request is known and the payload
    read again, [main] fetches the diff of the whole pull request and goes
    on with it. *)
Lemma main_opened (w : World) (text : string) (eventData : JS.json) :
  (forall tr, readFileSync w tr (default "" (GITHUB_EVENT_PATH w)) = Some text) ->
  JS.JSON_parse text = Some eventData ->
  JS.get (Some eventData) "action" = JS.Normal (Some (JS.JStr "opened")) ->
  main w [] =
  match getPRDetails w [] with
  | (tr1, JS.Normal prDetails) =>
      bind (getDiff w (owner prDetails) (repo prDetails) (pull_number prDetails))
        (main_with_diff w prDetails)
        (tr1 ++ [ReadFile (default "" (GITHUB_EVENT_PATH w))])
  | (tr1, JS.Throw e) => (tr1, JS.Throw e)
  end.
Proof.
  intros Hread Hparse Haction.
  unfold main. unfold bind at 1. destruct (getPRDetails w []) as [tr1 [prDetails|e]];
    [|reflexivity].
  unfold bind at 1. unfold request at 1. rewrite Hread.
  unfold bind at 1. unfold parse. rewrite Hparse. unfold ret at 1.
  unfold bind at 1. unfold lift at 1. rewrite Haction. reflexivity.
Qed.

(** On a synchronize event [main] fetches the diff between the [before]
    and [after] commits of the event, not the diff of the pull request, and
    goes on with it. *)
Lemma main_synchronize (w : World) (text : string) (eventData : JS.json)
    (before after : JS.value) :
  (forall tr, readFileSync w tr (default "" (GITHUB_EVENT_PATH w)) = Some text) ->
  JS.JSON_parse text = Some eventData ->
  JS.get (Some eventData) "action" = JS.Normal (Some (JS.JStr "synchronize")) ->
  JS.get (Some eventData) "before" = JS.Normal before ->
  JS.get (Some eventData) "after" = JS.Normal after ->
  main w [] =
  match getPRDetails w [] with
  | (tr1, JS.Normal prDetails) =>
      bind (request (CompareCommits (owner prDetails) (repo prDetails) before after)
              (fun tr => compareCommits w tr (owner prDetails) (repo prDetails) before after))
        (fun data => main_with_diff w prDetails (Some data))
        (tr1 ++ [ReadFile (default "" (GITHUB_EVENT_PATH w))])
  | (tr1, JS.Throw e) => (tr1, JS.Throw e)
  end.
Proof.
  intros Hread Hparse Haction Hbefore Hafter.
  unfold main. unfold bind at 1. destruct (getPRDetails w []) as [tr1 [prDetails|e]];
    [|reflexivity].
  unfold bind at 1. unfold request at 1. rewrite Hread.
  unfold bind at 1. unfold parse. rewrite Hparse. unfold ret at 1.
  unfold bind at 1. unfold lift at 1. rewrite Haction.
  change (is_action (Some (JS.JStr "synchronize")) "opened") with false.
  change (is_action (Some (JS.JStr "synchronize")) "synchronize") with true.
  cbv iota. unfold bind at 1. unfold lift at 1. rewrite Hbefore.
  unfold bind at 1. unfold lift at 1. rewrite Hafter. reflexivity.
Qed.

(** C3, as the code has it: [main] first reads the payload and asks the
    GitHub API for the pull request.  On an event whose action is neither
    opened nor synchronize nothing else reaches the outside but a second read
    of the payload and console output: no diff fetch, no content fetch, no
    completion request, no review.  When the pull-request request succeeds,
    the run logs the unsupported event and ends normally, its whole trace
    being the two reads, the one request and the log line. *)
Theorem unsupported_event_exits (w : World) (text : string) (eventData : JS.json)
    (action : JS.value) :
  (forall tr, readFileSync w tr (default "" (GITHUB_EVENT_PATH w)) = Some text) ->
  JS.JSON_parse text = Some eventData ->
  JS.get (Some eventData) "action" = JS.Normal action ->
  action <> Some (JS.JStr "opened") ->
  action <> Some (JS.JStr "synchronize") ->
  Forall routing_only (run w)
  /\ (forall prDetails tr1,
        getPRDetails w [] = (tr1, JS.Normal prDetails) ->
        main w [] = (run w, JS.Normal tt)
        /\ run w = [ReadFile (default "" (GITHUB_EVENT_PATH w));
                    PullsGet (owner prDetails) (repo prDetails) (pull_number prDetails);
                    ReadFile (default "" (GITHUB_EVENT_PATH w));
                    Console Log (UnsupportedEvent (GITHUB_EVENT_NAME w))]).
Proof.
  intros Hread Hparse Haction Hopened Hsync.
  pose proof (main_unsupported w text eventData action Hread Hparse Haction Hopened Hsync)
    as Hmain.
  split.
  - unfold run. rewrite Hmain.
    destruct (getPRDetails_emits w routing_only ltac:(constructor) ltac:(constructor) [])
      as (d & Ht & Hd & _).
    destruct (getPRDetails w []) as [tr1 [prDetails|e]]; simpl in Ht; subst tr1;
      apply Forall_app; (split; [exact Hd|]); repeat constructor.
  - intros prDetails tr1 Hpr.
    pose proof (getPRDetails_trace w [] tr1 prDetails Hpr) as Htr1. simpl in Htr1.
    rewrite Hpr in Hmain.
    assert (run w = tr1 ++ [ReadFile (default "" (GITHUB_EVENT_PATH w));
                             Console Log (UnsupportedEvent (GITHUB_EVENT_NAME w))]) as Hrun.
    { unfold run. rewrite Hmain. reflexivity. }
    split; [rewrite Hrun; exact Hmain | rewrite Hrun, Htr1; reflexivity].
Qed.

(* ===================================================================== *)
(** * Theorems: the path filter                                           *)
(* ===================================================================== *)

Lemma filter_sublist {A : Type} (f : A -> bool) (l : list A) : sublist (List.filter f l) l.
Proof.
  induction l as [|a l IH]; simpl; [constructor|].
  destruct (f a); [apply sublist_skip | apply sublist_cons]; exact IH.
Qed.

Lemma existsb_false_iff {A : Type} (f : A -> bool) (l : list A) :
  existsb f l = false <-> forall a, a ∈ l -> f a = false.
Proof.
  split.
  - intros H a Ha. apply not_true_is_false. intros Hfa.
    assert (existsb f l = true) as Ht; [|congruence].
    apply existsb_exists. exists a. split; [apply list_elem_of_In, Ha | exact Hfa].
  - intros H. apply not_true_is_false. intros Ht.
    apply existsb_exists in Ht as (a & Ha & Hfa).
    apply list_elem_of_In in Ha. rewrite (H a Ha) in Hfa. discriminate.
Qed.

(** C2, as the code has it: the filtered diff is the order-preserving
    subsequence of the parsed diff without exactly the file changes whose
    target path, read as the empty string when absent, matches some exclusion
    pattern.  A deleted or absent target is dropped here only when a pattern
    matches it.  With no pattern everything passes; with the one empty
    pattern that an empty [exclude] input gives (and which matches the empty
    path only), exactly the file changes with an absent or empty target are
    dropped. *)
Theorem filteredDiff_drops_matches (w : World) (patterns : list string)
    (parsedDiff : list File.t) :
  sublist (filteredDiff w patterns parsedDiff) parsedDiff
  /\ (forall file,
        file ∈ filteredDiff w patterns parsedDiff <->
        file ∈ parsedDiff
        /\ forall pattern, pattern ∈ patterns ->
                           minimatch w (default "" (File.to file)) pattern = false)
  /\ (forall before file after,
        parsedDiff = before ++ file :: after ->
        ((exists pattern,
            pattern ∈ patterns /\ minimatch w (default "" (File.to file)) pattern = true) ->
         filteredDiff w patterns parsedDiff
         = filteredDiff w patterns before ++ filteredDiff w patterns after)
        /\ ((forall pattern,
               pattern ∈ patterns ->
               minimatch w (default "" (File.to file)) pattern = false) ->
            filteredDiff w patterns parsedDiff
            = filteredDiff w patterns before ++ file :: filteredDiff w patterns after))
  /\ filteredDiff w patterns [] = []
  /\ filteredDiff w [] parsedDiff = parsedDiff
  /\ ((forall p, minimatch w p "" = String.eqb p "") ->
      exclude w = "" ->
      filteredDiff w (excludePatterns w) parsedDiff
      = List.filter (fun file => negb (String.eqb (default "" (File.to file)) "")) parsedDiff
        /\ forall file,
             file ∈ filteredDiff w (excludePatterns w) parsedDiff <->
             file ∈ parsedDiff /\ exists p, File.to file = Some p /\ p <> "").
Proof.
  assert (forall pats file,
            file ∈ filteredDiff w pats parsedDiff <->
            file ∈ parsedDiff
            /\ forall pattern, pattern ∈ pats ->
                               minimatch w (default "" (File.to file)) pattern = false)
    as Hiff.
  { intros pats file. unfold filteredDiff.
    rewrite !list_elem_of_In, List.filter_In, negb_true_iff, existsb_false_iff.
    reflexivity. }
  split; [apply filter_sublist|]. split; [apply Hiff|].
  split.
  { clear Hiff. intros before file after ->. unfold filteredDiff.
    rewrite List.filter_app. cbn [List.filter]. split.
    - intros (pattern & Hin & Hm).
      destruct (existsb _ patterns) eqn:He; [reflexivity|]. exfalso.
      rewrite existsb_false_iff in He. specialize (He pattern Hin). congruence.
    - intros Hnone.
      destruct (existsb _ patterns) eqn:He; [|reflexivity]. exfalso.
      apply existsb_exists in He as (x & Hx & Hm).
      rewrite Hnone in Hm; [discriminate | apply list_elem_of_In, Hx]. }
  split; [reflexivity|]. split.
  - clear Hiff. unfold filteredDiff. simpl.
    induction parsedDiff as [|f l IH]; [reflexivity|]. simpl. f_equal. exact IH.
  - intros Hempty Hexclude. split.
    { clear Hiff. unfold excludePatterns. rewrite Hexclude.
      change (map JS.trim (JS.split "," "")) with [""]. unfold filteredDiff.
      apply List.filter_ext. intros f. cbn [existsb].
      rewrite Hempty, orb_false_r. reflexivity. }
    intros file. rewrite Hiff.
    unfold excludePatterns. rewrite Hexclude.
    change (map JS.trim (JS.split "," "")) with [""].
    split; intros [Hin H]; (split; [exact Hin|]).
    + specialize (H "" ltac:(constructor)). rewrite Hempty in H.
      apply String.eqb_neq in H. destruct (File.to file) as [p|]; [eauto | contradiction].
    + destruct H as (p & -> & Hp). intros pattern Hpat.
      apply list_elem_of_singleton in Hpat as ->. rewrite Hempty.
      apply String.eqb_neq. exact Hp.
Qed.

(* ===================================================================== *)
(** * Concrete runs                                                       *)
(* ===================================================================== *)

(** C1, counterexample: the line number [abc] cannot be coerced to an
    integer, and the finding still yields an anchor, whose line is NaN. *)
Lemma createComment_keeps_non_numeric :
  JS.integer_value (JS.StringToNumber "abc") = None
  /\ createComment sample_file sample_chunk (Some (JS.JArr [sample_finding "abc" "rename b"]))
     = JS.Normal [ {| body := Some (JS.JStr "rename b"); path := "src/a.ts"; line := JS.NaN |} ].
Proof. split; reflexivity. Qed.

(** Three findings: the line as the numeral 42 in a string, as text that is
    no numeral, and as the JSON number 42 (which is what 42, 42.0 and 4.2e1
    parse to). *)
Lemma createComment_projects_witness :
  exists cs,
    createComment sample_file sample_chunk
      (Some (JS.JArr [sample_finding "42" "avoid magic number"; sample_finding "abc" "rename b";
                      JS.JObj [("lineNumber", JS.JNum (JS.of_N 42));
                               ("reviewComment", JS.JStr "unused")]]))
    = JS.Normal cs
    /\ Forall2 (anchor_of "src/a.ts")
         [sample_finding "42" "avoid magic number"; sample_finding "abc" "rename b";
          JS.JObj [("lineNumber", JS.JNum (JS.of_N 42)); ("reviewComment", JS.JStr "unused")]]
         cs.
Proof.
  apply (createComment_projects sample_file sample_chunk
           [sample_finding "42" "avoid magic number"; sample_finding "abc" "rename b";
            JS.JObj [("lineNumber", JS.JNum (JS.of_N 42));
                     ("reviewComment", JS.JStr "unused")]]).
  constructor; [|constructor; [|constructor; [|constructor]]].
  - exists (Some (JS.JStr "42")), (Some (JS.JStr "avoid magic number")), (JS.of_N 42).
    split; [eexists; split; [reflexivity|split; reflexivity] | reflexivity].
  - exists (Some (JS.JStr "abc")), (Some (JS.JStr "rename b")), JS.NaN.
    split; [eexists; split; [reflexivity|split; reflexivity] | reflexivity].
  - exists (Some (JS.JNum (JS.of_N 42))), (Some (JS.JStr "unused")), (JS.of_N 42).
    split; [eexists; split; [reflexivity|split; reflexivity] | reflexivity].
Defined.

(** From the text of a reply to the lines of the anchors: an integer is the
    same line however the reply writes it; beyond 2^53 the line is the
    nearest binary64 value. *)
Example createComment_lines :
  match JS.JSON_parse
          ("[" +:+ sample_finding_text "42" "a" +:+ ","
           +:+ "{" +:+ quoted "lineNumber" +:+ ":42.0}" +:+ ","
           +:+ "{" +:+ quoted "lineNumber" +:+ ":4.2e1}" +:+ ","
           +:+ sample_finding_text " 42.0 " "b" +:+ ","
           +:+ sample_finding_text "9007199254740993" "c" +:+ ","
           +:+ sample_finding_text "1e400" "d" +:+ "]") with
  | Some reviews =>
      match createComment sample_file sample_chunk (Some reviews) with
      | JS.Normal cs => map line cs
      | JS.Throw _ => []
      end
  | None => []
  end
  = [JS.of_N 42; JS.of_N 42; JS.of_N 42; JS.of_N 42; JS.of_N 9007199254740992;
     JS.Infinity false].
Proof. vm_compute. reflexivity. Qed.

(** C2, counterexample: the filter keeps a deleted and a target-less file
    change when there is no pattern, and keeps a deleted one under the
    pattern list of the default (empty) [exclude] input. *)
Lemma filteredDiff_keeps_deleted :
  (forall w, filteredDiff w [] [deleted_file; absent_file] = [deleted_file; absent_file])
  /\ excludePatterns (sample_world "opened" None []) = [""]
  /\ filteredDiff (sample_world "opened" None [])
       (excludePatterns (sample_world "opened" None [])) [deleted_file; sample_file]
     = [deleted_file; sample_file].
Proof. split; [|split]; reflexivity. Qed.

Lemma filteredDiff_drops_matches_witness :
  absent_file ∈ filteredDiff (sample_world "opened" None [])
                  (excludePatterns (sample_world "opened" None []))
                  [deleted_file; absent_file; sample_file]
  <-> absent_file ∈ [deleted_file; absent_file; sample_file]
      /\ exists p, File.to absent_file = Some p /\ p <> "".
Proof.
  apply (proj2 (proj2 (proj2 (proj2 (proj2
           (filteredDiff_drops_matches (sample_world "opened" None [])
              (excludePatterns (sample_world "opened" None []))
              [deleted_file; absent_file; sample_file])))))).
  - intros p. reflexivity.
  - reflexivity.
Defined.

(** C3, counterexample: on a closed event the run still sends one request to
    the GitHub API, for the pull request, before it looks at the action; and
    when that request fails the run ends with an error. *)
Lemma unsupported_event_calls_api :
  run (sample_world "closed" None [])
  = [ ReadFile sample_event_path;
      PullsGet (Some (JS.JStr "octo")) (Some (JS.JStr "repo")) (Some (JS.JNum (JS.of_N 7)));
      ReadFile sample_event_path;
      Console Log (UnsupportedEvent (Some "pull_request")) ]
  /\ run (without_pull_request (sample_world "closed" None []))
     = [ ReadFile sample_event_path;
         PullsGet (Some (JS.JStr "octo")) (Some (JS.JStr "repo")) (Some (JS.JNum (JS.of_N 7)));
         Console Error (UnhandledError JS.RequestError);
         Exit 1 ].
Proof. split; vm_compute; reflexivity. Qed.

Lemma unsupported_event_exits_witness :
  Forall routing_only (run (sample_world "closed" None []))
  /\ (forall prDetails tr1,
        getPRDetails (sample_world "closed" None []) [] = (tr1, JS.Normal prDetails) ->
        main (sample_world "closed" None []) []
        = (run (sample_world "closed" None []), JS.Normal tt)
        /\ run (sample_world "closed" None [])
           = [ ReadFile sample_event_path;
               PullsGet (owner prDetails) (repo prDetails) (pull_number prDetails);
               ReadFile sample_event_path;
               Console Log (UnsupportedEvent (Some "pull_request")) ]).
Proof.
  apply (unsupported_event_exits (sample_world "closed" None [])
           (sample_payload "closed")
           (default JS.JNull (JS.JSON_parse (sample_payload "closed")))
           (Some (JS.JStr "closed"))).
  - intros tr. reflexivity.
  - vm_compute. reflexivity.
  - vm_compute. reflexivity.
  - discriminate.
  - discriminate.
Defined.

(** C4, counterexample: a reply that is JSON without [reviews] is a failure
    of the completion step that [getAIResponse] does not log; it returns
    [undefined], not an empty sequence. *)
Lemma getAIResponse_missing_reviews_not_logged :
  getAIResponse (sample_world "opened" (Some "{}") []) "prompt" []
  = ([ChatCreate "prompt"], JS.Normal JS.undefined).
Proof. vm_compute. reflexivity. Qed.

Lemma getAIResponse_isolates_failures_witness :
  getAIResponse (sample_world "opened" (Some "not json") []) "prompt" []
  = logged_failure [] "prompt" JS.SyntaxError.
Proof.
  apply (proj1 (proj1 (proj2 (proj2 (proj2
           (getAIResponse_isolates_failures (sample_world "opened" (Some "not json") []) []))))
           "prompt"
           {| choices := [ {| choice_message :=
                                Some {| message_content := Some "not json" |} |} ] |}
           "not json" eq_refl eq_refl)).
  vm_compute. reflexivity.
Defined.

(** C5, the failing input: a diff that names one path in two file changes.
    The empty string stored after a failed content request reads as a miss,
    so the path is requested again; when the request succeeds with a
    non-empty text, the second file change is served from the cache. *)
Lemma analyzeCode_refetches_after_failure :
  (forall (fileCache : gmap string string) p, cache_hit (<[p := ""]> fileCache) p = false)
  /\ List.filter is_content_request
       (analyzeCode (sample_world "opened" None []) [sample_file; sample_file]
          sample_details []).1
     = [ GetContent (Some (JS.JStr "octo")) (Some (JS.JStr "repo")) "src/a.ts" "abc123";
         GetContent (Some (JS.JStr "octo")) (Some (JS.JStr "repo")) "src/a.ts" "abc123" ]
  /\ List.filter is_content_request
       (analyzeCode (with_content "Y29uc3QgYiA9IDQyOw==" (sample_world "opened" None []))
          [sample_file; sample_file] sample_details []).1
     = [ GetContent (Some (JS.JStr "octo")) (Some (JS.JStr "repo")) "src/a.ts" "abc123" ].
Proof.
  split; [intros fileCache p; apply cache_hit_insert|].
  split; vm_compute; reflexivity.
Qed.

(** Scenario A of the spec: one file, one hunk, and the reply
    [{"reviews":[{"lineNumber":"42","reviewComment":"avoid magic number"}]}];
    the run submits exactly one review, with the one anchor on line 42. *)
Example run_scenario_A :
  submissions
    (run (sample_world "opened"
            (Some (sample_reply ("[" +:+ sample_finding_text "42" "avoid magic number" +:+ "]")))
            [sample_file]))
  = [ CreateReview (Some (JS.JStr "octo")) (Some (JS.JStr "repo")) (Some (JS.JNum (JS.of_N 7)))
        [ {| body := Some (JS.JStr "avoid magic number"); path := "src/a.ts";
             line := JS.of_N 42 |} ]
        "COMMENT" ].
Proof. vm_compute. reflexivity. Qed.

(** Scenario B: the reply [{"reviews":[]}] for the only hunk; nothing is
    submitted and the run ends normally. *)
Example run_scenario_B :
  submissions (run (sample_world "opened" (Some (sample_reply "[]")) [sample_file])) = []
  /\ (main (sample_world "opened" (Some (sample_reply "[]")) [sample_file]) []).2
     = JS.Normal tt.
Proof. split; vm_compute; reflexivity. Qed.

(** Scenario F: the reply [not json]; the error is logged, nothing is
    submitted and the run ends normally. *)
Example run_scenario_F :
  List.filter (fun e => negb (is_completion_request e))
    (run (sample_world "opened" (Some "not json") [sample_file]))
  = [ ReadFile sample_event_path;
      PullsGet (Some (JS.JStr "octo")) (Some (JS.JStr "repo")) (Some (JS.JNum (JS.of_N 7)));
      ReadFile sample_event_path;
      PullsGetDiff (Some (JS.JStr "octo")) (Some (JS.JStr "repo")) (Some (JS.JNum (JS.of_N 7)));
      GetContent (Some (JS.JStr "octo")) (Some (JS.JStr "repo")) "src/a.ts" "abc123";
      Console Warn (UnableToFetch "src/a.ts" JS.RequestError);
      Console Error (AIError JS.SyntaxError) ]
  /\ (main (sample_world "opened" (Some "not json") [sample_file]) []).2 = JS.Normal tt.
Proof. split; vm_compute; reflexivity. Qed.

(** A reply whose [reviews] is a non-empty string, not an array:
    [aiResponses.flatMap] is not a function, the TypeError is caught nowhere,
    and the run exits with status 1 without submitting a review. *)
Example run_reviews_not_an_array :
  (main (sample_world "opened" (Some (sample_reply (quoted "none"))) [sample_file]) []).2
  = JS.Throw JS.TypeError
  /\ List.filter (fun e => negb (is_completion_request e))
       (run (sample_world "opened" (Some (sample_reply (quoted "none"))) [sample_file]))
     = [ ReadFile sample_event_path;
         PullsGet (Some (JS.JStr "octo")) (Some (JS.JStr "repo")) (Some (JS.JNum (JS.of_N 7)));
         ReadFile sample_event_path;
         PullsGetDiff (Some (JS.JStr "octo")) (Some (JS.JStr "repo")) (Some (JS.JNum (JS.of_N 7)));
         GetContent (Some (JS.JStr "octo")) (Some (JS.JStr "repo")) "src/a.ts" "abc123";
         Console Warn (UnableToFetch "src/a.ts" JS.RequestError);
         Console Error (UnhandledError JS.TypeError);
         Exit 1 ].
Proof. split; vm_compute; reflexivity. Qed.

Lemma deleted_files_never_reviewed_witness : reviewed deleted_file = false.
Proof.
  apply (proj1 (deleted_files_never_reviewed (sample_world "opened" None []))).
  right. reflexivity.
Defined.

(** A hunk with an unchanged, a deleted and an added line and a marker
    without number: the block as text. *)
Lemma createPrompt_numbers_lines_witness :
  exists head,
    createPrompt sample_file marked_chunk sample_details "const b = 42;"
    = head +:+ numbered_diff_block marked_chunk
    /\ numbered_diff_block marked_chunk
       = "```diff" +:+ LF +:+ "@@ -41,2 +41,2 @@" +:+ LF
         +:+ "41  const a = 1;" +:+ LF
         +:+ "42 -const b = 2;" +:+ LF
         +:+ "42 +const b = 42;" +:+ LF
         +:+ "\ No newline at end of file" +:+ LF
         +:+ LF +:+ "```" +:+ LF.
Proof.
  destruct (createPrompt_numbers_lines sample_file sample_details "const b = 42;")
    as [head H].
  exists head. split; [|reflexivity].
  apply (H marked_chunk). repeat constructor; simpl; auto.
Defined.

Lemma getAIResponse_blank_content_witness :
  reply_text blank_response = JS.Normal "{}"
  /\ JS.JSON_parse "{}" = Some (JS.JObj [])
  /\ getAIResponse (sample_world "opened" (Some "   ") []) "prompt" []
     = ([] ++ [ChatCreate "prompt"], JS.Normal JS.undefined)
  /\ (forall file chunk prDetails fullFile comments,
        "prompt" = createPrompt file chunk prDetails fullFile ->
        analyzeChunk (sample_world "opened" (Some "   ") []) file prDetails fullFile
          comments chunk []
        = ([] ++ [ChatCreate "prompt"], JS.Normal comments)).
Proof.
  apply (getAIResponse_blank_content (sample_world "opened" (Some "   ") []) "prompt" []
           blank_response
           {| choice_message := Some {| message_content := Some "   " |} |} []).
  - reflexivity.
  - reflexivity.
  - vm_compute. reflexivity.
Defined.

Lemma main_opened_witness :
  main (sample_world "opened" None [sample_file]) [] =
  match getPRDetails (sample_world "opened" None [sample_file]) [] with
  | (tr1, JS.Normal prDetails) =>
      bind (getDiff (sample_world "opened" None [sample_file]) (owner prDetails)
              (repo prDetails) (pull_number prDetails))
        (main_with_diff (sample_world "opened" None [sample_file]) prDetails)
        (tr1 ++ [ReadFile sample_event_path])
  | (tr1, JS.Throw e) => (tr1, JS.Throw e)
  end.
Proof.
  apply (main_opened (sample_world "opened" None [sample_file]) (sample_payload "opened")
           (default JS.JNull (JS.JSON_parse (sample_payload "opened")))).
  - intros tr. reflexivity.
  - vm_compute. reflexivity.
  - vm_compute. reflexivity.
Defined.

Lemma main_synchronize_witness :
  main (sample_world "synchronize" None [sample_file]) [] =
  match getPRDetails (sample_world "synchronize" None [sample_file]) [] with
  | (tr1, JS.Normal prDetails) =>
      bind (request (CompareCommits (owner prDetails) (repo prDetails) None None)
              (fun tr => compareCommits (sample_world "synchronize" None [sample_file]) tr
                           (owner prDetails) (repo prDetails) None None))
        (fun data => main_with_diff (sample_world "synchronize" None [sample_file])
                       prDetails (Some data))
        (tr1 ++ [ReadFile sample_event_path])
  | (tr1, JS.Throw e) => (tr1, JS.Throw e)
  end.
Proof.
  apply (main_synchronize (sample_world "synchronize" None [sample_file])
           (sample_payload "synchronize")
           (default JS.JNull (JS.JSON_parse (sample_payload "synchronize"))) None None).
  - intros tr. reflexivity.
  - vm_compute. reflexivity.
  - vm_compute. reflexivity.
  - vm_compute. reflexivity.
  - vm_compute. reflexivity.
Defined.

Lemma analyzeChunks_requests_witness :
  exists d,
    (analyzeChunks (sample_world "opened" None []) sample_file sample_details ""
       [] [sample_chunk; sample_chunk] []).1 = [] ++ d
    /\ List.filter is_completion_request d
       = map (fun chunk => ChatCreate (createPrompt sample_file chunk sample_details ""))
           [sample_chunk; sample_chunk].
Proof.
  apply (analyzeChunks_requests (sample_world "opened" None []) sample_file sample_details
           "" [sample_chunk; sample_chunk] [] []
           (analyzeChunks (sample_world "opened" None []) sample_file sample_details ""
              [] [sample_chunk; sample_chunk] []).1 []).
  vm_compute. reflexivity.
Defined.

Lemma createPrompt_reads_witness :
  createPrompt sample_file sample_chunk sample_details "const b = 42;" =
  createPrompt (File.mk None (Some "src/a.ts") []) sample_chunk
    {| owner := None; repo := None; pull_number := None; title := "Fix b";
       description := ""; headSha := "" |} "const b = 42;".
Proof.
  apply (createPrompt_reads sample_file (File.mk None (Some "src/a.ts") []) sample_chunk
           sample_chunk sample_details
           {| owner := None; repo := None; pull_number := None; title := "Fix b";
              description := ""; headSha := "" |} "const b = 42;");
    reflexivity.
Defined.

(* ===================================================================== *)
(** * Theorems: the order of the requests of a run                        *)
(* ===================================================================== *)

Lemma advance_all_app (s0 s : stage) (tr d : trace) :
  advance_all s0 tr = Some s -> advance_all s0 (tr ++ d) = advance_all s d.
Proof.
  revert s0. induction tr as [|e tr IH]; intros s0 H; simpl in *.
  - injection H as ->. reflexivity.
  - destruct (advance s0 e); [apply IH; exact H | discriminate].
Qed.

Lemma advance_all_stay (s : stage) (d : trace) :
  Forall (fun e => advance s e = Some s) d -> advance_all s d = Some s.
Proof.
  induction 1 as [|e d He _ IH]; simpl; [reflexivity | rewrite He; exact IH].
Qed.

Section Order.

Context {A B : Type}.

Lemma leads_ret (s : stage) (a : A) (T : stage -> A -> Prop) :
  s <> Exited -> T s a -> leads s (ret a) T.
Proof. intros Hs HT s0 tr H. exists s. simpl. auto. Qed.

Lemma leads_request (s s1 : stage) (e : event) (answer : trace -> option A)
    (T : stage -> A -> Prop) :
  advance s e = Some s1 -> s1 <> Exited -> (forall a, T s1 a) ->
  leads s (request e answer) T.
Proof.
  intros He Hs HT s0 tr H. exists s1. unfold request. simpl.
  rewrite (advance_all_app _ _ _ _ H). simpl. rewrite He.
  split; [reflexivity|]. split; [exact Hs|]. destruct (answer tr); auto.
Qed.

Lemma leads_emits (s : stage) (m : M A) (P : event -> Prop) (Q : A -> Prop)
    (T : stage -> A -> Prop) :
  s <> Exited -> emits m P Q -> (forall e, P e -> advance s e = Some s) ->
  (forall a, Q a -> T s a) -> leads s m T.
Proof.
  intros Hs Hm HP HQ s0 tr H. destruct (Hm tr) as (d & Hd & HF & Hr).
  exists s. rewrite Hd, (advance_all_app _ _ _ _ H). split.
  { apply advance_all_stay. eapply Forall_impl; [exact HF | exact HP]. }
  split; [exact Hs|]. destruct ((m tr).2); auto.
Qed.

Lemma leads_bind (s : stage) (m : M A) (k : A -> M B) (T : stage -> A -> Prop)
    (T' : stage -> B -> Prop) :
  leads s m T -> (forall s1 a, T s1 a -> leads s1 (k a) T') -> leads s (bind m k) T'.
Proof.
  intros Hm Hk s0 tr H. destruct (Hm s0 tr H) as (s1 & H1 & Hne & Hr).
  unfold bind. destruct (m tr) as [tr1 [a|e]]; simpl in *.
  - apply (Hk s1 a Hr s0 tr1 H1).
  - exists s1. auto.
Qed.

Lemma leads_bind_request (s s1 : stage) (e : event) (answer : trace -> option A)
    (k : A -> M B) (T' : stage -> B -> Prop) :
  advance s e = Some s1 -> s1 <> Exited -> (forall a, leads s1 (k a) T') ->
  leads s (bind (request e answer) k) T'.
Proof.
  intros He Hs Hk. apply leads_bind with (T := fun s' _ => s' = s1).
  - apply (leads_request s s1); auto.
  - intros s' a ->. apply Hk.
Qed.

Lemma leads_bind_lift (s : stage) (c : JS.completion A) (k : A -> M B)
    (T' : stage -> B -> Prop) :
  s <> Exited -> (forall a, leads s (k a) T') -> leads s (bind (lift c) k) T'.
Proof.
  intros Hs Hk. apply leads_bind with (T := fun s' _ => s' = s).
  - apply (leads_emits s _ (fun _ => False) anything); auto; [|tauto].
    apply emits_lift. constructor.
  - intros s' a ->. apply Hk.
Qed.

End Order.

Lemma leads_bind_parse {B : Type} (s : stage) (text : string) (k : JS.json -> M B)
    (T' : stage -> B -> Prop) :
  s <> Exited -> (forall a, leads s (k a) T') -> leads s (bind (parse text) k) T'.
Proof.
  intros Hs Hk. apply leads_bind with (T := fun s' _ => s' = s).
  - apply (leads_emits s _ (fun _ => False) anything); auto; [|tauto].
    apply emits_parse.
  - intros s' a ->. apply Hk.
Qed.

Lemma getPRDetails_leads (w : World) :
  leads Start (getPRDetails w) (fun s _ => s = PullRequestKnown).
Proof.
  unfold getPRDetails.
  apply (leads_bind_request Start PayloadRead); [reflexivity | discriminate |].
  intros text. apply leads_bind_parse; [discriminate|]. intros payload.
  do 5 (apply leads_bind_lift; [discriminate|]; intros ?).
  apply (leads_bind_request PayloadRead PullRequestKnown); [reflexivity | discriminate |].
  intros prResponse. apply leads_ret; [discriminate | reflexivity].
Qed.

Lemma review_event_stays (prDetails : PRDetails) (files0 : list File.t) (e : event) :
  review_event prDetails files0 e -> advance Analysing e = Some Analysing.
Proof. destruct e; simpl; (reflexivity || contradiction). Qed.

Lemma main_with_diff_leads (w : World) (prDetails : PRDetails) (diff : option string) :
  leads Analysing (main_with_diff w prDetails diff) (fun _ _ => True).
Proof.
  unfold main_with_diff. destruct (truthy_path diff) as [d|].
  - apply leads_bind with (T := fun s' _ => s' = Analysing).
    + eapply leads_emits; [discriminate | apply analyzeCode_emits | | auto].
      apply review_event_stays.
    + intros s' [|c cs] ->; [apply leads_ret; [discriminate | exact I]|].
      apply (leads_request Analysing Submitted); [reflexivity | discriminate | auto].
  - apply (leads_emits Analysing _ (fun e => advance Analysing e = Some Analysing) anything);
      [discriminate | | auto | auto].
    apply emits_emit; constructor.
Qed.

Lemma main_leads (w : World) : leads Start (main w) (fun _ _ => True).
Proof.
  unfold main. eapply leads_bind; [apply getPRDetails_leads|].
  intros s1 prDetails ->.
  apply (leads_bind_request PullRequestKnown EventRead); [reflexivity | discriminate |].
  intros text. apply leads_bind_parse; [discriminate|]. intros eventData.
  apply leads_bind_lift; [discriminate|]. intros action.
  destruct (is_action action "opened").
  { apply (leads_bind_request EventRead Analysing); [reflexivity | discriminate |].
    intros diff. apply main_with_diff_leads. }
  destruct (is_action action "synchronize").
  { do 2 (apply leads_bind_lift; [discriminate|]; intros ?).
    apply (leads_bind_request EventRead Analysing); [reflexivity | discriminate |].
    intros data. apply main_with_diff_leads. }
  apply (leads_emits EventRead _ (fun e => advance EventRead e = Some EventRead) anything);
    [discriminate | | auto | auto].
  apply emits_emit; constructor.
Qed.

(** X1: the requests of every run come in one fixed order.  The payload is
    read, the pull request is fetched, the payload is read again, one diff is
    fetched (of the pull request or of a commit range); only then come content
    and completion requests, then at most one review, after which nothing but
    console output follows; the process exits, last of all, exactly when
    [main] threw.  A run may stop at any point of this order. *)
Theorem run_in_order (w : World) :
  exists s, advance_all Start (run w) = Some s
            /\ (s = Exited <-> exists e, (main w []).2 = JS.Throw e).
Proof.
  destruct (main_leads w Start [] eq_refl) as (s & H & Hne & _).
  unfold run. destruct (main w []) as [tr [a|e]]; simpl in *.
  - exists s. split; [exact H|]. split; [contradiction | intros [e He]; discriminate].
  - exists Exited. rewrite (advance_all_app _ _ _ _ H). split; [|split; eauto].
    destruct s; try contradiction; reflexivity.
Qed.

(* ===================================================================== *)
(** * Theorems: what the requests of a run name                           *)
(* ===================================================================== *)

(** Every way [getPRDetails] can end. *)
Lemma getPRDetails_outcome (w : World) (tr : trace) :
  getPRDetails w tr =
  let p := default "" (GITHUB_EVENT_PATH w) in
  match readFileSync w tr p with
  | None => (tr ++ [ReadFile p], JS.Throw JS.RequestError)
  | Some text =>
      match JS.JSON_parse text with
      | None => (tr ++ [ReadFile p], JS.Throw JS.SyntaxError)
      | Some payload =>
          match payload_coordinates payload with
          | JS.Throw e => (tr ++ [ReadFile p], JS.Throw e)
          | JS.Normal (login, name, number) =>
              match pulls_get w (tr ++ [ReadFile p]) login name number with
              | None =>
                  (tr ++ [ReadFile p; PullsGet login name number],
                   JS.Throw JS.RequestError)
              | Some prResponse =>
                  (tr ++ [ReadFile p; PullsGet login name number],
                   JS.Normal {| owner := login;
                                repo := name;
                                pull_number := number;
                                title := default "" (pr_title prResponse);
                                description := default "" (pr_body prResponse);
                                headSha := pr_head_sha prResponse |})
              end
          end
      end
  end.
Proof.
  unfold getPRDetails. rewrite event_path_default. cbv zeta.
  unfold bind at 1. unfold request at 1.
  destruct (readFileSync w tr _) as [text|]; [|reflexivity].
  unfold bind at 1. unfold parse.
  destruct (JS.JSON_parse text) as [payload|]; [|reflexivity].
  unfold payload_coordinates, bind_completion, bind, lift, ret, request.
  destruct (JS.get (Some payload) "repository") as [repository|e]; [|reflexivity].
  destruct (JS.get (Some payload) "number") as [number|e]; [|reflexivity].
  destruct (JS.get repository "owner") as [repository_owner|e]; [|reflexivity].
  destruct (JS.get repository_owner "login") as [login|e]; [|reflexivity].
  destruct (JS.get repository "name") as [name|e]; [|reflexivity].
  rewrite app_two. destruct (pulls_get w _ login name number); reflexivity.
Qed.

Section Addressed.

Variable w : World.
Variable text : string.
Variable payload : JS.json.

Hypothesis stable :
  forall tr, readFileSync w tr (default "" (GITHUB_EVENT_PATH w)) = Some text.
Hypothesis parsed : JS.JSON_parse text = Some payload.

(** [getPRDetails] names the repository and the pull request of the
    payload, in its request and in what it returns. *)
Lemma getPRDetails_addresses (P : event -> Prop) :
  (forall p, P (ReadFile p)) ->
  (forall o r n, payload_coordinates payload = JS.Normal (o, r, n) -> P (PullsGet o r n)) ->
  emits (getPRDetails w) P
    (fun prDetails =>
       payload_coordinates payload
       = JS.Normal (owner prDetails, repo prDetails, pull_number prDetails)).
Proof.
  intros Hread Hget tr. rewrite getPRDetails_outcome. cbv zeta.
  rewrite stable, parsed.
  destruct (payload_coordinates payload) as [[[login name] number]|e] eqn:Hc.
  - exists [ReadFile (default "" (GITHUB_EVENT_PATH w)); PullsGet login name number].
    destruct (pulls_get w _ login name number); simpl;
      (split; [reflexivity|]); (split; [|auto]);
      (constructor; [apply Hread | constructor; [apply Hget; reflexivity | constructor]]).
  - exists [ReadFile (default "" (GITHUB_EVENT_PATH w))]. simpl.
    split; [reflexivity|]. split; [|exact I]. constructor; [apply Hread | constructor].
Qed.

End Addressed.

Section AnyEvent.

Variable w : World.
Variable prDetails : PRDetails.
Variable P : event -> Prop.

Hypothesis P_console : forall l m, P (Console l m).

Lemma getAIResponse_emits_any (prompt : string) :
  P (ChatCreate prompt) -> emits (getAIResponse w prompt) P anything.
Proof.
  intros Hp. unfold getAIResponse. apply emits_try_catch.
  - eapply emits_bind with (Q1 := anything).
    { apply emits_request; [exact Hp | constructor]. }
    intros response _. eapply emits_bind with (Q1 := anything).
    { apply emits_lift. constructor. }
    intros res _. eapply emits_bind with (Q1 := anything); [apply emits_parse|].
    intros parsed _. apply emits_lift. constructor.
  - intros e. eapply emits_bind with (Q1 := anything).
    { apply emits_emit; [apply P_console | constructor]. }
    intros _ _. apply emits_ret. constructor.
Qed.

Lemma analyzeChunks_emits_any (file : File.t) (fullFile : string) (chunks : list Chunk.t) :
  (forall chunk, chunk ∈ chunks -> P (ChatCreate (createPrompt file chunk prDetails fullFile))) ->
  forall comments,
    emits (analyzeChunks w file prDetails fullFile comments chunks) P anything.
Proof.
  induction chunks as [|chunk rest IH]; intros Hp comments; simpl.
  - apply emits_ret. constructor.
  - eapply emits_bind with (Q1 := anything).
    + unfold analyzeChunk. eapply emits_bind with (Q1 := anything).
      { apply getAIResponse_emits_any. apply Hp. constructor. }
      intros v _. destruct (JS.truthy v); [|apply emits_ret; constructor].
      eapply emits_bind with (Q1 := anything); [apply emits_lift; constructor|].
      intros cs _. apply emits_ret. constructor.
    + intros comments' _. apply IH. intros c Hc. apply Hp. constructor. exact Hc.
Qed.

(** The cache block: a hit leaves the cache as it is; a miss asks once and
    stores some text under the path. *)
Lemma fillCache_emits_any (fileCache : gmap string string) (p : string) :
  (cache_hit fileCache p = false ->
   P (GetContent (owner prDetails) (repo prDetails) p (headSha prDetails))) ->
  emits (fillCache w prDetails fileCache p) P
    (fun fileCache' =>
       if cache_hit fileCache p then fileCache' = fileCache
       else exists text, stored_text w prDetails p text
                         /\ fileCache' = <[p := text]> fileCache).
Proof.
  intros Hp tr. rewrite fillCache_outcome. cbv zeta.
  destruct (cache_hit fileCache p).
  - exists []. rewrite app_nil_r. simpl. auto.
  - specialize (Hp eq_refl).
    destruct (getContent w tr _ _ p _) as [[encoded|]|] eqn:Hget; eexists; simpl;
      (split; [reflexivity|]);
      (split; [repeat constructor; auto|]);
      eexists; (split; [|reflexivity]); unfold stored_text; eauto.
Qed.

Variable I : gmap string string -> Prop.
Variable files0 : list File.t.

Hypothesis on_hit :
  forall file p fileCache chunk,
    file ∈ files0 -> reviewed file = true -> File.to file = Some p ->
    I fileCache -> cache_hit fileCache p = true -> chunk ∈ File.chunks file ->
    P (ChatCreate (createPrompt file chunk prDetails (cache_text w fileCache p))).

Hypothesis on_miss :
  forall file p fileCache,
    file ∈ files0 -> reviewed file = true -> File.to file = Some p ->
    I fileCache -> cache_hit fileCache p = false ->
    P (GetContent (owner prDetails) (repo prDetails) p (headSha prDetails))
    /\ forall fetched,
         stored_text w prDetails p fetched ->
         I (<[p := fetched]> fileCache)
         /\ forall chunk, chunk ∈ File.chunks file ->
                          P (ChatCreate (createPrompt file chunk prDetails fetched)).

(** The loop over the file changes keeps an invariant of the cache that
    every miss keeps, and emits only what a hit and a miss may emit. *)
Lemma analyzeFiles_invariant (files : list File.t) :
  (forall file, file ∈ files -> file ∈ files0) ->
  forall fileCache comments,
    I fileCache -> emits (analyzeFiles w prDetails fileCache comments files) P anything.
Proof.
  induction files as [|file rest IH]; intros Hsub fileCache comments Hinv; simpl.
  - apply emits_ret. constructor.
  - assert (forall f, f ∈ rest -> f ∈ files0) as Hrest.
    { intros f Hf. apply Hsub. constructor. exact Hf. }
    assert (file ∈ files0) as Hin by (apply Hsub; constructor).
    destruct (is_dev_null (File.to file)) eqn:Hd; [apply IH; assumption|].
    destruct (truthy_path (File.to file)) as [p|] eqn:Hp; [|apply IH; assumption].
    assert (reviewed file = true) as Hr.
    { unfold reviewed. rewrite Hd, Hp. reflexivity. }
    apply truthy_path_Some in Hp as [Hto _].
    eapply emits_bind.
    { apply fillCache_emits_any. intros Hmiss.
      apply (on_miss file p fileCache Hin Hr Hto Hinv Hmiss). }
    intros fileCache' Hfill. cbv beta in Hfill.
    destruct (cache_hit fileCache p) eqn:Hhit.
    + subst fileCache'. eapply emits_bind with (Q1 := anything).
      { apply analyzeChunks_emits_any. intros chunk Hc.
        apply (on_hit file p fileCache chunk); assumption. }
      intros comments' _. apply IH; assumption.
    + destruct Hfill as (fetched & Hstored & ->).
      destruct (on_miss file p fileCache Hin Hr Hto Hinv Hhit) as [_ Hafter].
      destruct (Hafter fetched Hstored) as [Hinv' Hprompt].
      eapply emits_bind with (Q1 := anything).
      { apply analyzeChunks_emits_any. intros chunk Hc.
        unfold cache_text. rewrite lookup_insert_eq. apply Hprompt, Hc. }
      intros comments' _. apply IH; assumption.
Qed.

End AnyEvent.

Lemma analyzeCode_analysis_events (w : World) (files : list File.t) (prDetails : PRDetails) :
  emits (analyzeCode w files prDetails) (analysis_event prDetails) anything.
Proof.
  unfold analyzeCode.
  apply analyzeFiles_invariant with (I := fun _ => True) (files0 := files);
    simpl; auto.
Qed.

Lemma main_with_diff_events (w : World) (prDetails : PRDetails) (diff : option string) :
  emits (main_with_diff w prDetails diff) (review_or_analysis prDetails) anything.
Proof.
  unfold main_with_diff. destruct (truthy_path diff) as [d|].
  - eapply emits_bind with (Q1 := anything).
    { eapply emits_weaken; [apply analyzeCode_analysis_events | | auto].
      intros e He. destruct e; try contradiction; exact He. }
    intros [|c cs] _; [apply emits_ret; constructor|].
    apply emits_request; [simpl; auto | constructor].
  - apply emits_emit; constructor.
Qed.

Lemma Forall_run (w : World) (P : event -> Prop) :
  emits (main w) P anything ->
  (forall l m, P (Console l m)) -> (forall status, P (Exit status)) ->
  Forall P (run w).
Proof.
  intros H Hconsole Hexit. destruct (H []) as (d & Hd & HF & _).
  unfold run. destruct (main w []) as [tr [a|e]]; simpl in *; subst tr; [exact HF|].
  apply Forall_app. split; [exact HF|]. constructor; [apply Hconsole|].
  constructor; [apply Hexit | constructor].
Qed.

Lemma elem_of_run (w : World) (e : event) : e ∈ (main w []).1 -> e ∈ run w.
Proof.
  unfold run. destruct (main w []) as [tr [a|err]]; simpl; [auto|].
  intros H. apply elem_of_app. auto.
Qed.

(** X2: on an [opened] event the diff is the one of the pull request, never a
    commit range, and every request of the run that names a repository or a
    pull request (the metadata request, the diff request, each content
    request, the review) names [repository.owner.login], [repository.name]
    and [number] of the payload.  The diff is requested whenever
    [getPRDetails] returns. *)
Theorem opened_run_names_the_pull_request (w : World) (text : string) (payload : JS.json) :
  (forall tr, readFileSync w tr (default "" (GITHUB_EVENT_PATH w)) = Some text) ->
  JS.JSON_parse text = Some payload ->
  JS.get (Some payload) "action" = JS.Normal (Some (JS.JStr "opened")) ->
  Forall (opened_event payload) (run w)
  /\ (forall tr1 prDetails,
        getPRDetails w [] = (tr1, JS.Normal prDetails) ->
        PullsGetDiff (owner prDetails) (repo prDetails) (pull_number prDetails) ∈ run w).
Proof.
  intros stable parsed Haction. split.
  2:{ intros tr1 prDetails Hg. apply elem_of_run.
      rewrite (main_opened w text payload stable parsed Haction), Hg.
      unfold bind, getDiff, request.
      destruct (pulls_get_diff w _ _ _ _) as [diff|]; simpl.
      - destruct (main_with_diff_events w prDetails diff
                    ((tr1 ++ [ReadFile (default "" (GITHUB_EVENT_PATH w))])
                     ++ [PullsGetDiff (owner prDetails) (repo prDetails)
                           (pull_number prDetails)])) as (d & -> & _).
        rewrite !elem_of_app. left. right. constructor.
      - rewrite elem_of_app. right. constructor. }
  apply Forall_run; [|constructor|constructor].
  unfold main. eapply emits_bind.
  { apply (getPRDetails_addresses w text payload stable parsed); simpl; auto. }
  intros prDetails Hpr. cbv beta in Hpr.
  eapply emits_bind with (Q1 := fun t => t = text).
  { apply emits_request; [exact I|]. intros tr a Ha. rewrite stable in Ha. congruence. }
  intros ? ->. unfold parse. rewrite parsed.
  apply emits_bind with (Q1 := eq payload); [apply emits_ret; reflexivity|].
  intros ? <-.
  eapply emits_bind with (Q1 := eq (Some (JS.JStr "opened"))).
  { apply emits_lift. intros a Ha. rewrite Haction in Ha. congruence. }
  intros ? <-. change (is_action (Some (JS.JStr "opened")) "opened") with true. cbv iota.
  eapply emits_bind with (Q1 := anything).
  { unfold getDiff. apply emits_request; [exact Hpr | constructor]. }
  intros diff _. eapply emits_weaken; [apply main_with_diff_events | | auto].
  intros e He. destruct e; simpl in *; try contradiction; auto.
  - destruct He as (-> & -> & _). eauto.
  - destruct He as (-> & -> & -> & _). exact Hpr.
Qed.

(** X3: on a [synchronize] event the diff is the one of the commit range from
    [before] to [after] of the payload, never the whole pull request, and
    every request names the repository and the pull request of the payload.
    The range is requested whenever [getPRDetails] returns, also when the
    payload has no [before] or [after]: the member then reads [undefined]. *)
Theorem synchronize_run_names_the_commit_range (w : World) (text : string)
    (payload : JS.json) :
  (forall tr, readFileSync w tr (default "" (GITHUB_EVENT_PATH w)) = Some text) ->
  JS.JSON_parse text = Some payload ->
  JS.get (Some payload) "action" = JS.Normal (Some (JS.JStr "synchronize")) ->
  Forall (synchronize_event payload) (run w)
  /\ (forall tr1 prDetails,
        getPRDetails w [] = (tr1, JS.Normal prDetails) ->
        exists base head,
          JS.get (Some payload) "before" = JS.Normal base
          /\ JS.get (Some payload) "after" = JS.Normal head
          /\ CompareCommits (owner prDetails) (repo prDetails) base head ∈ run w).
Proof.
  intros stable parsed Haction. split.
  2:{ intros tr1 prDetails Hg.
      assert (exists base head,
                JS.get (Some payload) "before" = JS.Normal base
                /\ JS.get (Some payload) "after" = JS.Normal head)
        as (base & head & Hbase & Hhead).
      { destruct payload; try discriminate; simpl; eauto. }
      exists base, head. split; [exact Hbase|]. split; [exact Hhead|].
      apply elem_of_run.
      rewrite (main_synchronize w text payload base head stable parsed Haction Hbase Hhead),
        Hg.
      unfold bind, request.
      destruct (compareCommits w _ _ _ _ _) as [data|]; simpl.
      - destruct (main_with_diff_events w prDetails (Some data)
                    ((tr1 ++ [ReadFile (default "" (GITHUB_EVENT_PATH w))])
                     ++ [CompareCommits (owner prDetails) (repo prDetails) base head]))
          as (d & -> & _).
        rewrite !elem_of_app. left. right. constructor.
      - rewrite elem_of_app. right. constructor. }
  apply Forall_run; [|constructor|constructor].
  unfold main. eapply emits_bind.
  { apply (getPRDetails_addresses w text payload stable parsed); simpl; auto. }
  intros prDetails Hpr. cbv beta in Hpr.
  eapply emits_bind with (Q1 := fun t => t = text).
  { apply emits_request; [exact I|]. intros tr a Ha. rewrite stable in Ha. congruence. }
  intros ? ->. unfold parse. rewrite parsed.
  apply emits_bind with (Q1 := eq payload); [apply emits_ret; reflexivity|].
  intros ? <-.
  eapply emits_bind with (Q1 := eq (Some (JS.JStr "synchronize"))).
  { apply emits_lift. intros a Ha. rewrite Haction in Ha. congruence. }
  intros ? <-.
  change (is_action (Some (JS.JStr "synchronize")) "opened") with false.
  change (is_action (Some (JS.JStr "synchronize")) "synchronize") with true. cbv iota.
  eapply emits_bind with (Q1 := fun v => JS.get (Some payload) "before" = JS.Normal v).
  { apply emits_lift. auto. }
  intros before Hbefore.
  eapply emits_bind with (Q1 := fun v => JS.get (Some payload) "after" = JS.Normal v).
  { apply emits_lift. auto. }
  intros after Hafter.
  eapply emits_bind with (Q1 := anything).
  { apply emits_request; [simpl; eauto | constructor]. }
  intros data _. eapply emits_weaken; [apply main_with_diff_events | | auto].
  intros e He. destruct e; simpl in *; try contradiction; auto.
  - destruct He as (-> & -> & _). eauto.
  - destruct He as (-> & -> & -> & _). exact Hpr.
Qed.

(* ===================================================================== *)
(** * Theorems: how [getPRDetails] fails                                  *)
(* ===================================================================== *)

Lemma get_throws (v : JS.value) (k : string) (e : JS.error) :
  JS.get v k = JS.Throw e -> e = JS.TypeError.
Proof. destruct v as [[]|]; simpl; congruence. Qed.

Lemma Number_throws (v : JS.value) (e : JS.error) :
  JS.Number v = JS.Throw e -> e = JS.TypeError.
Proof.
  destruct v as [j|]; simpl; [|discriminate].
  destruct (JS.to_string_throws j); congruence.
Qed.

Lemma payload_coordinates_throws (payload : JS.json) (e : JS.error) :
  payload_coordinates payload = JS.Throw e -> e = JS.TypeError.
Proof.
  unfold payload_coordinates, bind_completion.
  repeat match goal with
         | |- context [match JS.get ?v ?k with _ => _ end] =>
             let H := fresh "H" in
             destruct (JS.get v k) eqn:H;
             [|intros [= <-]; exact (get_throws _ _ _ H)]
         end.
  discriminate.
Qed.

(** X4: every way [getPRDetails] fails.  A payload that cannot be read, that
    is no JSON, or whose [repository] or [repository.owner] is missing or
    null ends the function before any request to GitHub; a failed metadata
    request ends it after that one request.  A missing [number], [login] or
    [name] is no failure: the member reads [undefined] and the request is
    sent with it. *)
Theorem getPRDetails_failures (w : World) (tr : trace) :
  (readFileSync w tr (default "" (GITHUB_EVENT_PATH w)) = None ->
   getPRDetails w tr
   = (tr ++ [ReadFile (default "" (GITHUB_EVENT_PATH w))], JS.Throw JS.RequestError))
  /\ (forall text,
        readFileSync w tr (default "" (GITHUB_EVENT_PATH w)) = Some text ->
        JS.JSON_parse text = None ->
        getPRDetails w tr
        = (tr ++ [ReadFile (default "" (GITHUB_EVENT_PATH w))], JS.Throw JS.SyntaxError))
  /\ (forall text payload e,
        readFileSync w tr (default "" (GITHUB_EVENT_PATH w)) = Some text ->
        JS.JSON_parse text = Some payload ->
        payload_coordinates payload = JS.Throw e ->
        getPRDetails w tr
        = (tr ++ [ReadFile (default "" (GITHUB_EVENT_PATH w))], JS.Throw JS.TypeError))
  /\ (forall text payload o r n,
        readFileSync w tr (default "" (GITHUB_EVENT_PATH w)) = Some text ->
        JS.JSON_parse text = Some payload ->
        payload_coordinates payload = JS.Normal (o, r, n) ->
        (getPRDetails w tr).1
        = tr ++ [ReadFile (default "" (GITHUB_EVENT_PATH w)); PullsGet o r n]
        /\ (pulls_get w (tr ++ [ReadFile (default "" (GITHUB_EVENT_PATH w))]) o r n = None ->
            (getPRDetails w tr).2 = JS.Throw JS.RequestError))
  /\ (forall fs,
        match JS.lookup_field "repository" fs with
        | Some (JS.JObj rfs) =>
            match JS.lookup_field "owner" rfs with
            | Some (JS.JObj ofs) =>
                payload_coordinates (JS.JObj fs)
                = JS.Normal (JS.lookup_field "login" ofs, JS.lookup_field "name" rfs,
                             JS.lookup_field "number" fs)
            | Some JS.JNull | None =>
                payload_coordinates (JS.JObj fs) = JS.Throw JS.TypeError
            | Some _ =>
                payload_coordinates (JS.JObj fs)
                = JS.Normal (JS.undefined, JS.lookup_field "name" rfs,
                             JS.lookup_field "number" fs)
            end
        | _ => payload_coordinates (JS.JObj fs) = JS.Throw JS.TypeError
        end).
Proof.
  split; [|split; [|split; [|split]]].
  - intros H. rewrite getPRDetails_outcome. cbv zeta. rewrite H. reflexivity.
  - intros text H Hp. rewrite getPRDetails_outcome. cbv zeta. rewrite H, Hp. reflexivity.
  - intros text payload e H Hp Hc. rewrite getPRDetails_outcome. cbv zeta.
    rewrite H, Hp, Hc, (payload_coordinates_throws _ _ Hc). reflexivity.
  - intros text payload o r n H Hp Hc. rewrite getPRDetails_outcome. cbv zeta.
    rewrite H, Hp, Hc. split.
    + destruct (pulls_get w _ o r n); reflexivity.
    + intros ->. reflexivity.
  - intros fs. unfold payload_coordinates. simpl.
    destruct (JS.lookup_field "repository" fs) as [[| | | | |rfs]|]; simpl; try reflexivity.
    destruct (JS.lookup_field "owner" rfs) as [[| | | | |ofs]|]; reflexivity.
Qed.

(* ===================================================================== *)
(** * Theorems: replies that abort the analysis                           *)
(* ===================================================================== *)

Lemma comment_of_outcome (file : File.t) (p : string) (e : JS.json) :
  truthy_path (File.to file) = Some p ->
  match comment_of file e with
  | JS.Normal cs => ~ unreadable_entry e /\ length cs = 1
  | JS.Throw err => err = JS.TypeError /\ unreadable_entry e
  end.
Proof.
  intros Hp. unfold comment_of. rewrite Hp. unfold bind_completion.
  destruct (JS.get (Some e) "reviewComment") as [b|err] eqn:Hb.
  - destruct (JS.get (Some e) "lineNumber") as [l|err] eqn:Hl.
    + destruct (JS.Number l) as [n|err] eqn:Hn.
      * split; [|reflexivity]. intros [-> | (l' & Hl' & Hn')]; [discriminate|].
        rewrite Hl in Hl'. injection Hl' as <-. rewrite Hn in Hn'. discriminate.
      * split; [exact (Number_throws _ _ Hn)|]. right. exists l.
        rewrite (Number_throws _ _ Hn) in Hn. auto.
    + destruct e; discriminate.
  - split; [exact (get_throws _ _ _ Hb)|]. left. destruct e; (reflexivity || discriminate).
Qed.

Lemma createComment_throws (file : File.t) (chunk : Chunk.t) (v : JS.value) (e : JS.error) :
  createComment file chunk v = JS.Throw e -> e = JS.TypeError.
Proof.
  destruct v as [[| | | |es|]|]; simpl; try congruence.
  induction es as [|a es IH]; simpl; [discriminate|].
  unfold bind_completion.
  destruct (comment_of file a) as [cs|err] eqn:Ha.
  - destruct (flatMap (comment_of file) es); [discriminate|]. intros [= <-]. apply IH.
    reflexivity.
  - intros [= <-]. unfold comment_of in Ha.
    destruct (truthy_path (File.to file)); [|discriminate].
    unfold bind_completion in Ha.
    destruct (JS.get (Some a) "reviewComment") eqn:Hb;
      [|injection Ha as <-; exact (get_throws _ _ _ Hb)].
    destruct (JS.get (Some a) "lineNumber") as [l|] eqn:Hl;
      [|injection Ha as <-; exact (get_throws _ _ _ Hl)].
    destruct (JS.Number l) eqn:Hn; [discriminate|].
    injection Ha as <-. exact (Number_throws _ _ Hn).
Qed.

(** X5: when [createComment] throws.  For a file change with a target path
    and a [reviews] array, it throws (a TypeError) exactly when some entry is
    [null] or has a line number that [Number] cannot convert; otherwise every
    entry, whatever its type, gives exactly one anchor. *)
Theorem createComment_outcome (file : File.t) (chunk : Chunk.t) (p : string)
    (es : list JS.json) :
  truthy_path (File.to file) = Some p ->
  match createComment file chunk (Some (JS.JArr es)) with
  | JS.Normal cs => Forall (fun e => ~ unreadable_entry e) es /\ length cs = length es
  | JS.Throw err => err = JS.TypeError /\ Exists unreadable_entry es
  end.
Proof.
  intros Hp. simpl. induction es as [|a es IH]; simpl; [split; [constructor | reflexivity]|].
  unfold bind_completion. pose proof (comment_of_outcome file p a Hp) as Ha.
  destruct (comment_of file a) as [cs|err].
  - destruct Ha as [Ha Hlen].
    destruct (flatMap (comment_of file) es) as [rest|err].
    + destruct IH as [IH Hrest]. split; [constructor; assumption|].
      rewrite length_app, Hlen, Hrest. reflexivity.
    + destruct IH as [-> IH]. split; [reflexivity|]. apply Exists_cons_tl, IH.
  - destruct Ha as [-> Ha]. split; [reflexivity|]. apply Exists_cons_hd, Ha.
Qed.

Lemma getAIResponse_truthy (w : World) (prompt : string) (tr tr1 : trace) (v : JS.value) :
  getAIResponse w prompt tr = (tr1, JS.Normal v) -> JS.truthy v = true ->
  tr1 = tr ++ [ChatCreate prompt].
Proof.
  destruct (chat_create w tr prompt) as [response|] eqn:H.
  - rewrite (getAIResponse_reply w prompt tr response H).
    match goal with |- context [match ?c with _ => _ end] => destruct c end.
    + intros [= <- _] _. reflexivity.
    + unfold logged_failure. intros [= _ <-]. discriminate.
  - rewrite (getAIResponse_request_fails w prompt tr H).
    unfold logged_failure. intros [= _ <-]. discriminate.
Qed.

Section Aborts.

Variable w : World.
Variable prDetails : PRDetails.

Lemma analyzeChunks_throws (file : File.t) (fullFile : string) (chunks : list Chunk.t) :
  forall comments tr tr' e,
    analyzeChunks w file prDetails fullFile comments chunks tr = (tr', JS.Throw e) ->
    e = JS.TypeError /\ exists d prompt, tr' = tr ++ d ++ [ChatCreate prompt].
Proof.
  induction chunks as [|chunk rest IH]; intros comments tr tr' e; simpl; [discriminate|].
  unfold bind at 1. unfold analyzeChunk, bind at 1.
  destruct (getAIResponse_never_throws w (createPrompt file chunk prDetails fullFile) tr)
    as [v Hv].
  destruct (getAIResponse_one_request w (createPrompt file chunk prDetails fullFile) tr)
    as (d1 & Hd1 & _).
  destruct (getAIResponse w (createPrompt file chunk prDetails fullFile) tr)
    as [tr1 [v'|e']] eqn:Hr; simpl in Hv, Hd1; [|discriminate].
  assert (forall comments',
            analyzeChunks w file prDetails fullFile comments' rest tr1 = (tr', JS.Throw e) ->
            e = JS.TypeError /\ exists d prompt, tr' = tr ++ d ++ [ChatCreate prompt])
    as Hrest.
  { intros comments' Hc. destruct (IH _ _ _ _ Hc) as (He & d & prompt & ->).
    split; [exact He|]. exists (d1 ++ d), prompt. rewrite Hd1, !app_assoc. reflexivity. }
  destruct (JS.truthy v') eqn:Ht; [|apply Hrest].
  unfold bind, lift, ret.
  destruct (createComment file chunk v') as [newComments|e'] eqn:Hc; [apply Hrest|].
  intros [= <- <-]. split; [exact (createComment_throws _ _ _ _ Hc)|].
  exists [], (createPrompt file chunk prDetails fullFile).
  exact (getAIResponse_truthy _ _ _ _ _ Hr Ht).
Qed.

Lemma analyzeFiles_throws (files : list File.t) :
  forall fileCache comments tr tr' e,
    analyzeFiles w prDetails fileCache comments files tr = (tr', JS.Throw e) ->
    e = JS.TypeError /\ exists d prompt, tr' = tr ++ d ++ [ChatCreate prompt].
Proof.
  induction files as [|file rest IH]; intros fileCache comments tr tr' e; simpl;
    [discriminate|].
  destruct (is_dev_null (File.to file)); [apply IH|].
  destruct (truthy_path (File.to file)) as [p|]; [|apply IH].
  unfold bind at 1. rewrite fillCache_outcome. cbv zeta.
  assert (forall fileCache' df,
            bind (analyzeChunks w file prDetails (cache_text w fileCache' p) comments
                    (File.chunks file))
              (fun comments' => analyzeFiles w prDetails fileCache' comments' rest)
              (tr ++ df)
            = (tr', JS.Throw e) ->
            e = JS.TypeError /\ exists d prompt, tr' = tr ++ d ++ [ChatCreate prompt])
    as Hrest.
  { intros fileCache' df. unfold bind.
    destruct (analyzeChunks w file prDetails (cache_text w fileCache' p) comments
                (File.chunks file) (tr ++ df)) as [tr2 [comments'|e']] eqn:Hc.
    - intros Hrun.
      destruct (analyzeChunks_requests w file prDetails _ _ _ _ _ _ Hc) as (dc & -> & _).
      destruct (IH _ _ _ _ _ Hrun) as (He & d & prompt & ->).
      split; [exact He|]. exists (df ++ dc ++ d), prompt. rewrite !app_assoc. reflexivity.
    - intros [= <- <-].
      destruct (analyzeChunks_throws _ _ _ _ _ _ _ Hc) as (He & d & prompt & ->).
      split; [exact He|]. exists (df ++ d), prompt. rewrite !app_assoc. reflexivity. }
  destruct (cache_hit fileCache p).
  { intros Hrun. apply (Hrest fileCache []). rewrite app_nil_r. exact Hrun. }
  destruct (getContent w tr _ _ p _) as [[encoded|]|]; apply Hrest.
Qed.

End Aborts.

(** X6: the only error that ends an analysis is the TypeError of
    [createComment] on a malformed reply, and it ends the analysis at once:
    the completion request that was answered by that reply is the last event,
    nothing is logged, and no anchor gathered so far is returned.  A failed
    content request, a failed completion request and a reply that is no JSON
    never make [analyzeCode] throw. *)
Theorem analyzeCode_throws_only_TypeError (w : World) (files : list File.t)
    (prDetails : PRDetails) (tr tr' : trace) (e : JS.error) :
  analyzeCode w files prDetails tr = (tr', JS.Throw e) ->
  e = JS.TypeError /\ exists d prompt, tr' = tr ++ d ++ [ChatCreate prompt].
Proof. apply analyzeFiles_throws. Qed.

(** A reply whose [reviews] is truthy and on which [createComment] throws
    ends the loop over the hunks at once. *)
Lemma malformed_reviews_abort (w : World) (file : File.t) (prDetails : PRDetails)
    (fullFile : string) (comments : list Comment) (chunk : Chunk.t)
    (rest : list Chunk.t) (tr tr' : trace) (v : JS.value) (e : JS.error) :
  getAIResponse w (createPrompt file chunk prDetails fullFile) tr = (tr', JS.Normal v) ->
  JS.truthy v = true ->
  createComment file chunk v = JS.Throw e ->
  analyzeChunks w file prDetails fullFile comments (chunk :: rest) tr
  = (tr', JS.Throw JS.TypeError).
Proof.
  intros Hv Ht Hc. simpl. unfold bind at 1. unfold analyzeChunk, bind at 1.
  rewrite Hv, Ht. unfold bind, lift. rewrite Hc, (createComment_throws _ _ _ _ Hc).
  reflexivity.
Qed.

(* ===================================================================== *)
(** * Theorems: the cache of file contents                                *)
(* ===================================================================== *)

Lemma stored_texts_app (w : World) (a b : trace) :
  forall pre stored,
    stored_texts w pre (a ++ b) stored
    = stored_texts w (pre ++ a) b (stored_texts w pre a stored).
Proof.
  induction a as [|e a IH]; intros pre stored; simpl.
  - rewrite app_nil_r. reflexivity.
  - rewrite IH, <- app_assoc. reflexivity.
Qed.

Lemma stored_texts_no_request (w : World) (d : trace) :
  Forall (fun e => is_content_request e = false) d ->
  forall pre stored, stored_texts w pre d stored = stored.
Proof.
  induction 1 as [|e d He _ IH]; intros pre stored; simpl; [reflexivity|].
  rewrite IH. destruct e; try reflexivity; discriminate.
Qed.

Lemma app_eq_cons_inv {A : Type} (l1 l2 d1 d2 : list A) (x : A) :
  l1 ++ l2 = d1 ++ x :: d2 ->
  (exists k, l1 = d1 ++ x :: k /\ d2 = k ++ l2)
  \/ (exists k, d1 = l1 ++ k /\ l2 = k ++ x :: d2).
Proof.
  intros H. apply app_eq_inv in H as [(k & H1 & H2) | (k & H1 & H2)].
  - destruct k as [|y k]; simpl in H2.
    + right. exists []. rewrite app_nil_r in *. auto.
    + injection H2 as -> ->. left. exists k. auto.
  - right. exists k. auto.
Qed.

Section StoredTexts.

Variable w : World.
Variable prDetails : PRDetails.
Variable files0 : list File.t.
Variable tr0 : trace.

Lemma analyzeFiles_stored (files : list File.t) :
  (forall file, file ∈ files -> file ∈ files0) ->
  forall fileCache comments d0,
    fileCache = stored_texts w tr0 d0 ∅ ->
    (forall k, inherited k = true -> fileCache !! k = None) ->
    exists d,
      (analyzeFiles w prDetails fileCache comments files (tr0 ++ d0)).1 = (tr0 ++ d0) ++ d
      /\ Forall (fun e => match e with
                          | GetContent _ _ p _ => inherited p = false
                          | _ => True
                          end) d
      /\ forall d1 prompt d2,
           d = d1 ++ ChatCreate prompt :: d2 ->
           carries_stored_text w prDetails files0 tr0 (d0 ++ d1) prompt.
Proof.
  induction files as [|file rest IH]; intros Hsub fileCache comments d0 Hc Hinv.
  { exists []. simpl. rewrite app_nil_r. split; [reflexivity|]. split; [constructor|].
    intros [|? ?] ? ? H; discriminate. }
  assert (forall f, f ∈ rest -> f ∈ files0) as Hrest_sub.
  { intros f Hf. apply Hsub. constructor. exact Hf. }
  assert (file ∈ files0) as Hin by (apply Hsub; constructor).
  cbn [analyzeFiles].
  destruct (is_dev_null (File.to file)) eqn:Hd; [apply IH; assumption|].
  destruct (truthy_path (File.to file)) as [p|] eqn:Hp; [|apply IH; assumption].
  apply truthy_path_Some in Hp as [Hto _].
  assert (forall fileCache' df,
            fileCache' = stored_texts w tr0 (d0 ++ df) ∅ ->
            (forall k, inherited k = true -> fileCache' !! k = None) ->
            Forall (fun e => match e with
                             | GetContent _ _ p _ => inherited p = false
                             | _ => True
                             end) df ->
            Forall (fun e => is_completion_request e = false) df ->
            (if inherited p then fileCache' !! p = None
             else exists text, fileCache' !! p = Some text) ->
            exists d,
              (bind (analyzeChunks w file prDetails (cache_text w fileCache' p) comments
                       (File.chunks file))
                 (fun comments' => analyzeFiles w prDetails fileCache' comments' rest)
                 ((tr0 ++ d0) ++ df)).1 = (tr0 ++ d0) ++ d
              /\ Forall (fun e => match e with
                                  | GetContent _ _ p _ => inherited p = false
                                  | _ => True
                                  end) d
              /\ forall d1 prompt d2,
                   d = d1 ++ ChatCreate prompt :: d2 ->
                   carries_stored_text w prDetails files0 tr0 (d0 ++ d1) prompt) as Hrest.
  { intros fileCache' df Hc' Hinv' Hgc Hnocc Hp'. unfold bind.
    set (P := fun e =>
                match e with
                | ChatCreate prompt =>
                    exists chunk,
                      chunk ∈ File.chunks file
                      /\ prompt = createPrompt file chunk prDetails (cache_text w fileCache' p)
                | Console _ _ => True
                | _ => False
                end).
    destruct (analyzeChunks_emits_any w prDetails P (fun _ _ => I) file
                (cache_text w fileCache' p) (File.chunks file)
                (fun chunk Hchunk => ex_intro _ chunk (conj Hchunk eq_refl))
                comments ((tr0 ++ d0) ++ df)) as (dc & Hdc & HF & _).
    assert (Forall (fun e => match e with
                             | GetContent _ _ p _ => inherited p = false
                             | _ => True
                             end) dc) as Hdc_gc.
    { eapply Forall_impl; [exact HF|]. intros e He. destruct e; try exact I. contradiction. }
    assert (Forall (fun e => is_content_request e = false) dc) as Hdc_nc.
    { eapply Forall_impl; [exact HF|]. intros e He. destruct e; try reflexivity.
      contradiction. }
    assert (stored_texts w tr0 (d0 ++ df ++ dc) ∅ = fileCache') as Hafter.
    { rewrite app_assoc, stored_texts_app, <- Hc'. apply stored_texts_no_request, Hdc_nc. }
    assert (forall d1 prompt d2,
              df ++ dc = d1 ++ ChatCreate prompt :: d2 ->
              carries_stored_text w prDetails files0 tr0 (d0 ++ d1) prompt) as Hfile.
    { intros d1 prompt d2 Heq.
      apply app_eq_cons_inv in Heq as [(k & Hdf & _) | (k & -> & Hk)].
      - exfalso. rewrite Hdf in Hnocc. apply Forall_app in Hnocc as [_ Hn].
        apply Forall_inv in Hn. discriminate.
      - assert (P (ChatCreate prompt)) as (chunk & Hchunk & ->).
        { rewrite Hk in HF. apply Forall_app in HF as [_ HF]. exact (Forall_inv HF). }
        exists file, chunk, p. split; [exact Hin|]. split; [exact Hchunk|].
        split; [exact Hto|].
        assert (stored_texts w tr0 (d0 ++ df ++ k) ∅ = fileCache') as ->.
        { rewrite app_assoc, stored_texts_app, <- Hc'. apply stored_texts_no_request.
          rewrite Hk in Hdc_nc. apply Forall_app in Hdc_nc as [Hdc_nc _]. exact Hdc_nc. }
        unfold cache_text. destruct (inherited p) eqn:Hi.
        + rewrite Hp'. split; reflexivity.
        + destruct Hp' as [text Htext]. exists text. rewrite Htext. split; reflexivity. }
    destruct (analyzeChunks w file prDetails (cache_text w fileCache' p) comments
                (File.chunks file) ((tr0 ++ d0) ++ df)) as [tr2 [comments'|e]];
      simpl in Hdc; subst tr2.
    - destruct (IH Hrest_sub fileCache' comments' (d0 ++ df ++ dc) (eq_sym Hafter) Hinv')
        as (d3 & H3 & Hgc3 & Hcc3).
      exists (df ++ dc ++ d3). split; [|split].
      + replace (((tr0 ++ d0) ++ df) ++ dc) with (tr0 ++ d0 ++ df ++ dc)
          by (rewrite !app_assoc; reflexivity).
        rewrite H3, !app_assoc. reflexivity.
      + apply Forall_app. split; [exact Hgc|]. apply Forall_app. split; assumption.
      + intros d1 prompt d2 Heq. rewrite app_assoc in Heq.
        apply app_eq_cons_inv in Heq as [(k & Hfc & _) | (k & -> & Hk)].
        * apply (Hfile d1 prompt k Hfc).
        * specialize (Hcc3 k prompt d2 Hk).
          replace (d0 ++ (df ++ dc) ++ k) with ((d0 ++ df ++ dc) ++ k)
            by (rewrite !app_assoc; reflexivity).
          exact Hcc3.
    - exists (df ++ dc). simpl. split; [rewrite !app_assoc; reflexivity|].
      split; [apply Forall_app; split; assumption | exact Hfile]. }
  unfold bind at 1. rewrite fillCache_outcome. cbv zeta.
  destruct (cache_hit fileCache p) eqn:Hhit.
  { specialize (Hrest fileCache []). rewrite !app_nil_r in Hrest.
    apply Hrest; try assumption; try constructor.
    unfold cache_hit in Hhit. destruct (inherited p) eqn:Hi; [apply Hinv, Hi|].
    destruct (fileCache !! p) as [text|]; [eauto | discriminate]. }
  assert (inherited p = false) as Hi.
  { destruct (inherited p) eqn:Hi; [|reflexivity].
    unfold cache_hit in Hhit. rewrite (Hinv p Hi), Hi in Hhit. discriminate. }
  assert (forall text k, inherited k = true -> <[p := text]> fileCache !! k = None) as Hinv'.
  { intros text k Hk. rewrite lookup_insert_ne; [apply Hinv, Hk|]. intros <-. congruence. }
  destruct (getContent w (tr0 ++ d0) (owner prDetails) (repo prDetails) p (headSha prDetails))
    as [[encoded|]|] eqn:Hget; apply Hrest; try apply Hinv';
    try (rewrite stored_texts_app, <- Hc; simpl; rewrite Hget; reflexivity);
    try (repeat constructor; exact Hi);
    try (repeat constructor);
    try (rewrite Hi; eexists; apply lookup_insert_eq).
Qed.

End StoredTexts.

(** X7: what a prompt carries as the full file.  Every completion request
    of an analysis is for a hunk of a file change of the diff, and its full
    file is the text that the last content request of this analysis for the
    target of that same file change stored: what the answer decodes to when
    the request succeeds, the empty string when it fails or the answer has no
    content; never [undefined], never the text of another path.  The
    exception: a target that is a name [Object.prototype] defines
    ([constructor], [toString], [valueOf], ...) is never requested, since the
    cache, an object literal, reads truthy at such a name from the start, and
    the prompt carries the text of the inherited member. *)
Theorem prompts_carry_their_own_file (w : World) (files : list File.t)
    (prDetails : PRDetails) (tr : trace) :
  exists d, (analyzeCode w files prDetails tr).1 = tr ++ d
            /\ full_files_are_stored_texts w prDetails files tr d.
Proof.
  destruct (analyzeFiles_stored w prDetails files tr files (fun _ H => H) ∅ [] [] eq_refl
              (fun k _ => lookup_empty k)) as (d & Hd & Hgc & Hcc).
  rewrite app_nil_r in Hd. exists d. split; [exact Hd|]. split; [exact Hgc | exact Hcc].
Qed.

Lemma requested_paths_app (d1 d2 : trace) :
  requested_paths (d1 ++ d2) = requested_paths d1 ++ requested_paths d2.
Proof. apply omap_app. Qed.

Lemma requested_paths_none (d : trace) :
  Forall (fun e => is_content_request e = false) d -> requested_paths d = [].
Proof.
  induction 1 as [|e d He _ IH]; [reflexivity|].
  unfold requested_paths in *. simpl. destruct e; try discriminate; exact IH.
Qed.

Lemma analyzeChunks_requests_no_content (w : World) (file : File.t) (prDetails : PRDetails)
    (fullFile : string) (comments : list Comment) (chunks : list Chunk.t) (tr : trace) :
  exists d, (analyzeChunks w file prDetails fullFile comments chunks tr).1 = tr ++ d
            /\ requested_paths d = [].
Proof.
  destruct (analyzeChunks_emits_any w prDetails (fun e => is_content_request e = false)
              (fun _ _ => eq_refl) file fullFile chunks (fun _ _ => eq_refl) comments tr)
    as (d & Hd & HF & _).
  exists d. split; [exact Hd | apply requested_paths_none, HF].
Qed.

Lemma reviewed_targets_skip (file : File.t) (rest : list File.t) :
  reviewed file = false -> reviewed_targets (file :: rest) = reviewed_targets rest.
Proof. intros H. unfold reviewed_targets. simpl. rewrite H. reflexivity. Qed.

Lemma reviewed_targets_keep (file : File.t) (rest : list File.t) (p : string) :
  reviewed file = true -> File.to file = Some p ->
  reviewed_targets (file :: rest) = p :: reviewed_targets rest.
Proof. intros H Hto. unfold reviewed_targets. simpl. rewrite H, Hto. reflexivity. Qed.

Lemma reviewed_guards (file : File.t) :
  reviewed file
  = negb (is_dev_null (File.to file))
    && match truthy_path (File.to file) with Some _ => true | None => false end.
Proof.
  unfold reviewed. destruct (truthy_path (File.to file)).
  - rewrite bool_decide_eq_true_2 by eauto. reflexivity.
  - rewrite bool_decide_eq_false_2 by (intros [? ?]; discriminate). reflexivity.
Qed.

Lemma analyzeFiles_requested_paths (w : World) (prDetails : PRDetails)
    (files : list File.t) :
  forall fileCache comments tr,
  exists d, (analyzeFiles w prDetails fileCache comments files tr).1 = tr ++ d
            /\ sublist (requested_paths d) (reviewed_targets files).
Proof.
  induction files as [|file rest IH]; intros fileCache comments tr.
  { exists []. simpl. rewrite app_nil_r. split; [reflexivity | constructor]. }
  cbn [analyzeFiles]. pose proof (reviewed_guards file) as Hr.
  destruct (is_dev_null (File.to file)) eqn:Hd.
  { rewrite reviewed_targets_skip by exact Hr. apply IH. }
  destruct (truthy_path (File.to file)) as [p|] eqn:Hp.
  2:{ rewrite reviewed_targets_skip by exact Hr. apply IH. }
  apply truthy_path_Some in Hp as [Hto _].
  rewrite (reviewed_targets_keep file rest p Hr Hto).
  assert (forall fileCache' df,
            sublist (requested_paths df) [p] ->
            exists d,
              (bind (analyzeChunks w file prDetails (cache_text w fileCache' p) comments
                       (File.chunks file))
                 (fun comments' => analyzeFiles w prDetails fileCache' comments' rest)
                 (tr ++ df)).1 = tr ++ d
              /\ sublist (requested_paths d) (p :: reviewed_targets rest)) as Hrest.
  { intros fileCache' df Hdf. unfold bind.
    destruct (analyzeChunks_requests_no_content w file prDetails
                (cache_text w fileCache' p) comments (File.chunks file) (tr ++ df))
      as (dc & Hdc & Hnone).
    destruct (analyzeChunks w file prDetails (cache_text w fileCache' p) comments
                (File.chunks file) (tr ++ df)) as [tr2 [comments'|e]];
      simpl in Hdc; subst tr2.
    - destruct (IH fileCache' comments' ((tr ++ df) ++ dc)) as (d3 & H3 & Hs).
      exists (df ++ dc ++ d3). split.
      + rewrite H3, !app_assoc. reflexivity.
      + rewrite !requested_paths_app, Hnone. simpl.
        apply (sublist_app _ [p] _ _ Hdf Hs).
    - exists (df ++ dc). simpl. split; [rewrite app_assoc; reflexivity|].
      rewrite requested_paths_app, Hnone.
      apply (sublist_app _ [p] [] _ Hdf). apply sublist_nil_l. }
  unfold bind at 1. rewrite fillCache_outcome. cbv zeta.
  destruct (cache_hit fileCache p).
  { specialize (Hrest fileCache [] (sublist_nil_l _)).
    rewrite app_nil_r in Hrest. exact Hrest. }
  destruct (getContent w tr _ _ p _) as [[encoded|]|]; apply Hrest; simpl; reflexivity.
Qed.

(** X8: the content requests of an analysis are requests for targets of
    reviewed file changes, in the order of the diff and at most one per file
    change: their paths are a subsequence of the reviewed targets.  So a diff
    that names each path once leads to at most one content request per
    path. *)
Theorem content_requests_follow_the_diff (w : World) (files : list File.t)
    (prDetails : PRDetails) (tr : trace) :
  exists d, (analyzeCode w files prDetails tr).1 = tr ++ d
            /\ sublist (requested_paths d) (reviewed_targets files)
            /\ (NoDup (reviewed_targets files) -> NoDup (requested_paths d)).
Proof.
  destruct (analyzeFiles_requested_paths w prDetails files ∅ [] tr) as (d & Hd & Hs).
  exists d. split; [exact Hd|]. split; [exact Hs|].
  intros Hnd. eapply sublist_NoDup; eassumption.
Qed.

Lemma fetched_requested (w : World) (pre : trace) (e : event) (p : string) (d1 d2 : trace) :
  fetched w pre e p -> p ∈ requested_paths (d1 ++ e :: d2).
Proof.
  intros (o & r & ref & encoded & -> & _). rewrite requested_paths_app.
  apply elem_of_app. right. unfold requested_paths. simpl. constructor.
Qed.

Lemma memoised_at_most_one (w : World) (tr d : trace) :
  requested_paths d = [] \/ (exists e d', d = e :: d' /\ requested_paths d' = []) ->
  memoised w tr d.
Proof.
  intros [Hnone | (e0 & d' & -> & Hnone)] d1 e d2 p Heq Hf.
  - pose proof (fetched_requested w _ e p d1 d2 Hf) as Hin.
    rewrite <- Heq, Hnone in Hin. inversion Hin.
  - destruct d1 as [|x d1]; simpl in Heq; injection Heq as -> ->.
    + rewrite Hnone. apply not_elem_of_nil.
    + pose proof (fetched_requested w _ e p d1 d2 Hf) as Hin.
      rewrite Hnone in Hin. inversion Hin.
Qed.

Lemma memoised_app (w : World) (tr da db : trace) :
  memoised w tr da ->
  memoised w (tr ++ da) db ->
  (forall d1 e d2 p,
     da = d1 ++ e :: d2 -> fetched w (tr ++ d1) e p -> p ∉ requested_paths db) ->
  memoised w tr (da ++ db).
Proof.
  intros Ha Hb Hab d1 e d2 p Heq Hf.
  apply app_eq_inv in Heq as [(k & Hda & Hd2) | (k & -> & ->)].
  - destruct k as [|x k]; simpl in Hd2.
    + subst db. apply (Hb [] e d2 p eq_refl). rewrite app_nil_r in Hda. subst da.
      rewrite app_nil_r. exact Hf.
    + injection Hd2 as <- ->. rewrite requested_paths_app.
      apply not_elem_of_app. split.
      * apply (Ha d1 e k p Hda Hf).
      * apply (Hab d1 e k p Hda Hf).
  - apply (Hb k e d2 p eq_refl). rewrite <- app_assoc. exact Hf.
Qed.

Lemma analyzeFiles_no_refetch (w : World) (prDetails : PRDetails) (p0 text0 : string)
    (files : list File.t) (fileCache : gmap string string) (comments : list Comment)
    (tr d : trace) :
  text0 <> "" ->
  fileCache !! p0 = Some text0 ->
  (analyzeFiles w prDetails fileCache comments files tr).1 = tr ++ d ->
  p0 ∉ requested_paths d.
Proof.
  intros Hne Hcache Hd.
  assert (emits (analyzeFiles w prDetails fileCache comments files)
            (fun e => match e with GetContent _ _ p _ => p <> p0 | _ => True end)
            anything) as H.
  { apply analyzeFiles_invariant
      with (I := fun fileCache => fileCache !! p0 = Some text0) (files0 := files).
    - constructor.
    - constructor.
    - intros file p fc Hin Hr Hto Hinv Hmiss.
      assert (p <> p0) as Hp.
      { intros ->. unfold cache_hit in Hmiss. rewrite Hinv in Hmiss.
        destruct (String.eqb_spec text0 ""); [contradiction | discriminate]. }
      split; [exact Hp|]. intros fetched0 _. split; [|constructor].
      rewrite lookup_insert_ne; assumption.
    - auto.
    - exact Hcache. }
  destruct (H tr) as (d' & Hd' & HF & _). rewrite Hd in Hd'.
  apply app_inv_head in Hd'. subst d'. clear Hd H.
  induction HF as [|e d He _ IH]; [apply not_elem_of_nil|].
  unfold requested_paths in *. simpl. destruct e; try exact IH.
  apply not_elem_of_cons. split; [congruence | exact IH].
Qed.

Lemma analyzeFiles_memoised (w : World) (prDetails : PRDetails) (files : list File.t) :
  forall fileCache comments tr,
  exists d, (analyzeFiles w prDetails fileCache comments files tr).1 = tr ++ d
            /\ memoised w tr d.
Proof.
  induction files as [|file rest IH]; intros fileCache comments tr.
  { exists []. simpl. rewrite app_nil_r. split; [reflexivity|].
    apply memoised_at_most_one. left. reflexivity. }
  cbn [analyzeFiles].
  destruct (is_dev_null (File.to file)); [apply IH|].
  destruct (truthy_path (File.to file)) as [p|]; [|apply IH].
  assert (forall fileCache' df,
            requested_paths df = []
            \/ (exists e d', df = e :: d' /\ requested_paths d' = []) ->
            (forall d1 e d2 p',
               df = d1 ++ e :: d2 -> fetched w (tr ++ d1) e p' ->
               exists text, fileCache' !! p' = Some text /\ text <> "") ->
            exists d,
              (bind (analyzeChunks w file prDetails (cache_text w fileCache' p) comments
                       (File.chunks file))
                 (fun comments' => analyzeFiles w prDetails fileCache' comments' rest)
                 (tr ++ df)).1 = tr ++ d
              /\ memoised w tr d) as Hrest.
  { intros fileCache' df Hone Hfetched. unfold bind.
    destruct (analyzeChunks_requests_no_content w file prDetails
                (cache_text w fileCache' p) comments (File.chunks file) (tr ++ df))
      as (dc & Hdc & Hnone).
    assert (memoised w tr (df ++ dc)) as Hfile.
    { apply memoised_at_most_one.
      destruct Hone as [Hdf | (e & d' & -> & Hd')].
      - left. rewrite requested_paths_app, Hdf, Hnone. reflexivity.
      - right. exists e, (d' ++ dc). split; [reflexivity|].
        rewrite requested_paths_app, Hd', Hnone. reflexivity. }
    destruct (analyzeChunks w file prDetails (cache_text w fileCache' p) comments
                (File.chunks file) (tr ++ df)) as [tr2 [comments'|e]];
      simpl in Hdc; subst tr2.
    - destruct (IH fileCache' comments' ((tr ++ df) ++ dc)) as (d3 & H3 & Hm3).
      exists ((df ++ dc) ++ d3). split; [rewrite H3, !app_assoc; reflexivity|].
      apply memoised_app; [exact Hfile | rewrite app_assoc; exact Hm3 |].
      intros d1 e d2 p' Heq Hf.
      apply app_eq_inv in Heq as [(k & Hdf & Hk) | (k & -> & ->)].
      + destruct k as [|x k]; simpl in Hk.
        * pose proof (fetched_requested w _ e p' [] d2 Hf) as Hin.
          rewrite app_nil_l, Hk, Hnone in Hin. inversion Hin.
        * injection Hk as <- _.
          destruct (Hfetched d1 e k p' Hdf Hf) as (text & Hcache & Hne).
          apply (analyzeFiles_no_refetch w prDetails p' text rest fileCache' comments'
                   ((tr ++ df) ++ dc) d3 Hne Hcache H3).
      + pose proof (fetched_requested w _ e p' k d2 Hf) as Hin.
        rewrite Hnone in Hin. inversion Hin.
    - exists (df ++ dc). simpl. split; [rewrite app_assoc; reflexivity | exact Hfile]. }
  unfold bind at 1. rewrite fillCache_outcome. cbv zeta.
  destruct (cache_hit fileCache p).
  { assert (forall d1 e d2 p',
              @nil event = d1 ++ e :: d2 -> fetched w (tr ++ d1) e p' ->
              exists text, fileCache !! p' = Some text /\ text <> "") as Hnil.
    { intros [|x d1] e d2 p' Heq; discriminate. }
    specialize (Hrest fileCache [] (or_introl eq_refl) Hnil).
    rewrite app_nil_r in Hrest. exact Hrest. }
  destruct (getContent w tr _ _ p _) as [[encoded|]|] eqn:Hget; apply Hrest;
    try (right; eexists; eexists; split; reflexivity).
  - intros [|x [|y d1]] e d2 p' Heq; try discriminate.
    injection Heq as <- <-. rewrite app_nil_r.
    intros (o & r & ref & enc & [= <- <- <- <-] & Hanswer & Hne).
    rewrite Hget in Hanswer. injection Hanswer as <-.
    exists (base64_decode w encoded). rewrite lookup_insert_eq. auto.
  - intros [|x [|y [|z d1]]] e d2 p' Heq; try discriminate.
    + injection Heq as <- <-. rewrite app_nil_r.
      intros (o & r & ref & enc & [= <- <- <- <-] & Hanswer & Hne).
      rewrite Hget in Hanswer. discriminate.
    + injection Heq as <- <- <-. intros (o & r & ref & enc & Habs & _). discriminate.
  - intros [|x [|y [|z d1]]] e d2 p' Heq; try discriminate.
    + injection Heq as <- <-. rewrite app_nil_r.
      intros (o & r & ref & enc & [= <- <- <- <-] & Hanswer & Hne).
      rewrite Hget in Hanswer. discriminate.
    + injection Heq as <- <- <-. intros (o & r & ref & enc & Habs & _). discriminate.
Qed.

(** X9: the cache works for every text but the empty one.  After a content
    request that the world answers with a text that decodes to a non-empty
    string, no later request of the analysis asks for that path again,
    however often the diff names it. *)
Theorem fetched_text_is_not_requested_again (w : World) (files : list File.t)
    (prDetails : PRDetails) (tr : trace) :
  exists d, (analyzeCode w files prDetails tr).1 = tr ++ d /\ memoised w tr d.
Proof. apply analyzeFiles_memoised. Qed.

(* ===================================================================== *)
(** * Theorems: the completion requests of an analysis                    *)
(* ===================================================================== *)

Lemma hunks_skip (file : File.t) (rest : list File.t) :
  reviewed file = false -> hunks (file :: rest) = hunks rest.
Proof. intros H. unfold hunks. simpl. rewrite H. reflexivity. Qed.

Lemma hunks_keep (file : File.t) (rest : list File.t) :
  reviewed file = true ->
  hunks (file :: rest) = map (pair file) (File.chunks file) ++ hunks rest.
Proof. intros H. unfold hunks. simpl. rewrite H. reflexivity. Qed.

Lemma analyzeFiles_completion_requests (w : World) (prDetails : PRDetails)
    (files : list File.t) :
  forall fileCache comments tr tr' result,
    analyzeFiles w prDetails fileCache comments files tr = (tr', JS.Normal result) ->
    exists d, tr' = tr ++ d
              /\ Forall2 (fun hunk e =>
                            exists fullFile,
                              e = ChatCreate (createPrompt hunk.1 hunk.2 prDetails fullFile))
                   (hunks files) (List.filter is_completion_request d).
Proof.
  induction files as [|file rest IH]; intros fileCache comments tr tr' result.
  { simpl. intros [= <- _]. exists []. rewrite app_nil_r. split; [reflexivity | constructor]. }
  cbn [analyzeFiles]. pose proof (reviewed_guards file) as Hr.
  destruct (is_dev_null (File.to file)) eqn:Hd.
  { rewrite hunks_skip by exact Hr. apply IH. }
  destruct (truthy_path (File.to file)) as [p|] eqn:Hp.
  2:{ rewrite hunks_skip by exact Hr. apply IH. }
  rewrite (hunks_keep file rest Hr).
  assert (forall fileCache' df,
            List.filter is_completion_request df = [] ->
            bind (analyzeChunks w file prDetails (cache_text w fileCache' p) comments
                    (File.chunks file))
              (fun comments' => analyzeFiles w prDetails fileCache' comments' rest)
              (tr ++ df) = (tr', JS.Normal result) ->
            exists d,
              tr' = tr ++ d
              /\ Forall2 (fun hunk e =>
                            exists fullFile,
                              e = ChatCreate (createPrompt hunk.1 hunk.2 prDetails fullFile))
                   (map (pair file) (File.chunks file) ++ hunks rest)
                   (List.filter is_completion_request d)) as Hrest.
  { intros fileCache' df Hdf. unfold bind.
    destruct (analyzeChunks w file prDetails (cache_text w fileCache' p) comments
                (File.chunks file) (tr ++ df)) as [tr2 [comments'|e]] eqn:Hc;
      [|discriminate].
    intros Hrun.
    destruct (analyzeChunks_requests w file prDetails _ _ _ _ _ _ Hc) as (dc & -> & Hdc).
    destruct (IH _ _ _ _ _ Hrun) as (d3 & -> & H3).
    exists (df ++ dc ++ d3). split; [rewrite !app_assoc; reflexivity|].
    rewrite !completion_requests_app, Hdf, Hdc. simpl.
    apply Forall2_app; [|exact H3].
    clear. induction (File.chunks file) as [|chunk chunks IHc]; simpl; constructor; eauto. }
  unfold bind at 1. rewrite fillCache_outcome. cbv zeta.
  destruct (cache_hit fileCache p).
  { intros Hrun. apply (Hrest fileCache []); [reflexivity|].
    rewrite app_nil_r. exact Hrun. }
  destruct (getContent w tr _ _ p _) as [[encoded|]|]; apply Hrest; reflexivity.
Qed.

(** X10: an analysis that returns has sent exactly one completion request per
    hunk of each reviewed file change, in the order of the diff, each with
    the prompt of its hunk; file changes that are deleted or without target
    add none. *)
Theorem analyzeCode_one_request_per_hunk (w : World) (files : list File.t)
    (prDetails : PRDetails) (tr tr' : trace) (result : list Comment) :
  analyzeCode w files prDetails tr = (tr', JS.Normal result) ->
  exists d, tr' = tr ++ d
            /\ Forall2 (fun hunk e =>
                          exists fullFile,
                            e = ChatCreate (createPrompt hunk.1 hunk.2 prDetails fullFile))
                 (hunks files) (List.filter is_completion_request d).
Proof. apply analyzeFiles_completion_requests. Qed.

(* ===================================================================== *)
(** * Theorems: the exclusion patterns, from the filter to the review     *)
(* ===================================================================== *)

Lemma elem_of_filter {A : Type} (f : A -> bool) (l : list A) (x : A) :
  x ∈ List.filter f l <-> x ∈ l /\ f x = true.
Proof. rewrite !list_elem_of_In. apply List.filter_In. Qed.

Lemma filteredDiff_selected (w : World) (patterns : list string) (files : list File.t)
    (file : File.t) :
  file ∈ filteredDiff w patterns files -> reviewed file = true ->
  file ∈ List.filter (selected w patterns) files.
Proof.
  unfold filteredDiff, selected. rewrite !elem_of_filter.
  intros [Hin Hkeep] Hr. rewrite Hr, Hkeep. auto.
Qed.

Lemma review_event_selected (w : World) (prDetails : PRDetails) (patterns : list string)
    (files : list File.t) (e : event) :
  review_event prDetails (filteredDiff w patterns files) e ->
  review_event prDetails (List.filter (selected w patterns) files) e.
Proof.
  destruct e; simpl; auto.
  - intros (file & Hin & Hr & Hto). exists file. eauto using filteredDiff_selected.
  - intros (file & chunk & fullFile & Hin & Hr & Hc & Hprompt).
    exists file, chunk, fullFile. eauto using filteredDiff_selected.
Qed.

Lemma review_anchor_selected (w : World) (patterns : list string) (files : list File.t)
    (c : Comment) :
  review_anchor (filteredDiff w patterns files) c ->
  review_anchor (List.filter (selected w patterns) files) c.
Proof.
  intros (file & Hin & Hr & Hto). exists file. eauto using filteredDiff_selected.
Qed.

(** X11: what [exclude] buys, end to end.  From the diff on, [main] requests
    the content of, sends prompts for, and anchors review comments on none but
    file changes of the parsed diff that are reviewed (target present, not
    empty, not the deletion sentinel) and that no exclusion pattern
    matches. *)
Theorem excluded_files_are_left_alone (w : World) (prDetails : PRDetails) (d : string)
    (tr : trace) :
  exists events,
    (main_with_diff w prDetails (Some d) tr).1 = tr ++ events
    /\ Forall (selected_event w prDetails (parseDiff w d)) events.
Proof.
  assert (emits (main_with_diff w prDetails (Some d))
            (selected_event w prDetails (parseDiff w d)) anything) as H.
  { unfold main_with_diff. destruct (truthy_path (Some d)) as [d'|] eqn:Hd.
    - apply truthy_path_Some in Hd as [[= <-] _].
      eapply emits_bind.
      { eapply emits_weaken; [apply analyzeCode_emits | | intros a Ha; exact Ha].
        intros e He. apply review_event_selected in He.
        destruct e; try exact He. contradiction. }
      intros [|c cs] Hcs; [apply emits_ret; constructor|].
      apply emits_request; [|constructor]. simpl.
      eapply Forall_impl; [exact Hcs|]. intros c0. apply review_anchor_selected.
    - apply emits_emit; constructor. }
  destruct (H tr) as (events & He & HF & _). eauto.
Qed.

Lemma filteredDiff_app (w : World) (ps qs : list string) (files : list File.t) :
  filteredDiff w (ps ++ qs) files = filteredDiff w ps (filteredDiff w qs files).
Proof.
  unfold filteredDiff. induction files as [|file rest IH]; [reflexivity|].
  simpl. rewrite existsb_app.
  destruct (existsb _ qs) eqn:Hq; simpl.
  - rewrite orb_true_r. simpl. exact IH.
  - rewrite orb_false_r. destruct (existsb _ ps); simpl; rewrite IH; reflexivity.
Qed.

Lemma filteredDiff_ext (w : World) (ps qs : list string) (files : list File.t) :
  (forall p, p ∈ ps <-> p ∈ qs) -> filteredDiff w ps files = filteredDiff w qs files.
Proof.
  intros Hsame. unfold filteredDiff.
  induction files as [|file rest IH]; [reflexivity|]. simpl. rewrite IH.
  assert (existsb (fun pattern => minimatch w (default "" (File.to file)) pattern) ps
          = existsb (fun pattern => minimatch w (default "" (File.to file)) pattern) qs)
    as ->; [|reflexivity].
  apply eq_true_iff_eq. rewrite !existsb_exists. split.
  - intros (x & Hin & Hx). exists x. split; [|exact Hx].
    apply list_elem_of_In, Hsame, list_elem_of_In, Hin.
  - intros (x & Hin & Hx). exists x. split; [|exact Hx].
    apply list_elem_of_In, Hsame, list_elem_of_In, Hin.
Qed.

(** X12: the exclusion patterns act as a set, one pattern at a time.
    Filtering by two lists of patterns is filtering by one and then by the
    other; the order of the patterns and their repetitions do not matter; and
    filtering twice by the same patterns changes nothing. *)
Theorem filteredDiff_patterns_as_a_set (w : World) (files : list File.t) :
  (forall ps qs,
     filteredDiff w (ps ++ qs) files = filteredDiff w ps (filteredDiff w qs files))
  /\ (forall ps qs,
        (forall p, p ∈ ps <-> p ∈ qs) ->
        filteredDiff w ps files = filteredDiff w qs files)
  /\ (forall ps, filteredDiff w ps (filteredDiff w ps files) = filteredDiff w ps files).
Proof.
  split; [intros; apply filteredDiff_app|]. split; [intros; apply filteredDiff_ext; auto|].
  intros ps. rewrite <- filteredDiff_app. apply filteredDiff_ext.
  intros p. rewrite elem_of_app. tauto.
Qed.

(* ===================================================================== *)
(** * Theorems: the patterns read from the [exclude] input                *)
(* ===================================================================== *)

Lemma skip_ws_suffix (fwd : bool) (n : nat) :
  forall s, length s <= n -> suffix (JS.skip_ws fwd s) s.
Proof.
  induction n as [|n IH]; intros s Hlen.
  { destruct s; [reflexivity | simpl in Hlen; lia]. }
  destruct s as [|a s1]; [reflexivity|]. simpl in Hlen. cbn [JS.skip_ws].
  destruct (JS.ws1 a).
  { apply suffix_cons_r, IH. lia. }
  destruct s1 as [|b s2]; [reflexivity|]. simpl in Hlen.
  destruct (if fwd then JS.ws2 a b else JS.ws2 b a).
  { do 2 apply suffix_cons_r. apply IH. lia. }
  destruct s2 as [|c s3]; [reflexivity|]. simpl in Hlen.
  destruct (if fwd then JS.ws3 a b c else JS.ws3 c b a); [|reflexivity].
  do 3 apply suffix_cons_r. apply IH. lia.
Qed.

(** No white space at the head of [s], read in the direction [fwd]. *)
Lemma skip_ws_fixed (fwd : bool) (s : list ascii) :
  JS.skip_ws fwd s = s <->
  match s with
  | [] => True
  | a :: s1 =>
      JS.ws1 a = false
      /\ match s1 with
         | [] => True
         | b :: s2 =>
             (if fwd then JS.ws2 a b else JS.ws2 b a) = false
             /\ match s2 with
                | [] => True
                | c :: _ => (if fwd then JS.ws3 a b c else JS.ws3 c b a) = false
                end
         end
  end.
Proof.
  assert (forall (k s' : list ascii), length s' < length k + length s' ->
                                      suffix (k ++ s') s' -> False) as Hshort.
  { intros k s' Hlt Hs. apply suffix_length in Hs. rewrite length_app in Hs. lia. }
  destruct s as [|a s1]; [tauto|]. cbn [JS.skip_ws].
  destruct (JS.ws1 a).
  { split; [|intros [? _]; discriminate]. intros H. exfalso.
    apply (Hshort [a] s1); [simpl; lia|]. simpl. rewrite <- H.
    apply (skip_ws_suffix fwd (length s1)). lia. }
  destruct s1 as [|b s2]; [tauto|].
  destruct (if fwd then JS.ws2 a b else JS.ws2 b a).
  { split; [|intros (_ & ? & _); discriminate]. intros H. exfalso.
    apply (Hshort [a; b] s2); [simpl; lia|]. simpl. rewrite <- H.
    apply (skip_ws_suffix fwd (length s2)). lia. }
  destruct s2 as [|c s3]; [tauto|].
  destruct (if fwd then JS.ws3 a b c else JS.ws3 c b a); [|tauto].
  split; [|intros (_ & _ & ?); discriminate]. intros H. exfalso.
  apply (Hshort [a; b; c] s3); [simpl; lia|]. simpl. rewrite <- H.
  apply (skip_ws_suffix fwd (length s3)). lia.
Qed.

Lemma skip_ws_idempotent (fwd : bool) (n : nat) :
  forall s, length s <= n -> JS.skip_ws fwd (JS.skip_ws fwd s) = JS.skip_ws fwd s.
Proof.
  induction n as [|n IH]; intros s Hlen.
  { destruct s; [reflexivity | simpl in Hlen; lia]. }
  destruct s as [|a s1]; [reflexivity|]. simpl in Hlen. cbn [JS.skip_ws].
  destruct (JS.ws1 a) eqn:H1; [apply IH; lia|].
  destruct s1 as [|b s2].
  { apply skip_ws_fixed. auto. }
  simpl in Hlen.
  destruct (if fwd then JS.ws2 a b else JS.ws2 b a) eqn:H2; [apply IH; lia|].
  destruct s2 as [|c s3].
  { apply skip_ws_fixed. auto. }
  simpl in Hlen.
  destruct (if fwd then JS.ws3 a b c else JS.ws3 c b a) eqn:H3; [apply IH; lia|].
  apply skip_ws_fixed. auto.
Qed.

Lemma skip_ws_fixed_prefix (fwd : bool) (t k : list ascii) :
  JS.skip_ws fwd (t ++ k) = t ++ k -> JS.skip_ws fwd t = t.
Proof.
  rewrite !skip_ws_fixed.
  destruct t as [|a [|b [|c t]]]; simpl; tauto.
Qed.

Lemma trim_chars_idempotent (s : list ascii) :
  JS.trim_chars (JS.trim_chars s) = JS.trim_chars s.
Proof.
  unfold JS.trim_chars.
  pose proof (skip_ws_idempotent true (length s) s (le_n _)) as Hu.
  set (u := JS.skip_ws true s) in *.
  pose proof (skip_ws_idempotent false (length (rev u)) (rev u) (le_n _)) as Hr.
  destruct (skip_ws_suffix false (length (rev u)) (rev u) (le_n _)) as [k Hk].
  set (r := JS.skip_ws false (rev u)) in *.
  assert (JS.skip_ws true (rev r) = rev r) as Ht.
  { apply (skip_ws_fixed_prefix true (rev r) (rev k)).
    rewrite <- rev_app_distr, <- Hk, rev_involutive. exact Hu. }
  rewrite Ht, rev_involutive, Hr. reflexivity.
Qed.

Lemma trim_idempotent (s : string) : JS.trim (JS.trim s) = JS.trim s.
Proof.
  unfold JS.trim, JS.chars, JS.str.
  rewrite list_ascii_of_string_of_list_ascii.
  fold (JS.trim_chars (JS.trim_chars (list_ascii_of_string s))).
  rewrite trim_chars_idempotent. reflexivity.
Qed.

Lemma elem_of_rev {A : Type} (l : list A) (x : A) : x ∈ rev l <-> x ∈ l.
Proof. rewrite !list_elem_of_In. symmetry. apply in_rev. Qed.

Lemma trim_chars_keeps (s : list ascii) (c : ascii) : c ∈ JS.trim_chars s -> c ∈ s.
Proof.
  unfold JS.trim_chars. rewrite elem_of_rev. intros H.
  destruct (skip_ws_suffix false _ _ (le_n (length (rev (JS.skip_ws true s))))) as [k Hk].
  assert (c ∈ rev (JS.skip_ws true s)) as H'.
  { rewrite Hk. apply elem_of_app. right. exact H. }
  rewrite elem_of_rev in H'.
  destruct (skip_ws_suffix true _ _ (le_n (length s))) as [k' Hk'].
  rewrite Hk'. apply elem_of_app. right. exact H'.
Qed.

Lemma split_chars_pieces (sep : ascii) (s : list ascii) :
  forall cur,
    sep ∉ cur ->
    JS.split_chars sep cur s <> []
    /\ Forall (fun piece => sep ∉ JS.chars piece) (JS.split_chars sep cur s)
    /\ (sep ∉ s -> JS.split_chars sep cur s = [JS.str (rev cur ++ s)]).
Proof.
  induction s as [|c s IH]; intros cur Hcur; simpl.
  - split; [discriminate|]. split.
    + constructor; [|constructor]. unfold JS.chars, JS.str.
      rewrite list_ascii_of_string_of_list_ascii, elem_of_rev. exact Hcur.
    + intros _. rewrite app_nil_r. reflexivity.
  - destruct (Ascii.eqb_spec c sep) as [->|Hc].
    + split; [discriminate|]. split.
      * constructor.
        -- unfold JS.chars, JS.str.
           rewrite list_ascii_of_string_of_list_ascii, elem_of_rev. exact Hcur.
        -- apply IH. apply not_elem_of_nil.
      * intros Hs. exfalso. apply Hs. constructor.
    + assert (sep ∉ c :: cur) as Hcur'.
      { apply not_elem_of_cons. split; [congruence | exact Hcur]. }
      destruct (IH (c :: cur) Hcur') as (Hne & Hall & Hone).
      split; [exact Hne|]. split; [exact Hall|].
      intros Hs. apply not_elem_of_cons in Hs as [_ Hs].
      rewrite (Hone Hs). simpl. rewrite <- app_assoc. reflexivity.
Qed.

(** X13: the patterns [main] reads from the [exclude] input.  There is always
    at least one (the empty input gives the single empty pattern); each is
    trimmed, so white space around a pattern does not count; none contains a
    comma; and an input without a comma is one pattern, the trimmed input. *)
Theorem excludePatterns_shape (w : World) :
  excludePatterns w <> []
  /\ Forall (fun pattern => JS.trim pattern = pattern /\ ","%char ∉ JS.chars pattern)
       (excludePatterns w)
  /\ (","%char ∉ JS.chars (exclude w) -> excludePatterns w = [JS.trim (exclude w)]).
Proof.
  unfold excludePatterns, JS.split.
  destruct (split_chars_pieces "," (JS.chars (exclude w)) [] (not_elem_of_nil _))
    as (Hne & Hall & Hone).
  split; [|split].
  - destruct (JS.split_chars "," [] (JS.chars (exclude w))); [contradiction | discriminate].
  - apply Forall_map. eapply Forall_impl; [exact Hall|].
    intros piece Hpiece. split; [apply trim_idempotent|].
    intros Hin. apply Hpiece. unfold JS.trim, JS.chars, JS.str in Hin.
    rewrite list_ascii_of_string_of_list_ascii in Hin.
    apply trim_chars_keeps in Hin. exact Hin.
  - intros Hs. rewrite (Hone Hs). simpl. unfold JS.str, JS.chars.
    rewrite string_of_list_ascii_of_string. reflexivity.
Qed.

(* ===================================================================== *)
(** * Theorems: from a reply with findings to anchors                     *)
(* ===================================================================== *)

Lemma flatMap_findings (file : File.t) (p : string) (es : list JS.json) :
  truthy_path (File.to file) = Some p ->
  Forall coercible_finding es ->
  exists cs, flatMap (comment_of file) es = JS.Normal cs /\ Forall2 (anchor_of p) es cs.
Proof.
  intros Hp. induction 1 as [|e es He _ IH].
  - exists []. split; [reflexivity | constructor].
  - destruct (comment_of_finding file p e Hp He) as (c & Hc & Ha).
    destruct IH as (cs & Hcs & Hall).
    exists (c :: cs). split; [|constructor; assumption].
    simpl. rewrite Hc. simpl. rewrite Hcs. reflexivity.
Qed.

(** X15: the path of a hunk on which the completion answers as asked.  When
    the trimmed content of the first choice is a JSON object whose [reviews]
    is an array of findings, the body of the loop sends the one completion
    request, logs nothing, and appends to the comments gathered so far one
    anchor per finding, in the order of the reply, each on the target path of
    the file change; an empty array appends nothing. *)
Theorem findings_become_anchors (w : World) (file : File.t) (prDetails : PRDetails)
    (fullFile : string) (comments : list Comment) (chunk : Chunk.t) (tr : trace)
    (response : ChatCompletion) (res : string) (fs : list (string * JS.json))
    (es : list JS.json) (p : string) :
  chat_create w tr (createPrompt file chunk prDetails fullFile) = Some response ->
  reply_text response = JS.Normal res ->
  JS.JSON_parse res = Some (JS.JObj fs) ->
  JS.lookup_field "reviews" fs = Some (JS.JArr es) ->
  Forall coercible_finding es ->
  truthy_path (File.to file) = Some p ->
  exists cs,
    analyzeChunk w file prDetails fullFile comments chunk tr
    = (tr ++ [ChatCreate (createPrompt file chunk prDetails fullFile)],
       JS.Normal (comments ++ cs))
    /\ Forall2 (anchor_of p) es cs.
Proof.
  intros Hchat Hreply Hparse Hreviews Hes Hp.
  destruct (flatMap_findings file p es Hp Hes) as (cs & Hcs & Hall).
  exists cs. split; [|exact Hall].
  unfold analyzeChunk, bind at 1.
  rewrite (getAIResponse_reply w _ tr response Hchat), Hreply.
  unfold bind_completion. rewrite Hparse. simpl JS.get. rewrite Hreviews.
  cbn [JS.truthy]. unfold bind, lift, ret. unfold createComment. rewrite Hcs. reflexivity.
Qed.

(* ===================================================================== *)
(** * Concrete runs of the further properties                             *)
(* ===================================================================== *)

Lemma opened_run_names_the_pull_request_witness :
  Forall (opened_event (default JS.JNull (JS.JSON_parse (sample_payload "opened"))))
    (run (sample_world "opened" None [sample_file]))
  /\ (forall tr1 prDetails,
        getPRDetails (sample_world "opened" None [sample_file]) [] = (tr1, JS.Normal prDetails) ->
        PullsGetDiff (owner prDetails) (repo prDetails) (pull_number prDetails)
        ∈ run (sample_world "opened" None [sample_file])).
Proof.
  apply (opened_run_names_the_pull_request (sample_world "opened" None [sample_file])
           (sample_payload "opened")
           (default JS.JNull (JS.JSON_parse (sample_payload "opened")))).
  - intros tr. reflexivity.
  - vm_compute. reflexivity.
  - vm_compute. reflexivity.
Defined.

Lemma synchronize_run_names_the_commit_range_witness :
  Forall (synchronize_event (default JS.JNull (JS.JSON_parse (sample_payload "synchronize"))))
    (run (sample_world "synchronize" None [sample_file]))
  /\ (forall tr1 prDetails,
        getPRDetails (sample_world "synchronize" None [sample_file]) []
        = (tr1, JS.Normal prDetails) ->
        exists base head,
          JS.get (Some (default JS.JNull (JS.JSON_parse (sample_payload "synchronize"))))
            "before" = JS.Normal base
          /\ JS.get (Some (default JS.JNull (JS.JSON_parse (sample_payload "synchronize"))))
               "after" = JS.Normal head
          /\ CompareCommits (owner prDetails) (repo prDetails) base head
             ∈ run (sample_world "synchronize" None [sample_file])).
Proof.
  apply (synchronize_run_names_the_commit_range
           (sample_world "synchronize" None [sample_file]) (sample_payload "synchronize")
           (default JS.JNull (JS.JSON_parse (sample_payload "synchronize")))).
  - intros tr. reflexivity.
  - vm_compute. reflexivity.
  - vm_compute. reflexivity.
Defined.

(** Two entries, the second [null]: the callback throws on the second. *)
Lemma createComment_outcome_witness :
  match createComment sample_file sample_chunk
          (Some (JS.JArr [sample_finding "42" "avoid magic number"; JS.JNull])) with
  | JS.Normal cs =>
      Forall (fun e => ~ unreadable_entry e)
        [sample_finding "42" "avoid magic number"; JS.JNull]
      /\ length cs = 2
  | JS.Throw err =>
      err = JS.TypeError
      /\ Exists unreadable_entry [sample_finding "42" "avoid magic number"; JS.JNull]
  end.
Proof.
  apply (createComment_outcome sample_file sample_chunk "src/a.ts"
           [sample_finding "42" "avoid magic number"; JS.JNull]).
  reflexivity.
Defined.

(** A reply whose [reviews] is the string [none]: the analysis throws right
    after the one completion request. *)
Lemma analyzeCode_throws_only_TypeError_witness :
  JS.TypeError = JS.TypeError
  /\ exists d prompt,
       (analyzeCode (sample_world "opened" (Some (sample_reply (quoted "none"))) [])
          [sample_file] sample_details []).1
       = [] ++ d ++ [ChatCreate prompt].
Proof.
  apply (analyzeCode_throws_only_TypeError
           (sample_world "opened" (Some (sample_reply (quoted "none"))) [])
           [sample_file] sample_details []
           (analyzeCode (sample_world "opened" (Some (sample_reply (quoted "none"))) [])
              [sample_file] sample_details []).1
           JS.TypeError).
  vm_compute. reflexivity.
Defined.

(** A reviewed file of one hunk and a deleted file: one completion request. *)
Lemma analyzeCode_one_request_per_hunk_witness :
  exists d,
    (analyzeCode (sample_world "opened" None []) [sample_file; deleted_file]
       sample_details []).1 = [] ++ d
    /\ Forall2 (fun hunk e =>
                  exists fullFile,
                    e = ChatCreate (createPrompt hunk.1 hunk.2 sample_details fullFile))
         (hunks [sample_file; deleted_file]) (List.filter is_completion_request d).
Proof.
  apply (analyzeCode_one_request_per_hunk (sample_world "opened" None [])
           [sample_file; deleted_file] sample_details []
           (analyzeCode (sample_world "opened" None []) [sample_file; deleted_file]
              sample_details []).1 []).
  vm_compute. reflexivity.
Defined.

(** The memoisation is not vacuous: with a non-empty answer, two file changes
    on one path lead to one content request, which fetched the text. *)
Example fetched_once :
  requested_paths
    (analyzeCode (with_content "Y29uc3QgYiA9IDQyOw==" (sample_world "opened" None []))
       [sample_file; sample_file] sample_details []).1 = ["src/a.ts"]
  /\ fetched (with_content "Y29uc3QgYiA9IDQyOw==" (sample_world "opened" None [])) []
       (GetContent (owner sample_details) (repo sample_details) "src/a.ts"
          (headSha sample_details)) "src/a.ts".
Proof.
  split; [vm_compute; reflexivity|].
  exists (owner sample_details), (repo sample_details), (headSha sample_details),
    "Y29uc3QgYiA9IDQyOw==".
  split; [reflexivity|]. split; [reflexivity|]. vm_compute. discriminate.
Qed.

(** The reply of one finding on line 42. *)
Lemma findings_become_anchors_witness :
  exists cs,
    analyzeChunk
      (sample_world "opened"
         (Some (sample_reply ("[" +:+ sample_finding_text "42" "avoid magic number" +:+ "]")))
         [])
      sample_file sample_details "" [] sample_chunk []
    = ([] ++ [ChatCreate (createPrompt sample_file sample_chunk sample_details "")],
       JS.Normal ([] ++ cs))
    /\ Forall2 (anchor_of "src/a.ts") [sample_finding "42" "avoid magic number"] cs.
Proof.
  apply (findings_become_anchors
           (sample_world "opened"
              (Some (sample_reply ("[" +:+ sample_finding_text "42" "avoid magic number" +:+ "]")))
              [])
           sample_file sample_details "" [] sample_chunk []
           {| choices :=
                [ {| choice_message :=
                       Some {| message_content :=
                                 Some (sample_reply
                                         ("[" +:+ sample_finding_text "42" "avoid magic number"
                                          +:+ "]")) |} |} ] |}
           (sample_reply ("[" +:+ sample_finding_text "42" "avoid magic number" +:+ "]"))
           [("reviews", JS.JArr [sample_finding "42" "avoid magic number"])]
           [sample_finding "42" "avoid magic number"] "src/a.ts").
  - reflexivity.
  - vm_compute. reflexivity.
  - vm_compute. reflexivity.
  - reflexivity.
  - constructor; [|constructor].
    exists (Some (JS.JStr "42")), (Some (JS.JStr "avoid magic number")), (JS.of_N 42).
    split; [|reflexivity].
    exists [("lineNumber", JS.JStr "42"); ("reviewComment", JS.JStr "avoid magic number")].
    repeat split.
  - reflexivity.
Defined.

(** The full file of a prompt is the fetched text: with a content request
    that is answered, the one prompt carries what the answer decodes to. *)
Example prompt_carries_fetched_text :
  (analyzeCode (with_content "Y29uc3QgYiA9IDQyOw==" (sample_world "opened" None []))
     [sample_file] sample_details []).1
  = [ GetContent (owner sample_details) (repo sample_details) "src/a.ts"
        (headSha sample_details);
      ChatCreate (createPrompt sample_file sample_chunk sample_details "const b = 42;") ]
  /\ answered_text (with_content "Y29uc3QgYiA9IDQyOw==" (sample_world "opened" None [])) []
       (GetContent (owner sample_details) (repo sample_details) "src/a.ts"
          (headSha sample_details))
     = Some ("src/a.ts", "const b = 42;").
Proof. split; vm_compute; reflexivity. Qed.
